(** * The custom feature engine of [mltsp/custom_feature_tools.py]

    A shallow embedding of the contract parser, the contract-enforcing
    decorator, the round-based scheduler, the time-series front end and
    the Docker orchestration, followed by the properties established
    about them.

    Python dictionaries holding features are finite maps; the dictionary
    of contracts is an association list because the scheduler iterates
    over its keys in order.  Exceptions and the effects of calling user
    code are threaded through a small state-and-error monad. *)

From Stdlib Require Import ZArith Lia Ascii String.
From stdpp Require Import gmap strings list fin_maps.

Open Scope string_scope.
Open Scope list_scope.
Open Scope nat_scope.

#[local] Set Warnings "-register-all".

(* ===================================================================== *)
(** ** Values, exceptions, outcomes *)
(* ===================================================================== *)

(** Feature values.  The engine never computes with them: it stores them,
    looks them up by name and hands them to user functions. *)
Inductive value : Type :=
  | VNone
  | VNum (z : Z)
  | VStr (s : string)
  | VList (l : list value)
  | VTuple (l : list value).

Abbreviation features := (gmap string value).

(** The exceptions the modelled code can raise.  The scheduler raises a
    plain [Exception] carrying the name of a required parameter nobody
    provides; it is kept apart as [NotAllRequiredProvided]. *)
Inductive exn : Type :=
  | MissingRequiredParameterError (required_arg : string)
  | MissingRequiredReturnKeyError (provided : string)
  | NotAllRequiredProvided (reqd_param : string)
  | NotSameLength
  | AttributeError (attr : string)
  | KeyError (key : string)
  | IndexError
  | TypeError (msg : string)
  | ValueError (msg : string)
  | SyntaxError
  | NameError (name : string)
  | UnboundLocalError (name : string)
  | IOError (path : string)
  | DockerError (msg : string)
  | UserError (msg : string).

(** What running a piece of code gives: a value, a raised exception, or
    no answer within the number of loop rounds allowed. *)
Inductive outcome (A : Type) : Type :=
  | Ok (a : A)
  | Raise (e : exn)
  | OutOfFuel.
Arguments Ok {A} a.
Arguments Raise {A} e.
Arguments OutOfFuel {A}.

Definition outcome_bind {A B} (o : outcome A) (k : A → outcome B) : outcome B :=
  match o with
  | Ok a => k a
  | Raise e => Raise e
  | OutOfFuel => OutOfFuel
  end.

(** Computations over a state [S] that survive exceptions: what was done
    before the exception stays done. *)
Definition M (S A : Type) : Type := S → outcome A * S.

Definition ret {S A} (a : A) : M S A := λ s, (Ok a, s).
Definition raise {S A} (e : exn) : M S A := λ s, (Raise e, s).
Definition diverge {S A} : M S A := λ s, (OutOfFuel, s).
Definition bind {S A B} (c : M S A) (k : A → M S B) : M S B :=
  λ s, match c s with
       | (Ok a, s') => k a s'
       | (Raise e, s') => (Raise e, s')
       | (OutOfFuel, s') => (OutOfFuel, s')
       end.
Definition lift {S A} (o : outcome A) : M S A := λ s, (o, s).
Definition get {S} : M S S := λ s, (Ok s, s).
Definition modify {S} (f : S → S) : M S unit := λ s, (Ok tt, f s).

Notation "'do' x <- c ; k" := (bind c (λ x, k))
  (at level 10, x name, c at level 99, k at level 200).
Notation "c ;; k" := (bind c (λ _, k))
  (at level 100, k at level 200, right associativity).

(** [for x in xs: body x] *)
Fixpoint for_each {S A} (xs : list A) (body : A → M S unit) : M S unit :=
  match xs with
  | [] => ret tt
  | x :: xs' => body x ;; for_each xs' body
  end.

(* ===================================================================== *)
(** ** Strings *)
(* ===================================================================== *)

(** [needle in hay] on Python strings. *)
Fixpoint contains (needle hay : string) : bool :=
  if String.prefix needle hay then true
  else match hay with
       | EmptyString => false
       | String _ hay' => contains needle hay'
       end.

Definition is_space (c : ascii) : bool :=
  let n := nat_of_ascii c in
  orb (Nat.eqb n 32) (andb (Nat.leb 9 n) (Nat.leb n 13)).

Fixpoint lstrip_chars (cs : list ascii) : list ascii :=
  match cs with
  | c :: cs' => if is_space c then lstrip_chars cs' else cs
  | [] => []
  end.

(** [s.strip()] *)
Definition strip (s : string) : string :=
  string_of_list_ascii
    (rev (lstrip_chars (rev (lstrip_chars (list_ascii_of_string s))))).

(** [s.split(sep)] for a one-character separator. *)
Fixpoint split_chars (sep : ascii) (cur : list ascii) (cs : list ascii)
  : list string :=
  match cs with
  | [] => [string_of_list_ascii (rev cur)]
  | c :: cs' =>
      if Ascii.eqb c sep
      then string_of_list_ascii (rev cur) :: split_chars sep [] cs'
      else split_chars sep (c :: cur) cs'
  end.

Definition split (sep : ascii) (s : string) : list string :=
  split_chars sep [] (list_ascii_of_string s).

Definition comma : ascii := ","%char.
Definition newline : ascii := ascii_of_nat 10.

(* ===================================================================== *)
(** ** The contract-enforcing decorator: [myFeature] *)
(* ===================================================================== *)

(** What can be observed of running user code.  [Body args kwargs] is
    logged when the body of a decorated function starts to run;
    [Called i funcname arguments result] is logged by the scheduler when
    its call of the attribute [funcname] of [custom_feature_defs], over
    the keyword arguments [arguments] in round [i], has come back with
    [result]. *)
Inductive event : Type :=
  | Body (args : list value) (kwargs : features)
  | Called (i : nat) (funcname : string) (arguments : features)
           (result : outcome features).

Abbreviation trace := (list event).

Definition emit (ev : event) : M trace unit := modify (λ tr, tr ++ [ev]).

(** A function [f] under [@myFeature(requires=..., provides=...)]. *)
Record decorated : Type := Decorated {
  dec_requires : list string;
  dec_provides : list string;
  dec_f : list value → features → outcome features
}.

(** [name in args] for a tuple of positional values: the name is there
    when one of the values is that very string. *)
Definition is_str (name : string) (v : value) : bool :=
  match v with
  | VStr s => bool_decide (s = name)
  | _ => false
  end.

Definition in_args (name : string) (args : list value) : bool :=
  existsb (is_str name) args.

Definition in_dict (name : string) (d : features) : bool :=
  bool_decide (is_Some (d !! name)).

(** The call of [f] on the positional and keyword arguments. *)
Definition run_body (f : list value → features → outcome features)
    (args : list value) (kwargs : features) : M trace features :=
  emit (Body args kwargs) ;; lift (f args kwargs).

(** [myFeature.__call__(self, f)] gives [wrapped_f]. *)
Definition wrapped_f (self : decorated) (args : list value) (kwargs : features)
  : M trace features :=
  for_each (dec_requires self) (λ required_arg,
    if negb (in_args required_arg args) && negb (in_dict required_arg kwargs)
    then raise (MissingRequiredParameterError required_arg)
    else ret tt) ;;
  do result_dict <- run_body (dec_f self) args kwargs;
  for_each (dec_provides self) (λ provided,
    if negb (in_dict provided result_dict)
    then raise (MissingRequiredReturnKeyError provided)
    else ret tt) ;;
  ret result_dict.

(* ===================================================================== *)
(** ** The contract parser: [parse_for_req_prov_params] *)
(* ===================================================================== *)

(** The two uses of the third-party [parse] function and the builtin
    [eval], which the parser calls on annotation text.  [parse] gives
    [None] on a line that does not match its pattern; [eval] is taken on
    texts that evaluate to a list of names, and raises otherwise. *)
Record pylib : Type := Pylib {
  (* parse("@myFeature(requires={requires}, provides={provides})", s) *)
  parse_myFeature : string → option (string * string);
  (* parse("def {funcname}({args}):", s) *)
  parse_def : string → option (string * string);
  py_eval : string → outcome (list string)
}.

Record contract : Type := Contract {
  requires : list string;
  provides : list string
}.

(** A Python dictionary whose keys are iterated in insertion order. *)
Abbreviation dict V := (list (string * V)).

Fixpoint dict_get {V} (k : string) (d : dict V) : option V :=
  match d with
  | [] => None
  | (k', v) :: d' => if decide (k = k') then Some v else dict_get k d'
  end.

(** [d[k] = v]: an existing key keeps its place. *)
Fixpoint dict_set {V} (k : string) (v : V) (d : dict V) : dict V :=
  match d with
  | [] => [(k, v)]
  | (k', v') :: d' =>
      if decide (k = k') then (k, v) :: d' else (k', v') :: dict_set k v d'
  end.

Definition keys {V} (d : dict V) : list string := d.*1.

(** The three values [parse_for_req_prov_params] returns. *)
Record script_contracts : Type := ScriptContracts {
  fnames_req_prov_dict : dict contract;
  all_required_params : list string;
  all_provided_params : list string
}.

(** [x.named] on the result of [parse]. *)
Definition named {A} (r : option A) : outcome A :=
  match r with
  | Some a => Ok a
  | None => Raise (AttributeError "named")
  end.

(** [list(set(xs + list(set(ys))))]; the order Python gives a set is not
    specified, here it is the order of first occurrence. *)
Definition set_union_list (xs ys : list string) : list string :=
  remove_dups (xs ++ remove_dups ys).

(** The test that guards the body of the parser's loop. *)
Definition annotated (line next : string) : bool :=
  contains "@myFeature" line && contains "def " next.

(** The body of the loop, on [all_lines[i]] and [all_lines[i + 1]].  In
    the assignment to the dictionary Python evaluates the right-hand side
    before the key. *)
Definition parse_step (py : pylib) (line next : string) (acc : script_contracts)
  : outcome script_contracts :=
  if annotated line next then
    let reqs_provs_1 := parse_myFeature py (strip line) in
    let func_name := parse_def py (strip next) in
    outcome_bind (named reqs_provs_1) (λ rp,
    outcome_bind (py_eval py rp.1) (λ reqs,
    outcome_bind (py_eval py rp.2) (λ provs,
    outcome_bind (named func_name) (λ fn,
      Ok {| fnames_req_prov_dict :=
              dict_set fn.1 (Contract reqs provs) (fnames_req_prov_dict acc);
            all_required_params :=
              set_union_list (all_required_params acc) reqs;
            all_provided_params :=
              set_union_list (all_provided_params acc) provs |}))))
  else Ok acc.

(** [for i in range(len(all_lines) - 1)]: every line with its successor. *)
Fixpoint parse_lines (py : pylib) (all_lines : list string)
    (acc : script_contracts) : outcome script_contracts :=
  match all_lines with
  | line :: ((next :: _) as rest) =>
      outcome_bind (parse_step py line next acc) (parse_lines py rest)
  | _ => Ok acc
  end.

(** The script is given as the lines [f.readlines()] returns. *)
Definition parse_for_req_prov_params (py : pylib) (all_lines : list string)
  : outcome script_contracts :=
  parse_lines py all_lines (ScriptContracts [] [] []).

(* ===================================================================== *)
(** ** The scheduler: [call_custom_functions] *)
(* ===================================================================== *)

(** The imported module [custom_feature_defs]: its decorated functions by
    name. *)
Abbreviation module := (gmap string decorated).

(** The variables the scheduling loop works on. *)
Record sched : Type := Sched {
  all_required_params_copy : list string;
  func_queue : list string;
  funcnames : list string;
  func_rounds : gmap nat (list string);
  all_extracted_features : features
}.

(** [len(set(xs) & set(ys)) > 0] *)
Definition intersects (xs ys : list string) : bool :=
  existsb (λ x, bool_decide (x ∈ ys)) xs.

(** [l.remove(x)]: the first occurrence goes. *)
Fixpoint remove_first (x : string) (l : list string) : list string :=
  match l with
  | [] => []
  | y :: l' => if decide (x = y) then l' else y :: remove_first x l'
  end.

(** The loop that fills [arguments]: a required name is looked up among
    the features already known first, among the extracted ones next. *)
Definition gather_step (features_already_known extracted : features)
    (arguments : features) (req : string) : features :=
  match features_already_known !! req with
  | Some v => <[req := v]> arguments
  | None =>
      match extracted !! req with
      | Some v => <[req := v]> arguments
      | None => arguments
      end
  end.

Definition gather (features_already_known extracted : features)
    (reqs : list string) : features :=
  foldl (gather_step features_already_known extracted) ∅ reqs.

(** The call of the attribute [funcname] of the module over [arguments]. *)
Definition invoke (custom_feature_defs : module) (i : nat) (funcname : string)
    (arguments : features) : M trace features :=
  match custom_feature_defs !! funcname with
  | None => raise (AttributeError funcname)
  | Some f =>
      λ tr, let '(result, tr') := wrapped_f f [] arguments tr in
            (result, tr' ++ [Called i funcname arguments result])
  end.

(** [dict(list(a.items()) + list(b.items()))]: [b] wins on a shared key. *)
Definition merge_items (a b : features) : features := b ∪ a.

(** The body of [for funcname in funcnames]. *)
Definition visit (custom_feature_defs : module) (d : dict contract)
    (features_already_known : features) (i : nat) (funcname : string)
    (st : sched) : M trace sched :=
  match dict_get funcname d with
  | None => raise (KeyError funcname)
  | Some reqs_provs_dict =>
      let reqs := requires reqs_provs_dict in
      let provs := provides reqs_provs_dict in
      if intersects (all_required_params_copy st) reqs then
        ret {| all_required_params_copy := all_required_params_copy st;
               func_queue := func_queue st ++ [funcname];
               funcnames := funcnames st;
               func_rounds := func_rounds st;
               all_extracted_features := all_extracted_features st |}
      else
        let arguments :=
          gather features_already_known (all_extracted_features st) reqs in
        do func_result <- invoke custom_feature_defs i funcname arguments;
        ret {| all_required_params_copy :=
                 filter (λ x, x ∉ provs) (all_required_params_copy st);
               func_queue := func_queue st;
               funcnames := remove_first funcname (funcnames st);
               func_rounds :=
                 <[i := default [] (func_rounds st !! i) ++ [funcname]]>
                   (func_rounds st);
               all_extracted_features :=
                 merge_items (all_extracted_features st) func_result |}
  end.

(** [for funcname in funcnames], while the body removes from that very
    list: the iterator keeps a position [idx], stops when the position is
    past the end of the list as it is then, and moves on by one after each
    element.  [n] bounds the number of elements visited; the length of
    the list at the start is enough. *)
Fixpoint for_funcnames (n : nat) (custom_feature_defs : module)
    (d : dict contract) (features_already_known : features) (i idx : nat)
    (st : sched) : M trace sched :=
  match funcnames st !! idx with
  | None => ret st
  | Some funcname =>
      match n with
      | 0 => diverge
      | S n' =>
          do st' <- visit custom_feature_defs d features_already_known i
                      funcname st;
          for_funcnames n' custom_feature_defs d features_already_known i
            (S idx) st'
      end
  end.

Definition start_round (i : nat) (st : sched) : sched :=
  {| all_required_params_copy := all_required_params_copy st;
     func_queue := func_queue st;
     funcnames := funcnames st;
     func_rounds := <[i := []]> (func_rounds st);
     all_extracted_features := all_extracted_features st |}.

(** [while len(funcnames) > 0], for at most [fuel] rounds. *)
Fixpoint while_funcnames (fuel : nat) (custom_feature_defs : module)
    (d : dict contract) (features_already_known : features) (i : nat)
    (st : sched) : M trace sched :=
  match funcnames st with
  | [] => ret st
  | _ :: _ =>
      match fuel with
      | 0 => diverge
      | S fuel' =>
          do st' <- for_funcnames (length (funcnames st)) custom_feature_defs
                      d features_already_known i 0 (start_round i st);
          while_funcnames fuel' custom_feature_defs d features_already_known
            (S i) st'
      end
  end.

(** The check made before the rounds start. *)
Definition check_provided (all_required_params_copy all_provided_params
    : list string) : M trace unit :=
  for_each all_required_params_copy (λ reqd_param,
    if bool_decide (reqd_param ∈ all_provided_params) then ret tt
    else raise (NotAllRequiredProvided reqd_param)).

Definition initial_sched (all_required_params_copy : list string)
    (d : dict contract) : sched :=
  {| all_required_params_copy := all_required_params_copy;
     func_queue := [];
     funcnames := keys d;
     func_rounds := ∅;
     all_extracted_features := ∅ |}.

(** The body of [for features_already_known in features_already_known_list],
    up to the end of the rounds. *)
Definition schedule (fuel : nat) (custom_feature_defs : module)
    (all_required_params all_provided_params : list string)
    (d : dict contract) (features_already_known : features) : M trace sched :=
  let all_required_params_copy :=
    filter (λ x, ¬ is_Some (features_already_known !! x)) all_required_params in
  check_provided all_required_params_copy all_provided_params ;;
  while_funcnames fuel custom_feature_defs d features_already_known 0
    (initial_sched all_required_params_copy d).

Fixpoint call_custom_functions (fuel : nat) (custom_feature_defs : module)
    (features_already_known_list : list features)
    (all_required_params all_provided_params : list string)
    (d : dict contract) : M trace (list features) :=
  match features_already_known_list with
  | [] => ret []
  | features_already_known :: rest =>
      do st <- schedule fuel custom_feature_defs all_required_params
                 all_provided_params d features_already_known;
      do all_extracted_features_list <-
        call_custom_functions fuel custom_feature_defs rest
          all_required_params all_provided_params d;
      ret (all_extracted_features st :: all_extracted_features_list)
  end.

(** What [execute_functions_in_order] can be given as
    [features_already_known]. *)
Inductive known_arg : Type :=
  | OneDict (features_already_known : features)
  | DictList (features_already_known_list : list features)
  | NeitherDictNorList.

Definition listify_feats_known_dict (features_already_known : known_arg)
  : outcome (list features) :=
  match features_already_known with
  | OneDict k => Ok [k]
  | DictList l => Ok l
  | NeitherDictNorList => Raise (ValueError "invalid type")
  end.

(** The batching entry point.  The set of required parameters is passed
    twice, as the source has it. *)
Definition execute_functions_in_order (fuel : nat) (py : pylib)
    (custom_feature_defs : module) (script : list string)
    (features_already_known : known_arg) : M trace (list features) :=
  do parsed <- lift (parse_for_req_prov_params py script);
  do features_already_known_list <-
    lift (listify_feats_known_dict features_already_known);
  call_custom_functions fuel custom_feature_defs features_already_known_list
    (all_required_params parsed) (all_required_params parsed)
    (fnames_req_prov_dict parsed).

(* ===================================================================== *)
(** ** A reference instance of the library functions *)
(* ===================================================================== *)

(** A plain reading of the two patterns and of list literals, used to run
    the parser on concrete scripts: literal text is matched as it stands,
    a field matches at least one character and as few as possible, and a
    list literal is a bracketed, comma-separated sequence of quoted names
    without escapes.  Any other text is answered [SyntaxError]. *)

Fixpoint strip_prefix (p s : list ascii) : option (list ascii) :=
  match p, s with
  | [], _ => Some s
  | a :: p', b :: s' => if Ascii.eqb a b then strip_prefix p' s' else None
  | _ :: _, [] => None
  end.

Definition strip_suffix (p s : list ascii) : option (list ascii) :=
  (λ l, rev l) <$> strip_prefix (rev p) (rev s).

Fixpoint split_field (sep left s : list ascii)
  : option (list ascii * list ascii) :=
  match s with
  | [] => None
  | c :: s' =>
      match left, strip_prefix sep s with
      | _ :: _, Some (r :: rs) => Some (rev left, r :: rs)
      | _, _ => split_field sep (c :: left) s'
      end
  end.

Definition match_pattern (pre sep post : string) (s : string)
  : option (string * string) :=
  body ← strip_prefix (list_ascii_of_string pre) (list_ascii_of_string s);
  body' ← strip_suffix (list_ascii_of_string post) body;
  lr ← split_field (list_ascii_of_string sep) [] body';
  Some (string_of_list_ascii lr.1, string_of_list_ascii lr.2).

Inductive lit_state : Type :=
  | LitStart
  | LitItem
  | LitStr (q : ascii) (acc : list ascii)
  | LitAfter
  | LitEnd.

Definition is_quote (c : ascii) : bool :=
  orb (Ascii.eqb c (ascii_of_nat 34)) (Ascii.eqb c (ascii_of_nat 39)).

Fixpoint eval_list_chars (st : lit_state) (items : list string)
    (cs : list ascii) : outcome (list string) :=
  match cs with
  | [] => match st with LitEnd => Ok (rev items) | _ => Raise SyntaxError end
  | c :: cs' =>
      match st with
      | LitStart =>
          if is_space c then eval_list_chars LitStart items cs'
          else if Ascii.eqb c "["%char then eval_list_chars LitItem items cs'
          else Raise SyntaxError
      | LitItem =>
          if is_space c then eval_list_chars LitItem items cs'
          else if Ascii.eqb c "]"%char then eval_list_chars LitEnd items cs'
          else if is_quote c then eval_list_chars (LitStr c []) items cs'
          else Raise SyntaxError
      | LitStr q acc =>
          if Ascii.eqb c q
          then eval_list_chars LitAfter
                 (string_of_list_ascii (rev acc) :: items) cs'
          else if Ascii.eqb c (ascii_of_nat 92) then Raise SyntaxError
          else eval_list_chars (LitStr q (c :: acc)) items cs'
      | LitAfter =>
          if is_space c then eval_list_chars LitAfter items cs'
          else if Ascii.eqb c comma then eval_list_chars LitItem items cs'
          else if Ascii.eqb c "]"%char then eval_list_chars LitEnd items cs'
          else Raise SyntaxError
      | LitEnd =>
          if is_space c then eval_list_chars LitEnd items cs'
          else Raise SyntaxError
      end
  end.

Definition ref_pylib : pylib :=
  {| parse_myFeature := match_pattern "@myFeature(requires=" ", provides=" ")";
     parse_def := match_pattern "def " "(" "):";
     py_eval := λ s, eval_list_chars LitStart [] (list_ascii_of_string s) |}.

(* ===================================================================== *)
(** ** The front end: [add_tsdata_to_feats_known_dict] *)
(* ===================================================================== *)

(** What the front end takes from outside this file: the conversions
    [float(el)] and [str(x)] and the reading of a data file by
    [np.loadtxt], cut to three columns and turned into a list of rows. *)
Record builtins : Type := Builtins {
  py_float : value → outcome value;
  py_str : value → string;
  loadtxt : string → outcome (list value)
}.

(** [len(x)] *)
Definition py_len (x : value) : outcome nat :=
  match x with
  | VList l | VTuple l => Ok (length l)
  | VStr s => Ok (String.length s)
  | VNone | VNum _ => Raise (TypeError "object has no len()")
  end.

(** The elements iterating over [x] gives. *)
Definition py_items (x : value) : list value :=
  match x with
  | VList l | VTuple l => l
  | VStr s => (λ c, VStr (String c EmptyString)) <$> list_ascii_of_string s
  | VNone | VNum _ => []
  end.

Fixpoint map_outcome {A B} (f : A → outcome B) (l : list A)
  : outcome (list B) :=
  match l with
  | [] => Ok []
  | x :: l' =>
      outcome_bind (f x) (λ y,
      outcome_bind (map_outcome f l') (λ ys, Ok (y :: ys)))
  end.

(** The rows of comma-separated text: blank lines are dropped, fields are
    stripped. *)
Definition rows_of_text (text : string) : list value :=
  (λ line, VList ((λ x, VStr (strip x)) <$> split comma (strip line))) <$>
  filter (λ line, strip line ≠ EmptyString) (split newline (strip text)).

Definition parse_tsdata_to_lists (bi : builtins) (ts_data : value)
  : outcome (list value) :=
  match ts_data with
  | VList [] => Raise (ValueError "ts_data is an empty list")
  | VList (((VList _ | VTuple _) :: _) as rows) => Ok rows
  | VList ((VStr s0 :: _) as els) =>
      if contains "," s0 then
        map_outcome (λ el,
          match el with
          | VStr s => Ok (VList (VStr <$> split comma s))
          | _ => Raise (AttributeError "split")
          end)
          (filter (λ el, let s := match el with
                                  | VStr s => s
                                  | _ => py_str bi el
                                  end in
                         s ≠ String newline EmptyString ∧ s ≠ EmptyString)
            els)
      else Ok []
  | VList _ => Ok []
  | VStr s => Ok (rows_of_text s)
  | _ => Ok (rows_of_text (py_str bi ts_data))
  end.

(** The rows of a data file; the exception class the source names for a
    short row lives in a module the file never imports. *)
Definition parse_tsdata_from_file (bi : builtins) (ts_datafile_path : string)
  : outcome (list value) :=
  outcome_bind (loadtxt bi ts_datafile_path) (λ ts_data,
  outcome_bind
    (map_outcome (λ row,
       outcome_bind (py_len row) (λ n,
         if Nat.ltb n 2 then Raise (NameError "custom_exceptions")
         else Ok tt)) ts_data)
    (λ _, Ok ts_data)).

(** [l[i]] where [l] may be [None]. *)
Definition subscript {A} (l : option (list A)) (i : nat) : outcome A :=
  match l with
  | None => Raise (TypeError "'NoneType' object is not subscriptable")
  | Some xs =>
      match xs !! i with
      | Some x => Ok x
      | None => Raise IndexError
      end
  end.

(** [all(len(this_tme) == n for this_tme in tme)] *)
Fixpoint all_len (n : nat) (tme : list value) : outcome bool :=
  match tme with
  | [] => Ok true
  | this_tme :: tme' =>
      outcome_bind (py_len this_tme) (λ k,
        if Nat.eqb k n then all_len n tme' else Ok false)
  end.

(** Column [k] of [zip( *tme)], each element through [float]. *)
Definition float_column (bi : builtins) (k : nat) (tme : list value)
  : outcome value :=
  outcome_bind
    (map_outcome (λ row, py_float bi (default VNone (py_items row !! k))) tme)
    (λ col, Ok (VList col)).

Definition is_None (v : value) : bool :=
  match v with VNone => true | _ => false end.

(** The body of the loop over the instances, for instance [i]. *)
Definition add_tsdata_at (bi : builtins)
    (ts_datafile_paths : option (list (option string)))
    (ts_data_list : option (list value)) (i : nat)
    (features_already_known : features) : outcome features :=
  if negb (in_dict "t" features_already_known)
     || negb (in_dict "m" features_already_known)
  then
    outcome_bind (subscript ts_datafile_paths i) (λ path,
    outcome_bind
      match path with
      | None => outcome_bind (subscript ts_data_list i) (λ x, Ok (is_None x))
      | Some _ => Ok false
      end (λ neither,
    if neither : bool then Raise (ValueError "No time series data provided!")
    else
    outcome_bind
      match path with
      | Some ts_datafile_path => parse_tsdata_from_file bi ts_datafile_path
      | None =>
          outcome_bind (subscript ts_data_list i) (parse_tsdata_to_lists bi)
      end (λ tme,
    if Nat.ltb 0 (length tme) then
      outcome_bind (all_len 3 tme) (λ all3,
      if all3 then
        outcome_bind (float_column bi 0 tme) (λ T,
        outcome_bind (float_column bi 1 tme) (λ M,
        outcome_bind (float_column bi 2 tme) (λ E,
          Ok (<["e" := E]> (<["m" := M]> (<["t" := T]>
                features_already_known))))))
      else
        outcome_bind (all_len 2 tme) (λ all2,
        if all2 then
          outcome_bind (float_column bi 0 tme) (λ T,
          outcome_bind (float_column bi 1 tme) (λ M,
            Ok (<["m" := M]> (<["t" := T]> features_already_known))))
        else Raise NotSameLength))
    else Ok features_already_known)))
  else Ok features_already_known.

Fixpoint add_tsdata_from (bi : builtins)
    (ts_datafile_paths : option (list (option string)))
    (ts_data_list : option (list value)) (i : nat)
    (features_already_known_list : list features) : outcome (list features) :=
  match features_already_known_list with
  | [] => Ok []
  | features_already_known :: rest =>
      outcome_bind
        (add_tsdata_at bi ts_datafile_paths ts_data_list i
           features_already_known) (λ k,
      outcome_bind
        (add_tsdata_from bi ts_datafile_paths ts_data_list (S i) rest)
        (λ ks, Ok (k :: ks)))
  end.

(** The dictionaries are updated in place in the source; here the updated
    list is returned.  Only one of the two arguments is replaced when it
    is [None]: the second replacement is under [elif]. *)
Definition add_tsdata_to_feats_known_dict (bi : builtins)
    (features_already_known_list : list features)
    (ts_datafile_paths : option (list (option string)))
    (ts_data_list : option (list value)) : outcome (list features) :=
  let n := length features_already_known_list in
  let '(ts_datafile_paths, ts_data_list) :=
    match ts_datafile_paths, ts_data_list with
    | None, _ => (Some (replicate n None), ts_data_list)
    | Some _, None => (ts_datafile_paths, Some (replicate n VNone))
    | Some _, Some _ => (ts_datafile_paths, ts_data_list)
    end in
  add_tsdata_from bi ts_datafile_paths ts_data_list 0
    features_already_known_list.

(* ===================================================================== *)
(** ** The Docker orchestration: [docker_extract_features] *)
(* ===================================================================== *)

(** The two paths read from the configuration module. *)
Record cfg : Type := Cfg {
  PROJECT_PATH : string;
  TMP_CUSTOM_FEATS_FOLDER : string
}.

(** [os.path.join(a, b)] *)
Definition path_join (a b : string) : string :=
  String.append a (String.append "/" b).

(** What the orchestration changes on the host: the paths that exist and
    the containers that exist. *)
Record host : Type := Host {
  paths : gset string;
  containers : gset string
}.

(** How the calls that leave the program answer during one run: the
    random names, the file system and the Docker client.  [rmtree_removes]
    says whether [shutil.rmtree] manages to remove the tree it is given
    (its errors are ignored), [os_remove_removes] whether [os.remove]
    manages to remove a file that is there (its exceptions are caught). *)
Record environment : Type := Environment {
  uuid_container : string;
  uuid_tmp : string;
  makedirs : option exn;
  dump_features : option exn;
  import_docker : option exn;
  new_client : option exn;
  create_container : exn + string;
  start : option exn;
  wait : option exn;
  logs_stdout : option exn;
  logs_stderr : option exn;
  docker_copy : option exn;
  load_results : exn + list features;
  remove_container : option exn;
  rmtree_removes : bool;
  os_remove_removes : string → bool
}.

Definition step {S} (o : option exn) : M S unit :=
  match o with
  | None => ret tt
  | Some e => raise e
  end.

Definition answer {S A} (o : exn + A) : M S A :=
  match o with
  | inl e => raise e
  | inr a => ret a
  end.

Definition add_path (p : string) (h : host) : host :=
  {| paths := {[p]} ∪ paths h; containers := containers h |}.

Definition under (dir p : string) : Prop :=
  p = dir ∨ String.prefix (String.append dir "/") p = true.

#[global] Instance under_dec dir p : Decision (under dir p).
Proof. unfold under. apply _. Defined.

Definition remove_tree (dir : string) (h : host) : host :=
  {| paths := filter (λ p, ¬ under dir p) (paths h);
     containers := containers h |}.

Definition remove_path (p : string) (h : host) : host :=
  {| paths := paths h ∖ {[p]}; containers := containers h |}.

(** The prefixes of a path that end just before a separator: for a path
    without doubled or trailing separators, as [os.path.join] makes them
    from such parts, the directories above it, from the outermost on.
    [seen] holds, last character first, what has been read. *)
Fixpoint prefixes_before_sep (seen rest : list ascii) : list string :=
  match rest with
  | [] => []
  | c :: rest' =>
      (if Ascii.eqb c "/" && negb (Nat.eqb (length seen) 0)
       then [string_of_list_ascii (rev seen)] else [])
      ++ prefixes_before_sep (c :: seen) rest'
  end.

Definition dirs_above (p : string) : list string :=
  prefixes_before_sep [] (list_ascii_of_string p).

(** [os.makedirs(p)], when it goes well: the directory and every missing
    directory above it are there afterwards. *)
Definition make_dirs (p : string) (h : host) : host :=
  {| paths := {[p]} ∪ (list_to_set (dirs_above p) ∪ paths h);
     containers := containers h |}.

(** [os.makedirs] raises when the directory is there already. *)
Definition make_tmp_dir (env : environment) (cf : cfg) : M host string :=
  let path_to_tmp_dir :=
    path_join (path_join (PROJECT_PATH cf) "tmp") (uuid_tmp env) in
  do h <- get;
  (if bool_decide (path_to_tmp_dir ∈ paths h)
   then raise (IOError path_to_tmp_dir) else ret tt) ;;
  step (makedirs env) ;;
  modify (make_dirs path_to_tmp_dir) ;;
  ret path_to_tmp_dir.

Definition copy_data_to_tmp_dir (env : environment) (path_to_tmp_dir : string)
    (script_fpath : string) : M host unit :=
  do h <- get;
  (if bool_decide (script_fpath ∈ paths h) then ret tt
   else raise (IOError script_fpath)) ;;
  modify (add_path (path_join path_to_tmp_dir "custom_feature_defs.py")) ;;
  modify (add_path (path_join path_to_tmp_dir
                      "features_already_known_list.pkl")) ;;
  step (dump_features env) ;;
  modify (add_path (path_join path_to_tmp_dir "__init__.py")).

(** The local variables of [extract_feats_in_docker_container] that the
    [finally] clause reads; each is unbound until its assignment ran. *)
Record frame : Type := Frame {
  client : bool;
  cont_id : option string;
  results_list_of_dict : option (list features)
}.

Definition on_host (f : host → host) (s : host * frame) : host * frame :=
  (f s.1, s.2).

Definition add_container (id : string) (h : host) : host :=
  {| paths := paths h; containers := {[id]} ∪ containers h |}.

Definition del_container (id : string) (h : host) : host :=
  {| paths := paths h; containers := containers h ∖ {[id]} |}.

(** The statements under [try]. *)
Definition launch_and_retrieve (env : environment) (path_to_tmp_dir : string)
  : M (host * frame) unit :=
  step (new_client env) ;;
  modify (λ s, (s.1, Frame true (cont_id s.2) (results_list_of_dict s.2))) ;;
  do id <- answer (create_container env);
  modify (λ s, (add_container id s.1,
                Frame (client s.2) (Some id) (results_list_of_dict s.2))) ;;
  step (start env) ;;
  step (wait env) ;;
  step (logs_stdout env) ;;
  step (logs_stderr env) ;;
  step (docker_copy env) ;;
  modify (on_host
            (add_path (path_join path_to_tmp_dir "results_list_of_dict.pkl"))) ;;
  do r <- answer (load_results env);
  modify (λ s, (s.1, Frame (client s.2) (cont_id s.2) (Some r))).

(** [except: pass] *)
Definition except_pass {S} (c : M S unit) : M S unit :=
  λ s, match c s with
       | (Raise _, s') => (Ok tt, s')
       | r => r
       end.

(** The statements under [finally]: the container is removed, then the
    result variable is returned. *)
Definition remove_and_return (env : environment)
  : M (host * frame) (list features) :=
  do s <- get;
  if client s.2 then
    match cont_id s.2 with
    | None => raise (UnboundLocalError "cont_id")
    | Some id =>
        step (remove_container env) ;;
        modify (on_host (del_container id)) ;;
        match results_list_of_dict s.2 with
        | None => raise (UnboundLocalError "results_list_of_dict")
        | Some r => ret r
        end
    end
  else raise (UnboundLocalError "client").

Definition extract_feats_in_docker_container (env : environment)
    (container_name path_to_tmp_dir : string) : M host (list features) :=
  step (import_docker env) ;;
  λ h, let '(o, s) :=
         (except_pass (launch_and_retrieve env path_to_tmp_dir) ;;
          remove_and_return env) (h, Frame false None None) in
       (o, s.1).

(** [try: os.remove(tmp_file)  except Exception as e: print(e)] over the
    three leftovers, after the tree of the working directory: a file that
    is not there, or that cannot be removed, makes [os.remove] raise, the
    exception is printed and the host stays as it is. *)
Definition remove_tmp_files (env : environment) (cf : cfg)
    (path_to_tmp_dir : string) : M host unit :=
  (if rmtree_removes env then modify (remove_tree path_to_tmp_dir)
   else ret tt) ;;
  for_each
    [path_join (TMP_CUSTOM_FEATS_FOLDER cf) "custom_feature_defs.py";
     path_join (TMP_CUSTOM_FEATS_FOLDER cf) "custom_feature_defs.pyc";
     path_join (TMP_CUSTOM_FEATS_FOLDER cf) "__init__.pyc"]
    (λ tmp_file,
       if os_remove_removes env tmp_file then modify (remove_path tmp_file)
       else ret tt).

(** [try: body  except: raise  finally: fin] *)
Definition try_finally {S A} (body : M S A) (fin : M S unit) : M S A :=
  λ s, let '(o, s') := body s in
       match fin s' with
       | (Ok _, s'') => (o, s'')
       | (Raise e, s'') => (Raise e, s'')
       | (OutOfFuel, s'') => (OutOfFuel, s'')
       end.

Definition docker_extract_features (bi : builtins) (env : environment)
    (cf : cfg) (script_fpath : string)
    (features_already_known_list : known_arg)
    (ts_datafile_paths : option (list (option string)))
    (ts_data_list : option (list value)) : M host (list features) :=
  do features_already_known_list <-
    lift match features_already_known_list with
         | OneDict k => Ok [k]
         | DictList l => Ok l
         | NeitherDictNorList => Raise (TypeError "object has no len()")
         end;
  do features_already_known_list <-
    lift (add_tsdata_to_feats_known_dict bi features_already_known_list
            ts_datafile_paths ts_data_list);
  let container_name := uuid_container env in
  do path_to_tmp_dir <- make_tmp_dir env cf;
  copy_data_to_tmp_dir env path_to_tmp_dir script_fpath ;;
  try_finally
    (extract_feats_in_docker_container env container_name path_to_tmp_dir)
    (remove_tmp_files env cf path_to_tmp_dir).

(* ===================================================================== *)
(** ** The callers' entry point: [generate_custom_features] *)
(* ===================================================================== *)

(** [bool(x)] *)
Definition truthy (x : value) : bool :=
  match x with
  | VNone => false
  | VNum z => negb (Z.eqb z 0)
  | VStr s => negb (String.eqb s EmptyString)
  | VList l | VTuple l => negb (Nat.eqb (length l) 0)
  end.

(** [x[0]] *)
Definition first_item (x : value) : outcome value :=
  match x with
  | VList (y :: _) | VTuple (y :: _) => Ok y
  | VStr (String c _) => Ok (VStr (String c EmptyString))
  | VList [] | VTuple [] | VStr EmptyString => Raise IndexError
  | VNone | VNum _ => Raise (TypeError "object is not subscriptable")
  end.

Definition is_iterable (x : value) : bool :=
  match x with
  | VNone | VNum _ => false
  | _ => true
  end.

(** The length of the shortest of [rows]. *)
Definition min_len (rows : list value) : nat :=
  match rows with
  | [] => 0
  | row :: rest =>
      foldr (λ r acc, Nat.min (length (py_items r)) acc)
        (length (py_items row)) rest
  end.

(** [list(zip( *rows))]: the tuples of the first, the second, ... elements
    of the rows, as many as the shortest row has elements. *)
Definition zip_star (rows : list value) : outcome (list value) :=
  if forallb is_iterable rows then
    Ok ((λ k, VTuple ((λ r, default VNone (py_items r !! k)) <$> rows)) <$>
        seq 0 (min_len rows))
  else Raise (TypeError "zip argument is not iterable").

(** [parse_csv_file(fname)], with the separator and the number of lines
    to skip left at their defaults.  [loadtxt] stands for the reading and
    the cut to three columns together: on a file of a single row, or of a
    single column, the array read has one dimension and the cut raises,
    which is then what [loadtxt] answers. *)
Definition parse_csv_file (bi : builtins) (fname : string)
  : outcome (list value) :=
  outcome_bind (loadtxt bi fname) (λ ts_data,
  outcome_bind
    (map_outcome (λ row,
       outcome_bind (py_len row) (λ n,
         if Nat.ltb n 2 then Raise (NameError "custom_exceptions")
         else Ok tt)) ts_data) (λ _,
  outcome_bind (zip_star ts_data) (λ columns,
  let tme := (λ column, VList (py_items column)) <$> columns in
  Ok (if Nat.eqb (length tme) 2 then tme ++ [VList []] else tme)))).

(** A local variable is read: it is unbound until an assignment ran. *)
Definition read_local (name : string) (x : option value) : outcome value :=
  match x with
  | Some v => Ok v
  | None => Raise (UnboundLocalError name)
  end.

(** The locals [t], [m] and [e] of [generate_custom_features]. *)
Abbreviation tme_locals := (option value * option value * option value)%type.

(** [t, m, e = tme] *)
Definition unpack_three (tme : list value) : outcome tme_locals :=
  match tme with
  | [t; m; e] => Ok (Some t, Some m, Some e)
  | _ => Raise (ValueError "wrong number of values to unpack")
  end.

(** [t, m = tm], with [e] as it was. *)
Definition unpack_two (tm : list value) (locals : tme_locals)
  : outcome tme_locals :=
  match tm with
  | [t; m] => Ok (Some t, Some m, locals.2)
  | _ => Raise (ValueError "wrong number of values to unpack")
  end.

(** The branch taken when [ts_data] is given: two tests in a row, not one
    test with an alternative. *)
Definition locals_of_ts_data (ts_data : value) : outcome tme_locals :=
  outcome_bind (outcome_bind (first_item ts_data) py_len) (λ n,
  outcome_bind
    (if Nat.eqb n 3 then
       outcome_bind (zip_star (py_items ts_data)) unpack_three
     else Ok (None, None, None)) (λ locals,
  if Nat.eqb n 2 then
    outcome_bind (zip_star (py_items ts_data)) (λ tm, unpack_two tm locals)
  else Ok locals)).

Definition path_given (path_to_csv : option string) : bool :=
  match path_to_csv with
  | Some p => negb (String.eqb p EmptyString)
  | None => false
  end.

(** The first statement: where the time series comes from. *)
Definition bind_locals (bi : builtins) (path_to_csv : option string)
    (features_already_known : features) (ts_data : value)
  : outcome tme_locals :=
  if path_given path_to_csv then
    outcome_bind (parse_csv_file bi (default EmptyString path_to_csv))
      unpack_three
  else if truthy ts_data then locals_of_ts_data ts_data
  else if negb (in_dict "t" features_already_known)
          || negb (in_dict "m" features_already_known)
  then Raise (UserError "Neither path_to_csv nor ts_data provided...")
  else Ok (None, None, None).

(** [if name not in features_already_known:
       features_already_known[name] = <the local of that name>] *)
Definition set_if_absent (name : string) (local : option value)
    (features_already_known : features) : outcome features :=
  if negb (in_dict name features_already_known) then
    outcome_bind (read_local name local) (λ v,
      Ok (<[name := v]> features_already_known))
  else Ok features_already_known.

(** [if e and len(e) == len(m) and "e" not in features_already_known:
       features_already_known['e'] = e] *)
Definition set_errors (m e : option value) (features_already_known : features)
  : outcome features :=
  outcome_bind (read_local "e" e) (λ ev,
  if truthy ev then
    outcome_bind (py_len ev) (λ len_e,
    outcome_bind (read_local "m" m) (λ mv,
    outcome_bind (py_len mv) (λ len_m,
      if Nat.eqb len_e len_m && negb (in_dict "e" features_already_known)
      then Ok (<["e" := ev]> features_already_known)
      else Ok features_already_known)))
  else Ok features_already_known).

(** The statements before the features are generated. *)
Definition prepare_features (bi : builtins) (path_to_csv : option string)
    (features_already_known : features) (ts_data : value) : outcome features :=
  outcome_bind
    (bind_locals bi path_to_csv features_already_known ts_data) (λ locals,
  let '(t, m, e) := locals in
  outcome_bind (set_if_absent "t" t features_already_known) (λ known_t,
  outcome_bind (set_if_absent "m" m known_t) (λ known_t_m,
  set_errors m e known_t_m))).

(** The two functions imported from [docker_tools], as they answer during
    one call. *)
Record docker_tools : Type := DockerTools {
  is_running_in_docker : bool;
  docker_images_available : bool
}.

(** A computation on the log of this process, and one on the host, as
    computations on both. *)
Definition with_log {A} (c : M trace A) : M (trace * host) A :=
  λ s, let '(o, tr) := c s.1 in (o, (tr, s.2)).

Definition with_host {A} (c : M host A) : M (trace * host) A :=
  λ s, let '(o, h) := c s.2 in (o, (s.1, h)).

(** [script] and [custom_feature_defs] are the lines and the module of the
    file at [custom_script_path]. *)
Definition generate_custom_features (fuel : nat) (py : pylib)
    (custom_feature_defs : module) (script : list string) (bi : builtins)
    (env : environment) (cf : cfg) (dt : docker_tools)
    (custom_script_path : string) (path_to_csv : option string)
    (features_already_known : features) (ts_data : value)
  : M (trace * host) (list features) :=
  do features_already_known <-
    lift (prepare_features bi path_to_csv features_already_known ts_data);
  if is_running_in_docker dt then
    with_log (execute_functions_in_order fuel py custom_feature_defs script
                (OneDict features_already_known))
  else if docker_images_available dt then
    with_host (docker_extract_features bi env cf custom_script_path
                 (OneDict features_already_known) None None)
  else
    with_log (execute_functions_in_order fuel py custom_feature_defs script
                (OneDict features_already_known)).

(** [list_features_provided]: the loop of the parser once more, of which
    the names provided are returned. *)
Definition list_features_provided (py : pylib) (all_lines : list string)
  : outcome (list string) :=
  outcome_bind (parse_lines py all_lines (ScriptContracts [] [] []))
    (λ acc, Ok (all_provided_params acc)).

(* ===================================================================== *)
(** ** Reading the log, and the inputs of the examples *)
(* ===================================================================== *)

(** The names of the functions the scheduler called, in order. *)
Fixpoint called (tr : trace) : list string :=
  match tr with
  | [] => []
  | Called _ funcname _ _ :: tr' => funcname :: called tr'
  | Body _ _ :: tr' => called tr'
  end.

(** A user function that returns the same dictionary whatever it gets. *)
Definition returning (result : features) : list value → features → outcome features :=
  λ _ _, Ok result.

(** A name is missing from a call when it is neither a positional value
    nor a keyword. *)
Definition missing (args : list value) (kwargs : features) (name : string)
  : bool :=
  negb (in_args name args) && negb (in_dict name kwargs).

(** The arguments of a logged call are in order with respect to the log
    [before] it: a required name that is known is passed with its known
    value, and every value passed is either the known one or was returned
    by an earlier call, of the same round or of a round before. *)
Definition args_ok (known : features) (d : dict contract) (before : trace)
    (ev : event) : Prop :=
  match ev with
  | Body _ _ => True
  | Called i f arguments _ =>
      (∀ c req v, dict_get f d = Some c → req ∈ requires c →
         known !! req = Some v → arguments !! req = Some v) ∧
      (∀ req v, arguments !! req = Some v →
         known !! req = Some v ∨
         ∃ j i' f' a' r', before !! j = Some (Called i' f' a' (Ok r')) ∧
           i' ≤ i ∧ r' !! req = Some v)
  end.

(** Every logged call is in order with respect to the log before it. *)
Definition trace_ok (known : features) (d : dict contract) (tr : trace) : Prop :=
  ∀ k ev, tr !! k = Some ev → args_ok known d (take k tr) ev.

(** No call logged so far is of a round after [i]. *)
Definition rounds_le (i : nat) (tr : trace) : Prop :=
  ∀ k i' f a r, tr !! k = Some (Called i' f a r) → i' ≤ i.

(** Every extracted feature was returned by a logged call. *)
Definition ext_in_trace (ext : features) (tr : trace) : Prop :=
  ∀ req v, ext !! req = Some v →
    ∃ j i' f' a' r', tr !! j = Some (Called i' f' a' (Ok r')) ∧
      r' !! req = Some v.

(** The module holds, for every function of the dictionary, a function
    decorated with the same contract whose body, given all it requires,
    returns a dictionary with all it provides. *)
Definition honours_contracts (defs : module) (d : dict contract) : Prop :=
  ∀ f c, dict_get f d = Some c →
    ∃ self, defs !! f = Some self ∧
      dec_requires self = requires c ∧ dec_provides self = provides c ∧
      ∀ kwargs, (∀ r, r ∈ requires c → is_Some (kwargs !! r)) →
        ∃ res, dec_f self [] kwargs = Ok res ∧
          ∀ p, p ∈ provides c → is_Some (res !! p).

(** [R] holds every name some function requires. *)
Definition collects_requires (R : list string) (d : dict contract) : Prop :=
  ∀ f c r, dict_get f d = Some c → r ∈ requires c → r ∈ R.

(** [P] holds every name some function provides. *)
Definition collects_provides (P : list string) (d : dict contract) : Prop :=
  ∀ g c x, dict_get g d = Some c → x ∈ provides c → x ∈ P.

(** Every required name is known or provided by some function. *)
Definition obtainable (R : list string) (d : dict contract) (known : features)
  : Prop :=
  ∀ x, x ∈ R → known !! x = None →
    ∃ g c, dict_get g d = Some c ∧ x ∈ provides c.

(** No dependency cycle: the functions can be ranked so that whoever
    provides a name that is not known ranks below whoever requires it. *)
Definition acyclic (d : dict contract) (known : features) : Prop :=
  ∃ rank : string → nat,
    ∀ f c g c' x, dict_get f d = Some c → dict_get g d = Some c' →
      x ∈ requires c → known !! x = None → x ∈ provides c' →
      rank g < rank f.

(** What holds between the rounds of a run that goes well: the functions
    called and the functions left make up the dictionary, a pending name
    is required, unknown and provided by no function called so far, and a
    required name no longer pending has been extracted. *)
Definition live_inv (R : list string) (d : dict contract) (known : features)
    (st : sched) (tr : trace) : Prop :=
  called tr ++ funcnames st ≡ₚ keys d ∧
  (∀ x, x ∈ all_required_params_copy st →
     x ∈ R ∧ known !! x = None ∧
     ∀ g c, g ∈ called tr → dict_get g d = Some c → x ∉ provides c) ∧
  (∀ x, x ∈ R → known !! x = None → x ∉ all_required_params_copy st →
     is_Some (all_extracted_features st !! x)).

(** The round-order property as the specification words it: every value
    passed to a function of round [i] is the known one or was returned by
    a call of a round strictly before [i]. *)
Definition round_order_invariant (known : features) (tr : trace) : Prop :=
  ∀ k i f arguments result req v,
    tr !! k = Some (Called i f arguments result) →
    arguments !! req = Some v →
    known !! req = Some v ∨
    ∃ j i' f' a' r', tr !! j = Some (Called i' f' a' (Ok r')) ∧
      i' < i ∧ r' !! req = Some v.

(** Three functions: [f1] and [g] read the measurements, [f2] reads what
    [f1] provides. *)
Definition three_contracts : dict contract :=
  [("f1", Contract ["m"] ["x"]);
   ("g", Contract ["m"] ["z"]);
   ("f2", Contract ["x"] ["y"])].

Definition three_defs : module :=
  <["f1" := Decorated ["m"] ["x"] (returning {["x" := VNum 1]})]>
  (<["g" := Decorated ["m"] ["z"] (returning {["z" := VNum 2]})]>
  (<["f2" := Decorated ["x"] ["y"] (returning {["y" := VNum 3]})]> ∅)).

Definition known_m : features := {["m" := VList [VNum 1; VNum 23; VNum 2]]}.

Definition three_run : outcome sched * trace :=
  schedule 5 three_defs ["m"; "x"] ["x"; "z"; "y"] three_contracts known_m [].

(** A rank for the three functions: [f2] after the other two. *)
Definition three_rank (f : string) : nat :=
  if decide (f = "f2") then 1 else 0.

(** The bodies of the module's functions return or raise. *)
Definition bodies_return (defs : module) : Prop :=
  ∀ f self kwargs, defs !! f = Some self → dec_f self [] kwargs ≠ OutOfFuel.

(** No function left can run: each requires a name that is pending. *)
Definition stuck (d : dict contract) (copy fs : list string) : Prop :=
  ∀ f, f ∈ fs →
    ∃ c, dict_get f d = Some c ∧ intersects copy (requires c) = true.

(** Two functions, each requiring what only the other provides. *)
Definition cycle_contracts : dict contract :=
  [("f1", Contract ["b"] ["a"]);
   ("f2", Contract ["a"] ["b"])].

Definition cycle_defs : module :=
  <["f1" := Decorated ["b"] ["a"] (returning {["a" := VNum 1]})]>
  (<["f2" := Decorated ["a"] ["b"] (returning {["b" := VNum 2]})]> ∅).

(** A script whose second function requires a name, [x], that is neither
    known nor provided by any function. *)
Definition unsat_script : list string :=
  ["@myFeature(requires=['m'], provides=['z'])";
   "def g(m):";
   "    return {'z': 2}";
   "@myFeature(requires=['x'], provides=['y'])";
   "def f(x):";
   "    return {'y': 3}"].

Definition unsat_contracts : dict contract :=
  [("g", Contract ["m"] ["z"]);
   ("f", Contract ["x"] ["y"])].

Definition unsat_defs : module :=
  <["g" := Decorated ["m"] ["z"] (returning {["z" := VNum 2]})]>
  (<["f" := Decorated ["x"] ["y"] (returning {["y" := VNum 3]})]> ∅).

(** Two functions, the first of which provides a name that is also known. *)
Definition shadow_contracts : dict contract :=
  [("f1", Contract ["t"] ["m"]);
   ("f2", Contract ["m"] ["y"])].

Definition shadow_defs : module :=
  <["f1" := Decorated ["t"] ["m"] (returning {["m" := VNum 99]})]>
  (<["f2" := Decorated ["m"] ["y"] (returning {["y" := VNum 3]})]> ∅).

Definition known_t_m : features :=
  <["t" := VList [VNum 1; VNum 2]]> {["m" := VList [VNum 5; VNum 6]]}.

Definition shadow_run : outcome sched * trace :=
  schedule 5 shadow_defs ["t"; "m"] ["m"; "y"] shadow_contracts known_t_m [].

(** The working directory of a run. *)
Definition tmp_dir_of (env : environment) (cf : cfg) : string :=
  path_join (path_join (PROJECT_PATH cf) "tmp") (uuid_tmp env).

(** A host, a configuration and an environment in which every call
    answers well, and one in which starting the container fails. *)
Definition sample_cfg : cfg :=
  {| PROJECT_PATH := "/srv/mltsp";
     TMP_CUSTOM_FEATS_FOLDER := "/srv/mltsp/tmp_feats" |}.

Definition sample_builtins : builtins :=
  {| py_float := λ v, match v with
                      | VNum z => Ok (VNum z)
                      | _ => Raise (ValueError "could not convert to float")
                      end;
     py_str := λ _, "None";
     loadtxt := λ path, Raise (IOError path) |}.

Definition sample_host : host :=
  {| paths := {["/home/user/feats.py"; "/srv"; "/srv/mltsp";
                "/srv/mltsp/tmp"]};
     containers := ∅ |}.

Definition good_env : environment :=
  {| uuid_container := "0a1b2c3d-4";
     uuid_tmp := "5e6f7a8b-9";
     makedirs := None;
     dump_features := None;
     import_docker := None;
     new_client := None;
     create_container := inr "c0ffee";
     start := None;
     wait := None;
     logs_stdout := None;
     logs_stderr := None;
     docker_copy := None;
     load_results := inr [{["avg_m" := VNum 9]}];
     remove_container := None;
     rmtree_removes := true;
     os_remove_removes := λ _, true |}.

Definition start_fails_env : environment :=
  {| uuid_container := "0a1b2c3d-4";
     uuid_tmp := "5e6f7a8b-9";
     makedirs := None;
     dump_features := None;
     import_docker := None;
     new_client := None;
     create_container := inr "c0ffee";
     start := Some (DockerError "APIError");
     wait := None;
     logs_stdout := None;
     logs_stderr := None;
     docker_copy := None;
     load_results := inr [{["avg_m" := VNum 9]}];
     remove_container := None;
     rmtree_removes := true;
     os_remove_removes := λ _, true |}.

(** The function of the specification's first scenario, and one that
    breaks its contract by returning nothing. *)
Definition avg_mag : decorated :=
  Decorated ["m"] ["avg_m"] (returning {["avg_m" := VNum 9]}).

Definition avg_mag_broken : decorated :=
  Decorated ["m"] ["avg_m"] (returning ∅).

(** A script whose annotation has an unclosed list, and one whose
    annotation is followed by something else than a declaration. *)
Definition malformed_script : list string :=
  ["@myFeature(requires=['m', provides=['x'])";
   "def f(m):";
   "    return {'x': 1}"].

Definition unfollowed_script : list string :=
  ["@myFeature(requires=['m'], provides=['x'])";
   "x = 3";
   "def f(m):"].

(** Two epochs of two columns, as a list of rows. *)
Definition two_epochs : value :=
  VList [VList [VNum 1; VNum 10]; VList [VNum 2; VNum 11]].

(** The dictionary made of what the logged calls returned, a later call
    winning over an earlier one on a shared name. *)
Definition returned (tr : trace) : features :=
  foldl (λ acc ev, match ev with
                   | Called _ _ _ (Ok result) => merge_items acc result
                   | _ => acc
                   end) ∅ tr.

(** A name that was pending when the rounds started and no longer is, is
    among what some function called so far declares to provide. *)
Definition provided_so_far (R : list string) (d : dict contract)
    (known : features) (copy : list string) (tr : trace) : Prop :=
  ∀ x, x ∈ R → known !! x = None → x ∉ copy →
    ∃ j i g a r c, tr !! j = Some (Called i g a (Ok r)) ∧
      dict_get g d = Some c ∧ x ∈ provides c.

(** Every logged call comes after a call of a provider of each name it
    requires that had to be extracted. *)
Definition deps_before (R : list string) (d : dict contract)
    (known : features) (tr : trace) : Prop :=
  ∀ k i f a r c req,
    tr !! k = Some (Called i f a r) → dict_get f d = Some c →
    req ∈ requires c → req ∈ R → known !! req = None →
    ∃ j i' g a' r' c', j < k ∧ tr !! j = Some (Called i' g a' (Ok r')) ∧
      dict_get g d = Some c' ∧ req ∈ provides c'.

(** A computation over the log only appends to it, and what it does and
    gives does not depend on the log it starts from. *)
Definition appends {A} (c : M trace A) : Prop :=
  ∀ tr, c tr = ((c []).1, tr ++ (c []).2).

(** What the parser gives is well formed: no function is recorded twice,
    the two lists hold every name a recorded function requires or
    provides, and no name twice. *)
Definition well_formed (sc : script_contracts) : Prop :=
  NoDup (keys (fnames_req_prov_dict sc)) ∧
  collects_requires (all_required_params sc) (fnames_req_prov_dict sc) ∧
  collects_provides (all_provided_params sc) (fnames_req_prov_dict sc) ∧
  NoDup (all_required_params sc) ∧ NoDup (all_provided_params sc).

(** The state in which the run on the three functions ends. *)
Definition three_final : sched :=
  match three_run.1 with
  | Ok st => st
  | _ => initial_sched [] []
  end.

(** The script of the three functions, and a script without annotation. *)
Definition three_script : list string :=
  ["@myFeature(requires=['m'], provides=['x'])";
   "def f1(m):";
   "    return {'x': 1}";
   "@myFeature(requires=['m'], provides=['z'])";
   "def g(m):";
   "    return {'z': 2}";
   "@myFeature(requires=['x'], provides=['y'])";
   "def f2(x):";
   "    return {'y': 3}"].

Definition plain_script : list string :=
  ["import numpy";
   "def helper(m):";
   "    return {'x': 1}"].

(** A second instance, and the run on the two. *)
Definition known_m' : features := {["m" := VList [VNum 7]]}.

Definition two_instances_run : outcome (list features) * trace :=
  call_custom_functions 5 three_defs [known_m; known_m'] ["m"; "x"]
    ["x"; "z"; "y"] three_contracts [].

Definition two_instances_results : list features :=
  match two_instances_run.1 with
  | Ok results => results
  | _ => []
  end.

(** What the front end may have done to an instance: nothing, or it set
    the time and the measurements, and with them or not the errors, to
    lists of one length, and left every other feature as it was. *)
Definition populated (k k' : features) : Prop :=
  k' = k ∨
  ∃ T M, k' !! "t" = Some (VList T) ∧ k' !! "m" = Some (VList M) ∧
    length T = length M ∧
    (k' !! "e" = k !! "e" ∨
     ∃ E, k' !! "e" = Some (VList E) ∧ length E = length T) ∧
    ∀ name, name ≠ "t" → name ≠ "m" → name ≠ "e" → k' !! name = k !! name.

(** Two instances, one with the time and the measurements and one bare. *)
Definition with_t_m : features :=
  <["t" := VList [VNum 1]]> (<["m" := VList [VNum 5]]>
    {["coords" := VList [VNum 0; VNum 0]]}).

Definition bare : features := {["coords" := VList [VNum 0; VNum 0]]}.

(** An environment in which the features cannot be written to the working
    directory. *)
Definition dump_fails_env : environment :=
  {| uuid_container := "0a1b2c3d-4";
     uuid_tmp := "5e6f7a8b-9";
     makedirs := None;
     dump_features := Some (IOError "features_already_known_list.pkl");
     import_docker := None;
     new_client := None;
     create_container := inr "c0ffee";
     start := None;
     wait := None;
     logs_stdout := None;
     logs_stderr := None;
     docker_copy := None;
     load_results := inr [{["avg_m" := VNum 9]}];
     remove_container := None;
     rmtree_removes := true;
     os_remove_removes := λ _, true |}.

(** Three epochs with errors and two epochs without, as rows and as the
    file reader gives them. *)
Definition three_columns : list value :=
  [VList [VNum 1; VNum 10; VNum 3];
   VList [VNum 2; VNum 11; VNum 4]].

Definition csv_builtins : builtins :=
  {| py_float := py_float sample_builtins;
     py_str := py_str sample_builtins;
     loadtxt := λ path, if String.eqb path "ts.csv" then Ok three_columns
                        else Raise (IOError path) |}.

Definition in_docker : docker_tools := DockerTools true false.

(** A call inside Docker on a data file, and what it prepares and gives. *)
Definition csv_run : outcome (list features) * (trace * host) :=
  generate_custom_features 5 ref_pylib three_defs three_script csv_builtins
    good_env sample_cfg in_docker "/home/user/feats.py" (Some "ts.csv") bare
    VNone ([], sample_host).

Definition csv_result : list features :=
  match csv_run.1 with
  | Ok result => result
  | _ => []
  end.

Definition csv_prepared : features :=
  match prepare_features csv_builtins (Some "ts.csv") bare VNone with
  | Ok prepared => prepared
  | _ => ∅
  end.

(** An instance for which the functions of the unsatisfiable script can
    all run, and the run on it followed by one for which they cannot. *)
Definition known_m_x : features := <["x" := VNum 4]> known_m.

Definition failing_batch_run : outcome (list features) * trace :=
  call_custom_functions 5 unsat_defs ([known_m_x] ++ known_m :: [known_m_x])
    ["m"; "x"] ["z"; "y"] unsat_contracts [].

(** A call that went well, as the log has it: the round, the name of the
    function, the arguments it was given and the dictionary it returned. *)
Record logged_call : Type := LoggedCall {
  call_round : nat;
  call_name : string;
  call_args : features;
  call_result : features
}.

(** The log of a sequence of calls that all went well: for each call, the
    body of the function ran on the arguments, and the call returned. *)
Fixpoint call_log (calls : list logged_call) : trace :=
  match calls with
  | [] => []
  | c :: calls' =>
      Body [] (call_args c)
      :: Called (call_round c) (call_name c) (call_args c) (Ok (call_result c))
      :: call_log calls'
  end.

(** The call is a run of the body of the function of that name in the
    module: the decorator found every name it requires among the
    arguments, the body returned the result on them, and the decorator
    found every name it provides in the result. *)
Definition body_ran (defs : module) (c : logged_call) : Prop :=
  ∃ self, defs !! call_name c = Some self ∧
    dec_f self [] (call_args c) = Ok (call_result c) ∧
    (∀ r, r ∈ dec_requires self → is_Some (call_args c !! r)) ∧
    (∀ p, p ∈ dec_provides self → is_Some (call_result c !! p)).

(** The same with respect to the contract of the function. *)
Definition ran_body (defs : module) (d : dict contract) (c : logged_call)
  : Prop :=
  ∃ self ct, defs !! call_name c = Some self ∧
    dict_get (call_name c) d = Some ct ∧
    dec_f self [] (call_args c) = Ok (call_result c) ∧
    (∀ r, r ∈ requires ct → is_Some (call_args c !! r)) ∧
    (∀ p, p ∈ provides ct → is_Some (call_result c !! p)).

(** The module of the three functions when the body of [f1] raises. *)
Definition raising_defs : module :=
  <["f1" := Decorated ["m"] ["x"] (λ _ _, Raise (ValueError "bad data"))]>
    three_defs.

(** A script whose annotation has an unclosed list of provided names, and
    one whose annotation is on the last line. *)
Definition malformed_provides_script : list string :=
  ["x = 3";
   "@myFeature(requires=['m'], provides=['x)";
   "def f(m):";
   "    return {'x': 1}"].

Definition marker_last_script : list string :=
  ["x = 3";
   "@myFeature(requires=['m'], provides=['x'])"].


(* ===================================================================== *)
(** ** Properties of the monad *)
(* ===================================================================== *)

(** Case analysis on a look-up in a given dictionary, and on membership
    in a given list. *)
Ltac dict_cases H :=
  simpl in H;
  repeat match type of H with
         | context [decide (?f = ?k)] =>
             destruct (decide (f = k)) as [->|?]
         end;
  try discriminate H; try (injection H as <-).

Ltac elem_cases H :=
  repeat (let E := fresh "E" in
          apply elem_of_cons in H as [E|H];
          [try discriminate E; try subst|]);
  try (by apply elem_of_nil in H).

Lemma for_each_guard {S} (bad : string → bool) (E : string → exn)
    (l : list string) (s : S) :
  for_each l (λ x, if bad x then raise (E x) else ret tt) s =
  match List.find bad l with
  | Some x => (Raise (E x), s)
  | None => (Ok tt, s)
  end.
Proof.
  induction l as [|x l IH]; simpl; [done|].
  unfold bind at 1. destruct (bad x); simpl; [done|]. apply IH.
Qed.

Lemma find_none_forall {A} (p : A → bool) (l : list A) :
  List.find p l = None ↔ ∀ x, x ∈ l → p x = false.
Proof.
  induction l as [|y l IH]; simpl.
  - split; [intros _ x Hx; inversion Hx | done].
  - destruct (p y) eqn:Hy.
    + split; [done|]. intros H. specialize (H y (list_elem_of_here _ _)).
      congruence.
    + rewrite IH. split.
      * intros H x Hx. apply elem_of_cons in Hx as [->|Hx]; auto.
      * intros H x Hx. apply H. by apply list_elem_of_further.
Qed.

Lemma find_some_elem {A} (p : A → bool) (l : list A) (x : A) :
  List.find p l = Some x → x ∈ l ∧ p x = true.
Proof.
  induction l as [|y l IH]; simpl; [done|].
  destruct (p y) eqn:Hy.
  - intros [= <-]. split; [apply list_elem_of_here | done].
  - intros H. destruct (IH H). split; [by apply list_elem_of_further | done].
Qed.

Lemma find_exists_some {A} (p : A → bool) (l : list A) (x : A) :
  x ∈ l → p x = true → ∃ y, List.find p l = Some y.
Proof.
  intros Hx Hp. destruct (List.find p l) eqn:Hf; [eauto|].
  rewrite find_none_forall in Hf. rewrite (Hf x Hx) in Hp. done.
Qed.

(* ===================================================================== *)
(** ** The decorator *)
(* ===================================================================== *)

(** What [wrapped_f] does, case by case. *)
Lemma wrapped_f_cases (self : decorated) (args : list value)
    (kwargs : features) (tr : trace) :
  wrapped_f self args kwargs tr =
  match List.find (missing args kwargs) (dec_requires self) with
  | Some name => (Raise (MissingRequiredParameterError name), tr)
  | None =>
      match dec_f self args kwargs with
      | Ok result_dict =>
          match List.find (λ p, negb (in_dict p result_dict))
                  (dec_provides self) with
          | Some name =>
              (Raise (MissingRequiredReturnKeyError name),
               tr ++ [Body args kwargs])
          | None => (Ok result_dict, tr ++ [Body args kwargs])
          end
      | Raise e => (Raise e, tr ++ [Body args kwargs])
      | OutOfFuel => (OutOfFuel, tr ++ [Body args kwargs])
      end
  end.
Proof.
  unfold wrapped_f. unfold bind at 1.
  rewrite (for_each_guard (missing args kwargs) MissingRequiredParameterError).
  destruct (List.find _ (dec_requires self)); [done|].
  unfold bind at 1. unfold run_body, emit, modify, lift, bind at 1.
  destruct (dec_f self args kwargs) as [d| |]; [|done..].
  unfold bind.
  rewrite (for_each_guard (λ p, negb (in_dict p d)) MissingRequiredReturnKeyError).
  by destruct (List.find _ (dec_provides self)).
Qed.

(** C5.  A call of a decorated function that lacks a required name, both
    among the positional values and among the keywords, raises
    [MissingRequiredParameterError] for such a name and the body of the
    function does not run (nothing is logged).  When every required name
    is there and the body returns a dictionary that lacks a provided name,
    the call raises [MissingRequiredReturnKeyError] for such a name.
    Otherwise the call returns what the body returned. *)
Theorem myFeature_enforces_contract (self : decorated) (args : list value)
    (kwargs : features) (tr : trace) :
  ((∃ name, name ∈ dec_requires self ∧ missing args kwargs name = true) →
   ∃ name, name ∈ dec_requires self ∧ missing args kwargs name = true ∧
     wrapped_f self args kwargs tr =
       (Raise (MissingRequiredParameterError name), tr)) ∧
  ((∀ name, name ∈ dec_requires self → missing args kwargs name = false) →
   ∀ result_dict, dec_f self args kwargs = Ok result_dict →
     ((∃ name, name ∈ dec_provides self ∧ result_dict !! name = None) →
      ∃ name, name ∈ dec_provides self ∧ result_dict !! name = None ∧
        wrapped_f self args kwargs tr =
          (Raise (MissingRequiredReturnKeyError name),
           tr ++ [Body args kwargs])) ∧
     ((∀ name, name ∈ dec_provides self → is_Some (result_dict !! name)) →
      wrapped_f self args kwargs tr =
        (Ok result_dict, tr ++ [Body args kwargs]))).
Proof.
  rewrite wrapped_f_cases. split.
  - intros (name & Hin & Hmiss).
    destruct (find_exists_some _ _ _ Hin Hmiss) as [y Hy]. rewrite Hy.
    apply find_some_elem in Hy as [? ?]. eauto.
  - intros Hall d Hd.
    assert (List.find (missing args kwargs) (dec_requires self) = None) as ->
      by by apply find_none_forall.
    rewrite Hd. split.
    + intros (name & Hin & Hnone).
      assert (negb (in_dict name d) = true) as Hp.
      { unfold in_dict. rewrite bool_decide_eq_false_2; [done|].
        rewrite Hnone. by intros [? ?]. }
      destruct (find_exists_some (λ p, negb (in_dict p d)) _ _ Hin Hp)
        as [y Hy].
      rewrite Hy.
      apply find_some_elem in Hy as [Hy1 Hy2]. exists y. split_and!; [done| |done].
      unfold in_dict in Hy2. apply negb_true_iff, bool_decide_eq_false in Hy2.
      by apply eq_None_not_Some.
    + intros Hprov.
      assert (List.find (λ p, negb (in_dict p d)) (dec_provides self) = None)
        as ->; [|done].
      apply find_none_forall. intros x Hx. unfold in_dict.
      by rewrite bool_decide_eq_true_2; [|apply Hprov].
Qed.

Lemma myFeature_enforces_contract_witness :
  wrapped_f avg_mag [] ∅ [] = (Raise (MissingRequiredParameterError "m"), []) ∧
  wrapped_f avg_mag_broken [] known_m []
    = (Raise (MissingRequiredReturnKeyError "avg_m"), [Body [] known_m]) ∧
  wrapped_f avg_mag [] known_m []
    = (Ok {["avg_m" := VNum 9]}, [Body [] known_m]).
Proof.
  assert (∀ name, name ∈ ["m"] → missing [] known_m name = false) as Hall.
  { intros name Hin. elem_cases Hin. vm_compute. reflexivity. }
  split_and!.
  - destruct (proj1 (myFeature_enforces_contract avg_mag [] ∅ []))
      as (name & Hin & _ & Heq).
    + exists "m". split; [apply list_elem_of_here | reflexivity].
    + simpl in Hin. elem_cases Hin. exact Heq.
  - destruct (proj1 (proj2 (myFeature_enforces_contract avg_mag_broken []
                              known_m []) Hall ∅ eq_refl))
      as (name & Hin & _ & Heq).
    + exists "avg_m". split; [apply list_elem_of_here | reflexivity].
    + simpl in Hin. elem_cases Hin. exact Heq.
  - apply (proj2 (proj2 (myFeature_enforces_contract avg_mag [] known_m [])
                    Hall {["avg_m" := VNum 9]} eq_refl)).
    intros name Hin. simpl in Hin. elem_cases Hin. eexists. reflexivity.
Defined.

(* ===================================================================== *)
(** ** The scheduler: arguments and the log *)
(* ===================================================================== *)

Lemma gather_fold_lookup (known ext acc : features) (reqs : list string)
    (r : string) :
  foldl (gather_step known ext) acc reqs !! r =
  if decide (r ∈ reqs)
  then match (known ∪ ext) !! r with Some v => Some v | None => acc !! r end
  else acc !! r.
Proof.
  revert acc. induction reqs as [|q reqs IH]; intros acc.
  - rewrite decide_False; [done | apply not_elem_of_nil].
  - change (foldl (gather_step known ext) acc (q :: reqs))
      with (foldl (gather_step known ext) (gather_step known ext acc q) reqs).
    rewrite IH. clear IH.
    assert (gather_step known ext acc q !! r =
            if decide (q = r)
            then match (known ∪ ext) !! r with
                 | Some v => Some v
                 | None => acc !! r
                 end
            else acc !! r) as Hstep.
    { unfold gather_step. rewrite lookup_union.
      destruct (decide (q = r)) as [->|Hne].
      - destruct (known !! r) as [v|] eqn:Hk; simpl.
        + rewrite lookup_insert_eq. by destruct (ext !! r).
        + destruct (ext !! r) as [v|] eqn:He; simpl; [|done].
          by rewrite lookup_insert_eq.
      - destruct (known !! q); [by rewrite lookup_insert_ne|].
        destruct (ext !! q); [by rewrite lookup_insert_ne | done]. }
    rewrite Hstep.
    destruct (decide (r ∈ reqs)) as [Hin|Hnin], (decide (q = r)) as [Heq|Hne],
      (decide (r ∈ q :: reqs)) as [Hin'|Hnin']; try done.
    + by destruct ((known ∪ ext) !! r).
    + exfalso. apply Hnin'. by apply list_elem_of_further.
    + exfalso. apply Hnin'. by apply list_elem_of_further.
    + exfalso. apply Hnin'. subst. apply list_elem_of_here.
    + exfalso. apply elem_of_cons in Hin' as [?|?]; congruence.
Qed.

(** The arguments gathered for a function: each required name that is
    known or extracted, with the known value first. *)
Lemma gather_lookup (known ext : features) (reqs : list string) (r : string) :
  gather known ext reqs !! r =
  if decide (r ∈ reqs) then (known ∪ ext) !! r else None.
Proof.
  unfold gather. rewrite gather_fold_lookup, lookup_empty.
  destruct (decide (r ∈ reqs)); [|done]. by destruct ((known ∪ ext) !! r).
Qed.

Lemma gather_known (known ext : features) (reqs : list string) (r : string)
    (v : value) :
  r ∈ reqs → known !! r = Some v → gather known ext reqs !! r = Some v.
Proof.
  intros Hin Hk. rewrite gather_lookup, decide_True by done.
  by apply lookup_union_Some_l.
Qed.

Lemma gather_source (known ext : features) (reqs : list string) (r : string)
    (v : value) :
  gather known ext reqs !! r = Some v →
  r ∈ reqs ∧ (known !! r = Some v ∨ ext !! r = Some v).
Proof.
  rewrite gather_lookup. destruct (decide (r ∈ reqs)); [|done].
  intros H. split; [done|]. apply lookup_union_Some_raw in H. tauto.
Qed.

(** A decorated function logs at most the start of its body. *)
Lemma wrapped_f_log (self : decorated) (args : list value) (kwargs : features)
    (tr : trace) :
  ∃ pre, (pre = [] ∨ pre = [Body args kwargs]) ∧
    (wrapped_f self args kwargs tr).2 = tr ++ pre.
Proof.
  rewrite wrapped_f_cases.
  destruct (List.find _ (dec_requires self)).
  { exists []. split; [by left | by rewrite app_nil_r]. }
  exists [Body args kwargs]. split; [by right|].
  destruct (dec_f self args kwargs) as [d| |]; [|done..].
  by destruct (List.find _ (dec_provides self)).
Qed.

Lemma invoke_cases (defs : module) (i : nat) (f : string) (args : features)
    (tr : trace) :
  (defs !! f = None ∧
   invoke defs i f args tr = (Raise (AttributeError f), tr)) ∨
  (∃ self pre, defs !! f = Some self ∧
     (pre = [] ∨ pre = [Body [] args]) ∧
     (wrapped_f self [] args tr) = ((wrapped_f self [] args tr).1, tr ++ pre) ∧
     invoke defs i f args tr =
       ((wrapped_f self [] args tr).1,
        tr ++ pre ++ [Called i f args (wrapped_f self [] args tr).1])).
Proof.
  unfold invoke. destruct (defs !! f) as [self|]; [right | by left].
  destruct (wrapped_f_log self [] args tr) as (pre & Hpre & Hlog).
  exists self, pre. split_and!; [done..| |].
  - rewrite <- Hlog. by destruct (wrapped_f self [] args tr).
  - destruct (wrapped_f self [] args tr) as [o tr'] eqn:E. simpl in *.
    subst tr'. by rewrite <- app_assoc.
Qed.

Lemma trace_ok_snoc known d tr ev :
  trace_ok known d tr → args_ok known d tr ev → trace_ok known d (tr ++ [ev]).
Proof.
  intros Htr Hev k ev' Hk.
  destruct (decide (k < length tr)) as [Hlt|Hge].
  - rewrite lookup_app_l in Hk by done.
    rewrite take_app_le by lia. by apply Htr.
  - rewrite lookup_app_r in Hk by lia.
    destruct (k - length tr) as [|n] eqn:E; simpl in Hk; [|done].
    injection Hk as <-. assert (k = length tr) as -> by lia.
    by rewrite take_app_length.
Qed.

Lemma rounds_le_snoc i tr ev :
  rounds_le i tr →
  (∀ i' f a r, ev = Called i' f a r → i' ≤ i) →
  rounds_le i (tr ++ [ev]).
Proof.
  intros Htr Hev k i' f a r Hk.
  destruct (decide (k < length tr)) as [Hlt|Hge].
  - rewrite lookup_app_l in Hk by done. eauto.
  - rewrite lookup_app_r in Hk by lia.
    destruct (k - length tr) as [|n] eqn:E; simpl in Hk; [|done].
    injection Hk as ->. eauto.
Qed.

Lemma rounds_le_mono i j tr : i ≤ j → rounds_le i tr → rounds_le j tr.
Proof. intros Hij H k i' f a r Hk. specialize (H _ _ _ _ _ Hk). lia. Qed.

Lemma ext_in_trace_app ext tr tr' :
  ext_in_trace ext tr → ext_in_trace ext (tr ++ tr').
Proof.
  intros H req v Hv. destruct (H req v Hv) as (j & i' & f' & a' & r' & Hj & Hr).
  exists j, i', f', a', r'. split; [|done]. by apply lookup_app_l_Some.
Qed.

Lemma trace_ok_call known d i tr pre f c ext o :
  trace_ok known d tr → rounds_le i tr → ext_in_trace ext tr →
  dict_get f d = Some c →
  pre = [] ∨ (∃ a k, pre = [Body a k]) →
  trace_ok known d
    (tr ++ pre ++ [Called i f (gather known ext (requires c)) o]) ∧
  rounds_le i (tr ++ pre ++ [Called i f (gather known ext (requires c)) o]).
Proof.
  intros Htr Hle Hext Hc Hpre.
  assert (trace_ok known d (tr ++ pre) ∧ rounds_le i (tr ++ pre)) as [Htr' Hle'].
  { destruct Hpre as [->|(a & k & ->)]; [by rewrite app_nil_r|].
    split; [by apply trace_ok_snoc | by apply rounds_le_snoc]. }
  rewrite app_assoc. split.
  - apply trace_ok_snoc; [done|]. split.
    + intros c' req v Hc' Hin Hk. rewrite Hc in Hc'. injection Hc' as <-.
      by apply gather_known.
    + intros req v Hg. apply gather_source in Hg as [_ [Hk|He]]; [by left|].
      right. destruct (Hext req v He) as (j & i' & f' & a' & r' & Hj & Hr).
      exists j, i', f', a', r'. split_and!; [by apply lookup_app_l_Some| |done].
      eauto.
  - apply rounds_le_snoc; [done|]. by intros ? ? ? ? [= <- _ _ _].
Qed.

Lemma visit_trace defs d known i f st tr o tr' :
  trace_ok known d tr → rounds_le i tr →
  ext_in_trace (all_extracted_features st) tr →
  visit defs d known i f st tr = (o, tr') →
  trace_ok known d tr' ∧ rounds_le i tr' ∧
  (∀ st', o = Ok st' → ext_in_trace (all_extracted_features st') tr').
Proof.
  intros Htr Hle Hext. unfold visit.
  destruct (dict_get f d) as [c|] eqn:Hc; [|by intros [= <- <-]].
  destruct (intersects _ _).
  { intros [= <- <-]. split_and!; [done..|]. by intros st' [= <-]. }
  unfold bind.
  destruct (invoke_cases defs i f
              (gather known (all_extracted_features st) (requires c)) tr)
    as [[_ ->]|(self & pre & _ & Hpre & _ & ->)].
  { by intros [= <- <-]. }
  destruct (trace_ok_call known d i tr pre f c (all_extracted_features st)
              (wrapped_f self [] (gather known (all_extracted_features st)
                                    (requires c)) tr).1 Htr Hle Hext Hc)
    as [Htr' Hle'].
  { destruct Hpre as [-> | ->]; [by left | right; eauto]. }
  destruct (wrapped_f self [] _ tr).1 as [res| |] eqn:Hres;
    intros [= <- <-]; (split_and!; [done..|]); [|done..].
  intros st' [= <-]. simpl. unfold merge_items.
  intros req v Hv. apply lookup_union_Some_raw in Hv as [Hv|[_ Hv]].
  - eexists (length (tr ++ pre)), i, f, _, res. split; [|done].
    rewrite app_assoc. rewrite lookup_app_r by lia.
    by rewrite Nat.sub_diag.
  - by apply (ext_in_trace_app _ _ _ Hext).
Qed.

Lemma for_funcnames_trace defs d known i n : ∀ idx st tr o tr',
  trace_ok known d tr → rounds_le i tr →
  ext_in_trace (all_extracted_features st) tr →
  for_funcnames n defs d known i idx st tr = (o, tr') →
  trace_ok known d tr' ∧ rounds_le i tr' ∧
  (∀ st', o = Ok st' → ext_in_trace (all_extracted_features st') tr').
Proof.
  induction n as [|n IH]; intros idx st tr o tr' Htr Hle Hext; simpl.
  - destruct (funcnames st !! idx); intros [= <- <-]; split_and!; try done.
    by intros ? [= <-].
  - destruct (funcnames st !! idx) as [f|].
    2:{ intros [= <- <-]. split_and!; [done..|]. by intros ? [= <-]. }
    unfold bind. destruct (visit defs d known i f st tr) as [o1 tr1] eqn:Hv.
    destruct (visit_trace _ _ _ _ _ _ _ _ _ Htr Hle Hext Hv) as (H1 & H2 & H3).
    destruct o1 as [st1| |]; [|intros [= <- <-]; by split_and!..].
    intros Hrest. eapply IH; [done..| |exact Hrest]. by apply H3.
Qed.

Lemma while_funcnames_trace defs d known fuel : ∀ i st tr o tr',
  trace_ok known d tr → rounds_le i tr →
  ext_in_trace (all_extracted_features st) tr →
  while_funcnames fuel defs d known i st tr = (o, tr') →
  trace_ok known d tr'.
Proof.
  induction fuel as [|fuel IH]; intros i st tr o tr' Htr Hle Hext; simpl.
  - destruct (funcnames st); by intros [= <- <-].
  - destruct (funcnames st) as [|f0 fs] eqn:Hfs; [by intros [= <- <-]|].
    unfold bind.
    destruct (for_funcnames _ defs d known i 0 (start_round i st) tr)
      as [o1 tr1] eqn:Hf.
    destruct (for_funcnames_trace defs d known i _ 0 (start_round i st) tr
                o1 tr1 Htr Hle Hext Hf) as (H1 & H2 & H3).
    destruct o1 as [st1| |]; [|by intros [= <- <-]..].
    intros Hrest. eapply (IH (S i)); [done| |by apply H3|exact Hrest].
    eapply rounds_le_mono; [|done]. lia.
Qed.

Lemma for_each_state {S A} (l : list A) (body : A → M S unit) (s : S) :
  (∀ x s', (body x s').2 = s') → (for_each l body s).2 = s.
Proof.
  intros Hb. induction l as [|x l IH]; simpl; [done|].
  unfold bind. specialize (Hb x s). destruct (body x s) as [[| |] s1]; simpl in *;
    subst; done.
Qed.

Lemma check_provided_state copy P tr : (check_provided copy P tr).2 = tr.
Proof.
  apply for_each_state. intros x s'. by destruct (bool_decide _).
Qed.

Lemma schedule_trace_ok fuel defs R P d known o tr :
  schedule fuel defs R P d known [] = (o, tr) → trace_ok known d tr.
Proof.
  unfold schedule, bind.
  pose proof (check_provided_state
    (filter (λ x, ¬ is_Some (known !! x)) R) P []) as Hc.
  destruct (check_provided _ P []) as [[[]| |] tr0]; simpl in Hc; subst tr0;
    [|intros [= <- <-]; by intros k ev Hk..].
  apply (while_funcnames_trace _ _ _ _ 0).
  - by intros k ev Hk.
  - by intros k i' f a r Hk.
  - intros req v Hv. simpl in Hv. by rewrite lookup_empty in Hv.
Qed.

(** C10.  In a run of the scheduler, a name a function requires that is
    among the features already known is passed to the function with its
    known value, whether or not a function called before has returned a
    feature of that name: the known features shadow the extracted ones. *)
Theorem known_features_shadow_extracted (fuel : nat) (defs : module)
    (R P : list string) (d : dict contract) (known : features)
    (o : outcome sched) (tr : trace) (k i : nat) (f : string)
    (arguments : features) (result : outcome features) (c : contract)
    (req : string) (v : value) :
  schedule fuel defs R P d known [] = (o, tr) →
  tr !! k = Some (Called i f arguments result) →
  dict_get f d = Some c →
  req ∈ requires c →
  known !! req = Some v →
  arguments !! req = Some v.
Proof.
  intros Hrun Hk Hc Hin Hv.
  apply schedule_trace_ok in Hrun. destruct (Hrun _ _ Hk) as [Hshadow _].
  eauto.
Qed.

(** A run in which [f1] returns a feature named [m] before [f2], which
    requires [m], is called: [f2] gets the known [m]. *)
Lemma known_features_shadow_extracted_witness :
  ∃ arguments result,
    shadow_run.2 !! 3 = Some (Called 1 "f2" arguments result) ∧
    shadow_run.2 !! 1
      = Some (Called 0 "f1" {["t" := VList [VNum 1; VNum 2]]}
                (Ok {["m" := VNum 99]})) ∧
    arguments !! "m" = Some (VList [VNum 5; VNum 6]).
Proof.
  eexists _, _. split; [vm_compute; reflexivity|].
  split; [vm_compute; reflexivity|].
  eapply (known_features_shadow_extracted 5 shadow_defs ["t"; "m"] ["m"; "y"]
            shadow_contracts known_t_m shadow_run.1 shadow_run.2 3 1 "f2" _ _
            (Contract ["m"] ["y"]) "m").
  - apply surjective_pairing.
  - vm_compute. reflexivity.
  - reflexivity.
  - apply list_elem_of_here.
  - vm_compute. reflexivity.
Defined.

(** C4, as amended.  In a run of the scheduler every value passed to a
    function is the known value of that name or was returned by a call
    logged before this one, in the same round or in a round before; no
    value comes from a call made later. *)
Theorem arguments_from_known_or_earlier_calls (fuel : nat) (defs : module)
    (R P : list string) (d : dict contract) (known : features)
    (o : outcome sched) (tr : trace) (k i : nat) (f : string)
    (arguments : features) (result : outcome features) (req : string)
    (v : value) :
  schedule fuel defs R P d known [] = (o, tr) →
  tr !! k = Some (Called i f arguments result) →
  arguments !! req = Some v →
  known !! req = Some v ∨
  ∃ j i' f' a' r',
    j < k ∧ tr !! j = Some (Called i' f' a' (Ok r')) ∧ i' ≤ i ∧
    r' !! req = Some v.
Proof.
  intros Hrun Hk Hv.
  apply schedule_trace_ok in Hrun. destruct (Hrun _ _ Hk) as [_ Hsrc].
  destruct (Hsrc _ _ Hv) as [?|(j & i' & f' & a' & r' & Hj & Hle & Hr)];
    [by left|right].
  apply lookup_take_Some in Hj as [Hj Hlt]. eauto 10.
Qed.

Lemma arguments_from_known_or_earlier_calls_witness :
  ∃ j i' f' a' r',
    j < 3 ∧
    three_run.2 !! j = Some (Called i' f' a' (Ok r')) ∧
    i' ≤ 0 ∧ r' !! "x" = Some (VNum 1).
Proof.
  destruct (arguments_from_known_or_earlier_calls 5 three_defs ["m"; "x"]
              ["x"; "z"; "y"] three_contracts known_m three_run.1 three_run.2
              3 0 "f2" {["x" := VNum 1]} (Ok {["y" := VNum 3]}) "x" (VNum 1))
    as [Hknown|Hearlier].
  - apply surjective_pairing.
  - vm_compute. reflexivity.
  - vm_compute. reflexivity.
  - vm_compute in Hknown. discriminate Hknown.
  - exact Hearlier.
Defined.

(** The property as the specification words it fails: with [f1], [g] and
    [f2] declared in this order, [f1] runs in round 0, [g] is passed over
    because the list shrank under the iterator, and [f2] runs in the same
    round 0 on the value [f1] has just returned. *)
Lemma round_order_invariant_fails :
  three_run.2 !! 1
    = Some (Called 0 "f1" known_m (Ok {["x" := VNum 1]})) ∧
  three_run.2 !! 3
    = Some (Called 0 "f2" {["x" := VNum 1]} (Ok {["y" := VNum 3]})) ∧
  ¬ round_order_invariant known_m
      three_run.2.
Proof.
  split; [vm_compute; reflexivity|]. split; [vm_compute; reflexivity|].
  intros H.
  destruct (H 3 0 "f2" {["x" := VNum 1]} (Ok {["y" := VNum 3]}) "x" (VNum 1))
    as [Hknown|(j & i' & f' & a' & r' & _ & Hlt & _)].
  - vm_compute. reflexivity.
  - vm_compute. reflexivity.
  - vm_compute in Hknown. discriminate Hknown.
  - lia.
Qed.

(* ===================================================================== *)
(** ** The scheduler: termination on acyclic contracts *)
(* ===================================================================== *)

Lemma called_app (a b : trace) : called (a ++ b) = called a ++ called b.
Proof.
  induction a as [|[]]; simpl; [done| |]; by rewrite IHa.
Qed.

Lemma keys_dict_get {V} (f : string) (d : dict V) :
  f ∈ keys d → is_Some (dict_get f d).
Proof.
  induction d as [|[k v] d IH]; simpl; [by intros ?%elem_of_nil|].
  intros Hin. destruct (decide (f = k)); [eauto|].
  apply elem_of_cons in Hin as [?|?]; [done | by apply IH].
Qed.

Lemma dict_get_keys {V} (f : string) (d : dict V) (v : V) :
  dict_get f d = Some v → f ∈ keys d.
Proof.
  induction d as [|[k v'] d IH]; simpl; [done|].
  destruct (decide (f = k)) as [->|]; [intros _; apply list_elem_of_here|].
  intros H. apply list_elem_of_further. by apply IH.
Qed.

Lemma intersects_false (xs ys : list string) :
  intersects xs ys = false ↔ ∀ x, x ∈ xs → x ∉ ys.
Proof.
  unfold intersects. induction xs as [|x xs IH]; simpl.
  - split; [intros _ x Hx; by apply elem_of_nil in Hx | done].
  - rewrite orb_false_iff, IH, bool_decide_eq_false. split.
    + intros [Hx Hxs] y Hy. apply elem_of_cons in Hy as [->|Hy]; auto.
    + intros H. split; [apply H, list_elem_of_here|].
      intros y Hy. apply H. by apply list_elem_of_further.
Qed.

Lemma remove_first_perm (f : string) (l : list string) :
  f ∈ l → l ≡ₚ f :: remove_first f l.
Proof.
  induction l as [|y l IH]; [by intros ?%elem_of_nil|].
  intros Hin. simpl. destruct (decide (f = y)) as [->|Hne]; [done|].
  apply elem_of_cons in Hin as [?|Hin]; [done|].
  rewrite (IH Hin) at 1. apply Permutation_swap.
Qed.

Lemma remove_first_length (f : string) (l : list string) :
  f ∈ l → S (length (remove_first f l)) = length l.
Proof.
  intros Hin. by rewrite (Permutation_length (remove_first_perm f l Hin)).
Qed.

Lemma check_provided_ok (copy P : list string) (tr : trace) :
  (∀ x, x ∈ copy → x ∈ P) → check_provided copy P tr = (Ok tt, tr).
Proof.
  unfold check_provided. induction copy as [|x copy IH]; simpl; [done|].
  intros H. unfold bind at 1.
  rewrite bool_decide_eq_true_2 by apply H, list_elem_of_here. simpl.
  apply IH. intros y Hy. apply H. by apply list_elem_of_further.
Qed.

Lemma exists_min_rank (rank : string → nat) (l : list string) :
  l ≠ [] → ∃ f, f ∈ l ∧ ∀ g, g ∈ l → rank f ≤ rank g.
Proof.
  induction l as [|x l IH]; [done|]. intros _.
  destruct l as [|y l].
  - exists x. split; [apply list_elem_of_here|].
    intros g Hg. apply list_elem_of_singleton in Hg as ->. lia.
  - destruct IH as (f & Hf & Hmin); [done|].
    destruct (decide (rank x ≤ rank f)).
    + exists x. split; [apply list_elem_of_here|].
      intros g Hg. apply elem_of_cons in Hg as [->|Hg]; [lia|].
      specialize (Hmin g Hg). lia.
    + exists f. split; [by apply list_elem_of_further|].
      intros g Hg. apply elem_of_cons in Hg as [->|Hg]; [lia | by apply Hmin].
Qed.

Section Liveness.
Context (defs : module) (R : list string) (d : dict contract)
        (known : features).
Hypothesis Hdefs : honours_contracts defs d.
Hypothesis Hreq : collects_requires R d.
Hypothesis Hprov : obtainable R d known.
Hypothesis Hacyc : acyclic d known.

Lemma visit_live i f st tr :
  live_inv R d known st tr → f ∈ funcnames st →
  ∃ c st' tr',
    dict_get f d = Some c ∧
    visit defs d known i f st tr = (Ok st', tr') ∧
    live_inv R d known st' tr' ∧
    if intersects (all_required_params_copy st) (requires c)
    then funcnames st' = funcnames st ∧
         all_required_params_copy st' = all_required_params_copy st
    else funcnames st' = remove_first f (funcnames st).
Proof.
  intros (J1 & J2 & J4) Hf.
  assert (f ∈ keys d) as Hk.
  { rewrite <- J1. apply elem_of_app. by right. }
  destruct (keys_dict_get f d Hk) as [c Hc].
  exists c. unfold visit. rewrite Hc.
  destruct (intersects _ _) eqn:Hi.
  { eexists _, _. split; [done|]. split; [done|].
    split; [exact (conj J1 (conj J2 J4)) | done]. }
  destruct (Hdefs f c Hc) as (self & Hself & Hr & Hp & Hbody).
  set (arguments := gather known (all_extracted_features st) (requires c)).
  assert (∀ r, r ∈ requires c → is_Some (arguments !! r)) as Hargs.
  { intros r Hr'. unfold arguments. rewrite gather_lookup, decide_True by done.
    destruct (known !! r) as [v|] eqn:Hkr.
    - exists v. by apply lookup_union_Some_l.
    - destruct (J4 r) as [v Hv]; [by eapply Hreq|done| |].
      + intros Hin. rewrite intersects_false in Hi. by apply (Hi r).
      + exists v. rewrite lookup_union_r; done. }
  destruct (Hbody arguments Hargs) as (res & Hres & Hprovided).
  assert (wrapped_f self [] arguments tr
          = (Ok res, tr ++ [Body [] arguments])) as Hw.
  { rewrite wrapped_f_cases.
    assert (List.find (missing [] arguments) (dec_requires self) = None) as ->.
    { apply find_none_forall. intros x Hx. rewrite Hr in Hx.
      unfold missing, in_dict. simpl.
      by rewrite bool_decide_eq_true_2 by by apply Hargs. }
    rewrite Hres.
    assert (List.find (λ p, negb (in_dict p res)) (dec_provides self) = None)
      as ->; [|done].
    apply find_none_forall. intros x Hx. rewrite Hp in Hx. unfold in_dict.
    by rewrite bool_decide_eq_true_2 by by apply Hprovided. }
  unfold bind, invoke. rewrite Hself, Hw. unfold ret.
  eexists _, _. split_and!; [done..| |done].
  split_and!; simpl.
  - rewrite !called_app. simpl. rewrite app_nil_r, <- app_assoc. simpl.
    rewrite <- J1. apply Permutation_app_head.
    symmetry. by apply remove_first_perm.
  - intros x Hx. apply list_elem_of_filter in Hx as [Hxp Hx].
    destruct (J2 x Hx) as (H1 & H2 & H3). split_and!; [done..|].
    intros g c' Hg Hc'. rewrite !called_app in Hg. simpl in Hg.
    rewrite app_nil_r in Hg. apply elem_of_app in Hg as [Hg|Hg]; [eauto|].
    apply list_elem_of_singleton in Hg as ->. congruence.
  - intros x HxR Hxk Hx. unfold merge_items.
    destruct (decide (x ∈ provides c)) as [Hin|Hnin].
    + destruct (Hprovided x Hin) as [v Hv]. exists v.
      by apply lookup_union_Some_l.
    + destruct (J4 x HxR Hxk) as [v Hv].
      { intros Hin. apply Hx. by apply list_elem_of_filter. }
      apply lookup_union_is_Some. right. eauto.
Qed.

Lemma for_funcnames_live i n : ∀ idx st tr,
  live_inv R d known st tr →
  length (funcnames st) ≤ n + idx →
  ∃ st' tr',
    for_funcnames n defs d known i idx st tr = (Ok st', tr') ∧
    live_inv R d known st' tr' ∧
    length (funcnames st') ≤ length (funcnames st) ∧
    ((∃ p f c, idx ≤ p ∧ funcnames st !! p = Some f ∧
        dict_get f d = Some c ∧
        intersects (all_required_params_copy st) (requires c) = false) →
     length (funcnames st') < length (funcnames st)).
Proof.
  induction n as [|n IH]; intros idx st tr Hinv Hlen.
  - simpl. rewrite lookup_ge_None_2 by lia.
    eexists _, _. split_and!; [done..|].
    intros (p & f & c & Hp & Hl & _). apply lookup_lt_Some in Hl. lia.
  - simpl. destruct (funcnames st !! idx) as [f|] eqn:Hidx.
    2:{ eexists _, _. split_and!; [done..|].
        intros (p & f & c & Hp & Hl & _).
        apply lookup_ge_None in Hidx. apply lookup_lt_Some in Hl. lia. }
    assert (f ∈ funcnames st) as Hf by by eapply list_elem_of_lookup_2.
    destruct (visit_live i f st tr Hinv Hf)
      as (c & st1 & tr1 & Hc & Hv & Hinv1 & Hcase).
    unfold bind. rewrite Hv.
    destruct (intersects _ _) eqn:Hi.
    + destruct Hcase as [Hfn Hcopy].
      destruct (IH (S idx) st1 tr1 Hinv1) as (st' & tr' & Hrun & Hinv' & Hle & Hlt).
      { rewrite Hfn. lia. }
      exists st', tr'. rewrite Hfn, Hcopy in *. split_and!; [done..|].
      intros (p & g & c' & Hp & Hl & Hc' & Hi'). apply Hlt.
      exists p, g, c'. split_and!; [|done..].
      destruct (decide (p = idx)) as [->|]; [|lia].
      rewrite Hidx in Hl. injection Hl as <-. congruence.
    + pose proof (remove_first_length f _ Hf) as Hrl.
      destruct (IH (S idx) st1 tr1 Hinv1) as (st' & tr' & Hrun & Hinv' & Hle & _).
      { rewrite Hcase. lia. }
      exists st', tr'. rewrite Hcase in Hle. split_and!; [done..|lia|lia].
Qed.

Lemma round_progress st tr :
  live_inv R d known st tr → funcnames st ≠ [] →
  ∃ p f c, 0 ≤ p ∧ funcnames st !! p = Some f ∧ dict_get f d = Some c ∧
    intersects (all_required_params_copy st) (requires c) = false.
Proof.
  intros (J1 & J2 & J4) Hne. destruct Hacyc as [rank Hrank].
  destruct (exists_min_rank rank _ Hne) as (f & Hf & Hmin).
  apply list_elem_of_lookup in Hf as Hp. destruct Hp as [p Hp].
  assert (f ∈ keys d) as Hk.
  { rewrite <- J1. apply elem_of_app. by right. }
  destruct (keys_dict_get f d Hk) as [c Hc].
  exists p, f, c. split_and!; [lia|done..|].
  apply intersects_false. intros x Hx Hxr.
  destruct (J2 x Hx) as (HxR & Hxk & Hnot).
  destruct (Hprov x HxR Hxk) as (g & c' & Hc' & Hxp).
  assert (g ∈ called tr ++ funcnames st) as Hg.
  { rewrite J1. by eapply dict_get_keys. }
  apply elem_of_app in Hg as [Hg|Hg].
  - by apply (Hnot g c' Hg Hc').
  - specialize (Hrank f c g c' x Hc Hc' Hxr Hxk Hxp).
    specialize (Hmin g Hg). lia.
Qed.

Lemma while_funcnames_live fuel : ∀ i st tr,
  live_inv R d known st tr →
  length (funcnames st) ≤ fuel →
  ∃ st' tr',
    while_funcnames fuel defs d known i st tr = (Ok st', tr') ∧
    live_inv R d known st' tr' ∧ funcnames st' = [].
Proof.
  induction fuel as [|fuel IH]; intros i st tr Hinv Hlen.
  - simpl. destruct (funcnames st) eqn:Hfs; [|simpl in Hlen; lia].
    by eexists _, _.
  - simpl. destruct (funcnames st) as [|f0 fs] eqn:Hfs; [by eexists _, _|].
    destruct (for_funcnames_live i (length (f0 :: fs)) 0 (start_round i st) tr)
      as (st1 & tr1 & Hrun & Hinv1 & _ & Hlt).
    { done. }
    { simpl. rewrite Hfs. simpl. lia. }
    unfold bind. rewrite Hrun.
    apply IH; [done|].
    assert (length (funcnames st1) < length (funcnames (start_round i st)))
      as Hlt'.
    { apply Hlt.
      destruct (round_progress st tr Hinv) as (p & f & c & ? & ? & ? & ?);
        [by rewrite Hfs|].
      exists p, f, c. by split_and!. }
    simpl in Hlt'. rewrite Hfs in Hlt'. simpl in *. lia.
Qed.

Lemma schedule_live fuel P :
  (∀ x, x ∈ R → known !! x = None → x ∈ P) →
  length d ≤ fuel →
  ∃ st tr,
    schedule fuel defs R P d known [] = (Ok st, tr) ∧
    funcnames st = [] ∧ called tr ≡ₚ keys d.
Proof.
  intros HP Hfuel. unfold schedule, bind.
  rewrite check_provided_ok.
  2:{ intros x Hx. apply list_elem_of_filter in Hx as [Hx1 Hx2].
      apply HP; [done|]. by apply eq_None_not_Some. }
  destruct (while_funcnames_live fuel 0
              (initial_sched (filter (λ x, ¬ is_Some (known !! x)) R) d) [])
    as (st & tr & Hrun & (J1 & _) & Hnil).
  - split_and!; simpl.
    + done.
    + intros x Hx. apply list_elem_of_filter in Hx as [Hx1 Hx2].
      split_and!; [done|by apply eq_None_not_Some|].
      by intros g c Hg%elem_of_nil.
    + intros x HxR Hxk Hx. exfalso. apply Hx. apply list_elem_of_filter.
      split; [|done]. rewrite Hxk. by intros [? ?].
  - simpl. unfold keys. by rewrite length_fmap.
  - exists st, tr. split_and!; [done..|].
    rewrite Hnil, app_nil_r in J1. done.
Qed.
End Liveness.

(** The batching entry point passes the required names in the place of
    the provided ones; on such contracts the run goes the same way. *)
Lemma scheduler_terminates_on_required_as_provided (fuel : nat)
    (defs : module) (R : list string) (d : dict contract) (known : features) :
  honours_contracts defs d → collects_requires R d → obtainable R d known →
  acyclic d known → length d ≤ fuel →
  ∃ st tr,
    schedule fuel defs R R d known [] = (Ok st, tr) ∧
    funcnames st = [] ∧ called tr ≡ₚ keys d.
Proof.
  intros Hdefs Hreq Hprov Hacyc Hfuel.
  by apply schedule_live.
Qed.

Lemma three_contracts_honoured : honours_contracts three_defs three_contracts.
Proof.
  intros f c H. unfold three_contracts in H. dict_cases H.
  - eexists. split; [reflexivity|]. split_and!; [done..|].
    intros kwargs _. eexists. split; [reflexivity|].
    intros p Hp. elem_cases Hp. by eexists.
  - eexists. split; [reflexivity|]. split_and!; [done..|].
    intros kwargs _. eexists. split; [reflexivity|].
    intros p Hp. elem_cases Hp. by eexists.
  - eexists. split; [reflexivity|]. split_and!; [done..|].
    intros kwargs _. eexists. split; [reflexivity|].
    intros p Hp. elem_cases Hp. by eexists.
Defined.


(* ===================================================================== *)
(** ** The scheduler: the pass over the function names ends *)
(* ===================================================================== *)

Lemma visit_funcnames (defs : module) (d : dict contract) (known : features)
    (i : nat) (f : string) (st st' : sched) (tr tr' : trace) :
  visit defs d known i f st tr = (Ok st', tr') →
  funcnames st' = funcnames st ∨
  funcnames st' = remove_first f (funcnames st).
Proof.
  unfold visit. destruct (dict_get f d) as [c|]; [|done].
  destruct (intersects _ _); [intros [= <- _]; by left|].
  unfold bind. destruct (invoke _ _ _ _ _) as [[res| |] tr1]; [|done..].
  intros [= <- _]. by right.
Qed.

Lemma visit_returns (defs : module) (d : dict contract) (known : features)
    (i : nat) (f : string) (st : sched) (tr : trace) :
  bodies_return defs → (visit defs d known i f st tr).1 ≠ OutOfFuel.
Proof.
  intros Hb. unfold visit. destruct (dict_get f d) as [c|]; [|done].
  destruct (intersects _ _); [done|].
  unfold bind, invoke.
  destruct (defs !! f) as [self|] eqn:Hdef; [|done].
  rewrite wrapped_f_cases.
  destruct (List.find _ (dec_requires self)); [done|].
  specialize (Hb f self (gather known (all_extracted_features st) (requires c))
                Hdef).
  destruct (dec_f self [] _) as [res| |]; [|done..].
  by destruct (List.find _ (dec_provides self)).
Qed.

(** One pass over [funcnames] visits at most as many names as the list
    holds when the pass starts: the bound given to the loop is never what
    stops it. *)
Lemma for_funcnames_returns (defs : module) (d : dict contract)
    (known : features) (i n : nat) :
  bodies_return defs →
  ∀ idx st tr,
    length (funcnames st) ≤ n + idx →
    (for_funcnames n defs d known i idx st tr).1 ≠ OutOfFuel.
Proof.
  intros Hb. induction n as [|n IH]; intros idx st tr Hlen; simpl.
  - by rewrite lookup_ge_None_2 by lia.
  - destruct (funcnames st !! idx) as [f|] eqn:Hidx; [|done].
    unfold bind.
    pose proof (visit_returns defs d known i f st tr Hb) as Hv.
    destruct (visit defs d known i f st tr) as [[st1| |] tr1] eqn:Hvis;
      [|done..].
    apply IH.
    destruct (visit_funcnames _ _ _ _ _ _ _ _ _ Hvis) as [-> | ->]; [lia|].
    assert (f ∈ funcnames st) as Hf by by eapply list_elem_of_lookup_2.
    pose proof (remove_first_length f _ Hf). lia.
Qed.

(* ===================================================================== *)
(** ** The scheduler: rounds in which nothing can run *)
(* ===================================================================== *)

Lemma for_funcnames_stuck defs d known i copy fs fr ext tr n :
  stuck d copy fs →
  ∀ idx q, length fs ≤ n + idx →
    ∃ q', for_funcnames n defs d known i idx (Sched copy q fs fr ext) tr
          = (Ok (Sched copy q' fs fr ext), tr).
Proof.
  intros Hstuck. induction n as [|n IH]; intros idx q Hlen; simpl.
  - rewrite lookup_ge_None_2 by lia. by exists q.
  - destruct (fs !! idx) as [f|] eqn:Hidx; [|by exists q].
    destruct (Hstuck f) as (c & Hc & Hi); [by eapply list_elem_of_lookup_2|].
    unfold bind, visit. simpl. rewrite Hc, Hi. unfold ret.
    apply IH. lia.
Qed.

Lemma while_funcnames_S fuel defs d known i st :
  while_funcnames (S fuel) defs d known i st =
  match funcnames st with
  | [] => ret st
  | _ :: _ =>
      do st' <- for_funcnames (length (funcnames st)) defs d known i 0
                  (start_round i st);
      while_funcnames fuel defs d known (S i) st'
  end.
Proof. reflexivity. Qed.

(** When no function left can run, the loop goes round without calling
    anything, for as many rounds as it is given. *)
Lemma while_funcnames_stuck defs d known copy fs ext tr :
  stuck d copy fs → fs ≠ [] →
  ∀ fuel i q fr,
    while_funcnames fuel defs d known i (Sched copy q fs fr ext) tr
    = (OutOfFuel, tr).
Proof.
  intros Hstuck Hne.
  assert (∀ (A : Type) (x y : A),
            match fs with [] => x | _ :: _ => y end = y) as Hmatch.
  { intros A x y. by destruct fs. }
  induction fuel as [|fuel IH]; intros i q fr.
  - simpl. by rewrite Hmatch.
  - rewrite while_funcnames_S. cbn [funcnames]. rewrite Hmatch.
    unfold bind, start_round. cbn [funcnames all_required_params_copy
      func_queue func_rounds all_extracted_features].
    destruct (for_funcnames_stuck defs d known i copy fs (<[i:=[]]> fr) ext tr
                (length fs) Hstuck 0 q) as [q' ->]; [lia|].
    apply IH.
Qed.

Lemma check_provided_fails (copy P : list string) (tr : trace) (x : string) :
  x ∈ copy → x ∉ P →
  ∃ y, y ∈ copy ∧ (y ∉ P) ∧
    check_provided copy P tr = (Raise (NotAllRequiredProvided y), tr).
Proof.
  unfold check_provided. induction copy as [|z copy IH]; simpl.
  { by intros ?%elem_of_nil. }
  intros Hx HxP. unfold bind at 1.
  destruct (decide (z ∈ P)) as [Hz|Hz].
  - rewrite bool_decide_eq_true_2 by done. simpl.
    apply elem_of_cons in Hx as [->|Hx]; [done|].
    destruct (IH Hx HxP) as (y & Hy & HyP & Hrun).
    exists y. split_and!; [by apply list_elem_of_further|done..].
  - rewrite bool_decide_eq_false_2 by done. simpl.
    exists z. split_and!; [apply list_elem_of_here|done..].
Qed.

(** With the provided names in their place, a required name that is
    neither known nor provided stops the scheduler before any call. *)
Lemma schedule_unsatisfiable (fuel : nat) (defs : module) (R P : list string)
    (d : dict contract) (known : features) (tr : trace) (x : string) :
  x ∈ R → known !! x = None → x ∉ P →
  ∃ y, y ∈ R ∧ known !! y = None ∧ (y ∉ P) ∧
    schedule fuel defs R P d known tr
    = (Raise (NotAllRequiredProvided y), tr).
Proof.
  intros HxR Hxk HxP. unfold schedule, bind.
  destruct (check_provided_fails (filter (λ x, ¬ is_Some (known !! x)) R) P tr x)
    as (y & Hy & HyP & ->); [|done|].
  - apply list_elem_of_filter. split; [|done]. rewrite Hxk. by intros [? ?].
  - apply list_elem_of_filter in Hy as [Hy1 Hy2].
    exists y. split_and!; [done| |done..]. by apply eq_None_not_Some.
Qed.

(** With the required names passed in the place of the provided ones, the
    check before the rounds never fails. *)
Lemma check_provided_required_twice (R : list string) (known : features)
    (tr : trace) :
  check_provided (filter (λ x, ¬ is_Some (known !! x)) R) R tr = (Ok tt, tr).
Proof.
  apply check_provided_ok. by intros x [_ ?]%list_elem_of_filter.
Qed.

(** C2 (the code does not do this).  On two functions that each require
    what only the other provides, with neither name known, the scheduler
    raises no error about the cycle: however many rounds it is given, it
    is still going round at the end of them, having called nothing. *)
Theorem cycle_is_not_reported (fuel : nat) :
  call_custom_functions fuel cycle_defs [∅] ["b"; "a"] ["a"; "b"]
    cycle_contracts [] = (OutOfFuel, []).
Proof.
  unfold call_custom_functions, schedule, bind.
  replace (filter (λ x, ¬ is_Some ((∅ : features) !! x)) ["b"; "a"])
    with ["b"; "a"] by (vm_compute; reflexivity).
  rewrite check_provided_ok.
  2:{ intros x Hx. apply (bool_decide_unpack _).
      repeat (apply elem_of_cons in Hx as [->|Hx]); [done..|].
      by apply elem_of_nil in Hx. }
  unfold initial_sched. rewrite while_funcnames_stuck; [done| |done].
  intros f Hf. simpl in Hf.
  repeat (apply elem_of_cons in Hf as [->|Hf]).
  - by exists (Contract ["b"] ["a"]).
  - by exists (Contract ["a"] ["b"]).
  - by apply elem_of_nil in Hf.
Qed.

Lemma unsat_script_parsed :
  parse_for_req_prov_params ref_pylib unsat_script
  = Ok (ScriptContracts unsat_contracts ["m"; "x"] ["z"; "y"]).
Proof. vm_compute. reflexivity. Qed.

(** C1 (the code does not do this on the batching entry point).  The
    script requires [x], which is neither known nor provided.  Called with
    the provided names in their place, the scheduler raises its error for
    [x] before any call.  Through [execute_functions_in_order], which
    passes the required names a second time instead, no error is raised:
    the function [g] is called and the rounds then go on without end. *)
Theorem unsatisfiable_not_reported_by_entry_point (fuel : nat) :
  call_custom_functions fuel unsat_defs [known_m] ["m"; "x"] ["z"; "y"]
    unsat_contracts []
  = (Raise (NotAllRequiredProvided "x"), []) ∧
  execute_functions_in_order (S fuel) ref_pylib unsat_defs unsat_script
    (OneDict known_m) []
  = (OutOfFuel,
     [Body [] known_m; Called 0 "g" known_m (Ok {["z" := VNum 2]})]).
Proof.
  split.
  - unfold call_custom_functions, bind.
    destruct (schedule_unsatisfiable fuel unsat_defs ["m"; "x"] ["z"; "y"]
                unsat_contracts known_m [] "x")
      as (y & Hy & Hyk & _ & ->).
    + apply (bool_decide_unpack _). vm_compute. exact I.
    + vm_compute. reflexivity.
    + apply (bool_decide_unpack _). vm_compute. exact I.
    + repeat (apply elem_of_cons in Hy as [->|Hy]).
      * vm_compute in Hyk. discriminate Hyk.
      * done.
      * by apply elem_of_nil in Hy.
  - unfold execute_functions_in_order, bind, lift.
    rewrite unsat_script_parsed. simpl listify_feats_known_dict. cbv iota beta.
    unfold call_custom_functions, bind, schedule, bind.
    simpl all_required_params. simpl fnames_req_prov_dict.
    rewrite check_provided_required_twice.
    replace (filter (λ x, ¬ is_Some (known_m !! x)) ["m"; "x"])
      with ["x"] by (vm_compute; reflexivity).
    change (while_funcnames (S fuel) unsat_defs unsat_contracts known_m 0
              (initial_sched ["x"] unsat_contracts) [])
      with (bind (for_funcnames 2 unsat_defs unsat_contracts known_m 0 0
                    (start_round 0 (initial_sched ["x"] unsat_contracts)))
                 (λ st', while_funcnames fuel unsat_defs unsat_contracts
                           known_m 1 st') []).
    unfold bind.
    replace (for_funcnames 2 unsat_defs unsat_contracts known_m 0 0
               (start_round 0 (initial_sched ["x"] unsat_contracts)) [])
      with (Ok (Sched ["x"] [] ["f"] (<[0 := ["g"]]> ∅) {["z" := VNum 2]}),
            [Body [] known_m; Called 0 "g" known_m (Ok {["z" := VNum 2]})])
      by (vm_compute; reflexivity).
    rewrite while_funcnames_stuck; [done| |done].
    intros f Hf. apply list_elem_of_singleton in Hf as ->.
    by exists (Contract ["x"] ["y"]).
Qed.

(* ===================================================================== *)
(** ** The Docker orchestration *)
(* ===================================================================== *)


(** The statements under [try] never make a container without recording
    its identifier, and assign the result variable last. *)
Lemma launch_and_retrieve_frame (env : environment) (dir : string) (h : host) :
  ∃ o h' fr,
    launch_and_retrieve env dir (h, Frame false None None) = (o, (h', fr)) ∧
    match cont_id fr with
    | None => containers h' = containers h
    | Some id =>
        client fr = true ∧ create_container env = inr id ∧
        containers h' = {[id]} ∪ containers h
    end ∧
    match o with
    | Ok _ => ∃ r, results_list_of_dict fr = Some r ∧ load_results env = inr r
    | _ => results_list_of_dict fr = None
    end.
Proof.
  unfold launch_and_retrieve, bind, step, answer, modify, raise, ret, on_host.
  destruct (new_client env); [by eexists _, _, _|].
  destruct (create_container env) as [e|id] eqn:Hc; [by eexists _, _, _|].
  destruct (start env); [by eexists _, _, _|].
  destruct (wait env); [by eexists _, _, _|].
  destruct (logs_stdout env); [by eexists _, _, _|].
  destruct (logs_stderr env); [by eexists _, _, _|].
  destruct (docker_copy env); [by eexists _, _, _|].
  destruct (load_results env) as [e|r] eqn:Hr; [by eexists _, _, _|].
  eexists _, _, _. split; [reflexivity|]. simpl. split; [done|]. eauto.
Qed.

(** What [extract_feats_in_docker_container] gives, by what the statements
    under [try] gave: their exception is never the one that reaches the
    caller, and a result is returned only when they all went well. *)
Lemma extract_feats_after_launch (env : environment) (name dir : string)
    (h : host) (o : outcome unit) (h1 : host) (fr : frame) :
  import_docker env = None →
  launch_and_retrieve env dir (h, Frame false None None) = (o, (h1, fr)) →
  extract_feats_in_docker_container env name dir h =
  match o with
  | OutOfFuel => (OutOfFuel, h1)
  | _ =>
      if client fr then
        match cont_id fr with
        | None => (Raise (UnboundLocalError "cont_id"), h1)
        | Some id =>
            match remove_container env with
            | Some e => (Raise e, h1)
            | None =>
                (match results_list_of_dict fr with
                 | Some r => Ok r
                 | None => Raise (UnboundLocalError "results_list_of_dict")
                 end, del_container id h1)
            end
        end
      else (Raise (UnboundLocalError "client"), h1)
  end.
Proof.
  intros Himp Hl.
  unfold extract_feats_in_docker_container, bind, step, except_pass.
  rewrite Himp. unfold ret at 1. cbv beta. rewrite Hl.
  unfold remove_and_return, bind, get, step, modify, raise, ret, on_host.
  destruct o as [[]|e|]; simpl; [| |done].
  - destruct (client fr); [|done]. destruct (cont_id fr); [|done].
    destruct (remove_container env); [done|].
    by destruct (results_list_of_dict fr).
  - destruct (client fr); [|done]. destruct (cont_id fr); [|done].
    destruct (remove_container env); [done|].
    by destruct (results_list_of_dict fr).
Qed.

(** When a statement under [try] raises, the caller gets an exception all
    the same, but another one: the one raised under [finally]. *)
Lemma launch_failure_is_replaced (env : environment) (name dir : string)
    (h : host) (e : exn) (s : host * frame) :
  import_docker env = None →
  launch_and_retrieve env dir (h, Frame false None None) = (Raise e, s) →
  ∃ e' h',
    extract_feats_in_docker_container env name dir h = (Raise e', h') ∧
    (e' = UnboundLocalError "client" ∨ e' = UnboundLocalError "cont_id" ∨
     e' = UnboundLocalError "results_list_of_dict" ∨
     remove_container env = Some e').
Proof.
  intros Himp Hl. destruct s as [h1 fr].
  rewrite (extract_feats_after_launch env name dir h _ h1 fr Himp Hl).
  destruct (launch_and_retrieve_frame env dir h)
    as (o & h2 & fr2 & Hl2 & _ & Hres).
  rewrite Hl in Hl2. injection Hl2 as <- <- <-. simpl in Hres.
  destruct (client fr); [|eauto 10]. destruct (cont_id fr); [|eauto 10].
  destruct (remove_container env) eqn:Hrc; [eauto 10|].
  rewrite Hres. eauto 10.
Qed.





(** C7 (the code does not do this).  The working directory is made and
    filled before the [try] statement whose [finally] clause removes it.
    When the script to copy is not there, the copy raises, nothing is
    cleaned up, and the working directory of the call, which was not there
    before the call, is there after it. *)
Theorem staging_failure_leaves_directory :
  docker_extract_features sample_builtins good_env sample_cfg
    "/home/user/missing.py" (DictList [known_t_m]) None None sample_host
  = (Raise (IOError "/home/user/missing.py"),
     add_path (tmp_dir_of good_env sample_cfg) sample_host) ∧
  (tmp_dir_of good_env sample_cfg ∉ paths sample_host) ∧
  tmp_dir_of good_env sample_cfg
    ∈ paths (add_path (tmp_dir_of good_env sample_cfg) sample_host).
Proof.
  split_and!.
  - vm_compute. reflexivity.
  - apply (bool_decide_unpack _). vm_compute. exact I.
  - apply (bool_decide_unpack _). vm_compute. exact I.
Qed.

(** C6 (the code does not do this).  When starting the container fails,
    the working directory and the container are removed, but the error
    that reaches the caller is not the one raised by the start: that one
    is dropped under [except], and reading the result variable, which was
    never assigned, raises [UnboundLocalError] under [finally]. *)
Theorem launch_failure_is_not_reraised :
  start start_fails_env = Some (DockerError "APIError") ∧
  docker_extract_features sample_builtins start_fails_env sample_cfg
    "/home/user/feats.py" (DictList [known_t_m]) None None sample_host
  = (Raise (UnboundLocalError "results_list_of_dict"), sample_host).
Proof. split; [reflexivity|]. vm_compute. reflexivity. Qed.

(* ===================================================================== *)
(** ** The contract parser *)
(* ===================================================================== *)

Lemma parse_lines_app (py : pylib) (pre : list string) (line : string)
    (rest : list string) (acc : script_contracts) :
  parse_lines py (pre ++ line :: rest) acc =
  outcome_bind (parse_lines py (pre ++ [line]) acc)
    (parse_lines py (line :: rest)).
Proof.
  revert acc. induction pre as [|l0 pre IH]; intros acc.
  - simpl. by destruct rest.
  - destruct pre as [|l1 pre].
    + simpl. destruct (parse_step py l0 line acc); simpl; [|done..].
      by destruct rest.
    + change (parse_lines py ((l0 :: l1 :: pre) ++ line :: rest) acc)
        with (outcome_bind (parse_step py l0 l1 acc)
                (parse_lines py ((l1 :: pre) ++ line :: rest))).
      change (parse_lines py ((l0 :: l1 :: pre) ++ [line]) acc)
        with (outcome_bind (parse_step py l0 l1 acc)
                (parse_lines py ((l1 :: pre) ++ [line]))).
      destruct (parse_step py l0 l1 acc); simpl; [|done..]. apply IH.
Qed.

(** The property as the specification words it fails: an annotation with an
    unclosed list, followed by a declaration, makes the parser raise. *)
Lemma malformed_annotation_raises :
  contains "@myFeature" "@myFeature(requires=['m', provides=['x'])" = true ∧
  py_eval ref_pylib "['m'" = Raise SyntaxError ∧
  parse_for_req_prov_params ref_pylib malformed_script = Raise SyntaxError.
Proof. split_and!; vm_compute; reflexivity. Qed.

Lemma parse_lines_last (py : pylib) (pre : list string) (line : string)
    (acc : script_contracts) :
  contains "def " line = false →
  parse_lines py (pre ++ [line]) acc = parse_lines py pre acc.
Proof.
  intros Hdef. revert acc. induction pre as [|l0 pre IH]; intros acc; [done|].
  destruct pre as [|l1 pre].
  - simpl. unfold parse_step, annotated. by rewrite Hdef, andb_false_r.
  - change (parse_lines py ((l0 :: l1 :: pre) ++ [line]) acc)
      with (outcome_bind (parse_step py l0 l1 acc)
              (parse_lines py ((l1 :: pre) ++ [line]))).
    change (parse_lines py (l0 :: l1 :: pre) acc)
      with (outcome_bind (parse_step py l0 l1 acc)
              (parse_lines py (l1 :: pre))).
    destruct (parse_step py l0 l1 acc); simpl; [|done..]. apply IH.
Qed.

(** C8, as amended.  A line that is the last one, or whose next line holds
    no declaration, adds nothing and raises nothing as an annotation,
    marker or not: the script parses as the lines up to it, in which it
    is read only as the line after the one before, followed by the lines
    after it; and when the line itself holds no declaration, the lines up
    to it parse as the lines before it.  An annotation followed by a line
    with a declaration is not skipped when one of its two lists does not
    evaluate: if the lines before parsed, the parser raises what the
    evaluation of the list of required names raised or, when that one
    evaluates, what the evaluation of the list of provided names
    raised. *)
Theorem unfollowed_annotation_is_skipped (py : pylib) (pre : list string)
    (line : string) :
  (∀ rest,
     (∀ next, head rest = Some next → contains "def " next = false) →
     parse_for_req_prov_params py (pre ++ line :: rest) =
     outcome_bind (parse_for_req_prov_params py (pre ++ [line]))
       (parse_lines py rest)) ∧
  (contains "def " line = false →
   parse_for_req_prov_params py (pre ++ [line]) =
   parse_for_req_prov_params py pre) ∧
  (∀ next post acc rq pv e,
     parse_for_req_prov_params py (pre ++ [line]) = Ok acc →
     annotated line next = true →
     parse_myFeature py (strip line) = Some (rq, pv) →
     py_eval py rq = Raise e ∨
     (∃ reqs, py_eval py rq = Ok reqs ∧ py_eval py pv = Raise e) →
     parse_for_req_prov_params py (pre ++ line :: next :: post) = Raise e).
Proof.
  split_and!.
  - intros rest Hrest. unfold parse_for_req_prov_params.
    rewrite parse_lines_app.
    destruct (parse_lines py (pre ++ [line]) _) as [acc| |]; simpl; [|done..].
    destruct rest as [|next post]; [done|].
    change (parse_lines py (line :: next :: post) acc)
      with (outcome_bind (parse_step py line next acc)
              (parse_lines py (next :: post))).
    unfold parse_step, annotated.
    by rewrite (Hrest next eq_refl), andb_false_r.
  - intros Hdef. by apply parse_lines_last.
  - intros next post acc rq pv e Hpre Ha Hp He.
    unfold parse_for_req_prov_params in *.
    rewrite parse_lines_app, Hpre. simpl.
    change (parse_lines py (line :: next :: post) acc)
      with (outcome_bind (parse_step py line next acc)
              (parse_lines py (next :: post))).
    unfold parse_step. rewrite Ha, Hp. simpl.
    destruct He as [-> | (reqs & -> & ->)]; done.
Qed.

Lemma unfollowed_annotation_is_skipped_witness :
  parse_for_req_prov_params ref_pylib unfollowed_script
    = Ok (ScriptContracts [] [] []) ∧
  parse_for_req_prov_params ref_pylib marker_last_script
    = Ok (ScriptContracts [] [] []) ∧
  parse_for_req_prov_params ref_pylib malformed_script = Raise SyntaxError ∧
  parse_for_req_prov_params ref_pylib malformed_provides_script
    = Raise SyntaxError.
Proof.
  split_and!.
  - change unfollowed_script
      with ([] ++ "@myFeature(requires=['m'], provides=['x'])"
               :: ["x = 3"; "def f(m):"]).
    rewrite (proj1 (unfollowed_annotation_is_skipped ref_pylib []
                      "@myFeature(requires=['m'], provides=['x'])")
               ["x = 3"; "def f(m):"]).
    + vm_compute. reflexivity.
    + intros next [= <-]. vm_compute. reflexivity.
  - change marker_last_script
      with (["x = 3"] ++ ["@myFeature(requires=['m'], provides=['x'])"]).
    rewrite (proj1 (proj2 (unfollowed_annotation_is_skipped ref_pylib
                             ["x = 3"]
                             "@myFeature(requires=['m'], provides=['x'])")));
      vm_compute; reflexivity.
  - apply (proj2 (proj2 (unfollowed_annotation_is_skipped ref_pylib []
                           "@myFeature(requires=['m', provides=['x'])"))
             "def f(m):" ["    return {'x': 1}"] (ScriptContracts [] [] [])
             "['m'" "['x']" SyntaxError).
    + vm_compute. reflexivity.
    + vm_compute. reflexivity.
    + vm_compute. reflexivity.
    + left. vm_compute. reflexivity.
  - apply (proj2 (proj2 (unfollowed_annotation_is_skipped ref_pylib ["x = 3"]
                           "@myFeature(requires=['m'], provides=['x)"))
             "def f(m):" ["    return {'x': 1}"] (ScriptContracts [] [] [])
             "['m']" "['x" SyntaxError).
    + vm_compute. reflexivity.
    + vm_compute. reflexivity.
    + vm_compute. reflexivity.
    + right. exists ["m"]. split; vm_compute; reflexivity.
Defined.

(* ===================================================================== *)
(** ** The front end *)
(* ===================================================================== *)

(** C9 (the code does not do this).  For an instance without time and
    measurements and without any source of them, the call raises
    [ValueError] when at least one of the two lists of sources is given;
    when both are left out, only the list of paths is replaced by a list
    of [None], the other stays [None], and subscripting it raises
    [TypeError] instead. *)
Theorem no_source_at_all_raises_type_error (bi : builtins) :
  add_tsdata_to_feats_known_dict bi [∅] None None
    = Raise (TypeError "'NoneType' object is not subscriptable") ∧
  add_tsdata_to_feats_known_dict bi [∅] (Some [None]) (Some [VNone])
    = Raise (ValueError "No time series data provided!") ∧
  add_tsdata_to_feats_known_dict bi [∅] None (Some [VNone])
    = Raise (ValueError "No time series data provided!") ∧
  add_tsdata_to_feats_known_dict bi [∅] (Some [None]) None
    = Raise (ValueError "No time series data provided!").
Proof. split_and!; reflexivity. Qed.

(** With one source given, the time and the measurements are filled in. *)
Lemma two_columns_populate_t_and_m :
  add_tsdata_to_feats_known_dict sample_builtins [∅] None (Some [two_epochs])
  = Ok [<["m" := VList [VNum 10; VNum 11]]>
          {["t" := VList [VNum 1; VNum 2]]}].
Proof. vm_compute. reflexivity. Qed.

(* ===================================================================== *)
(** ** The scheduler: what every run keeps *)
(* ===================================================================== *)

(** The four ways the body of the loop over the names can go. *)
Lemma visit_cases (defs : module) (d : dict contract) (known : features)
    (i : nat) (f : string) (st : sched) (tr : trace) :
  (dict_get f d = None ∧
   visit defs d known i f st tr = (Raise (KeyError f), tr)) ∨
  (∃ c st', dict_get f d = Some c ∧
     intersects (all_required_params_copy st) (requires c) = true ∧
     visit defs d known i f st tr = (Ok st', tr) ∧
     all_required_params_copy st' = all_required_params_copy st ∧
     funcnames st' = funcnames st ∧
     all_extracted_features st' = all_extracted_features st) ∨
  (∃ c, dict_get f d = Some c ∧
     intersects (all_required_params_copy st) (requires c) = false ∧
     defs !! f = None ∧
     visit defs d known i f st tr = (Raise (AttributeError f), tr)) ∨
  (∃ c pre o1 o, dict_get f d = Some c ∧
     intersects (all_required_params_copy st) (requires c) = false ∧
     (pre = [] ∨
      pre = [Body [] (gather known (all_extracted_features st) (requires c))]) ∧
     (∃ self, defs !! f = Some self ∧
        o1 = (wrapped_f self []
                (gather known (all_extracted_features st) (requires c)) tr).1) ∧
     visit defs d known i f st tr =
       (o, tr ++ pre ++
             [Called i f (gather known (all_extracted_features st) (requires c))
                o1]) ∧
     match o1 with
     | Ok res =>
         ∃ st', o = Ok st' ∧
           all_required_params_copy st' =
             filter (λ x, x ∉ provides c) (all_required_params_copy st) ∧
           funcnames st' = remove_first f (funcnames st) ∧
           all_extracted_features st' =
             merge_items (all_extracted_features st) res
     | Raise e => o = Raise e
     | OutOfFuel => o = OutOfFuel
     end).
Proof.
  unfold visit. destruct (dict_get f d) as [c|] eqn:Hc; [|by left].
  right. destruct (intersects _ _) eqn:Hi.
  { left. eexists c, _. split_and!; [done|done|reflexivity|done|done|done]. }
  right. unfold bind.
  destruct (invoke_cases defs i f
              (gather known (all_extracted_features st) (requires c)) tr)
    as [[Hdef ->]|(self & pre & Hself & Hpre & _ & ->)].
  { left. by exists c. }
  right. exists c, pre.
  destruct (wrapped_f self [] _ tr).1 as [res| |] eqn:Hres.
  - eexists (Ok res), _. split_and!; [done..|by exists self|reflexivity|].
    eexists. split_and!; reflexivity.
  - eexists (Raise e), _. split_and!; [done..|by exists self|reflexivity|done].
  - eexists OutOfFuel, _. split_and!; [done..|by exists self|reflexivity|done].
Qed.

Lemma wrapped_f_ok_provides (self : decorated) (args : list value)
    (kwargs : features) (tr : trace) (res : features) :
  (wrapped_f self args kwargs tr).1 = Ok res →
  ∀ p, p ∈ dec_provides self → is_Some (res !! p).
Proof.
  rewrite wrapped_f_cases.
  destruct (List.find _ (dec_requires self)); [done|].
  destruct (dec_f self args kwargs) as [r| |]; [|done..].
  destruct (List.find _ (dec_provides self)) eqn:Hfind; [done|].
  intros [= <-] p Hp.
  pose proof (proj1 (find_none_forall _ _) Hfind p Hp) as Hn.
  apply negb_false_iff in Hn. by apply bool_decide_eq_true in Hn.
Qed.

Section Invariant.
Variables (defs : module) (d : dict contract) (known : features).
Variable Inv : sched → trace → Prop.
Variable Log : trace → Prop.
Hypothesis Inv_Log : ∀ st tr, Inv st tr → Log tr.
Hypothesis Inv_start : ∀ i st tr, Inv st tr → Inv (start_round i st) tr.
Hypothesis Inv_visit : ∀ i f st tr o tr',
  Inv st tr → f ∈ funcnames st →
  visit defs d known i f st tr = (o, tr') →
  Log tr' ∧ ∀ st', o = Ok st' → Inv st' tr'.

Lemma for_funcnames_inv (i n : nat) : ∀ idx st tr o tr',
  Inv st tr →
  for_funcnames n defs d known i idx st tr = (o, tr') →
  Log tr' ∧ ∀ st', o = Ok st' → Inv st' tr'.
Proof.
  induction n as [|n IH]; intros idx st tr o tr' HI; simpl.
  - destruct (funcnames st !! idx); intros [= <- <-];
      (split; [by eapply Inv_Log|]); [done|by intros ? [= <-]].
  - destruct (funcnames st !! idx) as [f|] eqn:Hidx.
    2:{ intros [= <- <-]. split; [by eapply Inv_Log|]. by intros ? [= <-]. }
    unfold bind. destruct (visit defs d known i f st tr) as [o1 tr1] eqn:Hv.
    destruct (Inv_visit i f st tr o1 tr1 HI) as [H1 H2];
      [by eapply list_elem_of_lookup_2|done|].
    destruct o1 as [st1| |]; [|intros [= <- <-]; by split..].
    intros Hrest. eapply IH; [|exact Hrest]. by apply H2.
Qed.

Lemma while_funcnames_inv (fuel : nat) : ∀ i st tr o tr',
  Inv st tr →
  while_funcnames fuel defs d known i st tr = (o, tr') →
  Log tr' ∧ ∀ st', o = Ok st' → Inv st' tr' ∧ funcnames st' = [].
Proof.
  induction fuel as [|fuel IH]; intros i st tr o tr' HI; simpl.
  - destruct (funcnames st) eqn:Hfs; intros [= <- <-];
      (split; [by eapply Inv_Log|]); [|done]. by intros ? [= <-].
  - destruct (funcnames st) as [|f0 fs] eqn:Hfs.
    { intros [= <- <-]. split; [by eapply Inv_Log|]. by intros ? [= <-]. }
    unfold bind.
    destruct (for_funcnames _ defs d known i 0 (start_round i st) tr)
      as [o1 tr1] eqn:Hf.
    destruct (for_funcnames_inv i _ 0 (start_round i st) tr o1 tr1
                (Inv_start i st tr HI) Hf) as [H1 H2].
    destruct o1 as [st1| |]; [|intros [= <- <-]; by split..].
    intros Hrest. eapply (IH (S i)); [|exact Hrest]. by apply H2.
Qed.

Lemma schedule_inv (fuel : nat) (R P : list string) (o : outcome sched)
    (tr : trace) :
  Inv (initial_sched (filter (λ x, ¬ is_Some (known !! x)) R) d) [] →
  schedule fuel defs R P d known [] = (o, tr) →
  Log tr ∧ ∀ st', o = Ok st' → Inv st' tr ∧ funcnames st' = [].
Proof.
  intros HI. unfold schedule, bind.
  pose proof (check_provided_state
    (filter (λ x, ¬ is_Some (known !! x)) R) P []) as Hc.
  destruct (check_provided _ P []) as [[[]| |] tr0]; simpl in Hc; subst tr0;
    [|intros [= <- <-]; (split; [by eapply Inv_Log|done])..].
  by apply while_funcnames_inv.
Qed.
End Invariant.

Lemma called_pre_call (tr pre : trace) (i : nat) (f : string)
    (a kw : features) (o : outcome features) :
  pre = [] ∨ pre = [Body [] kw] →
  called (tr ++ pre ++ [Called i f a o]) = called tr ++ [f].
Proof. intros [-> | ->]; by rewrite !called_app. Qed.

Lemma lookup_pre_call (tr pre : trace) (kw : features) (ev : event) (k : nat)
    (i : nat) (f : string) (a : features) (r : outcome features) :
  pre = [] ∨ pre = [Body [] kw] →
  (tr ++ pre ++ [ev]) !! k = Some (Called i f a r) →
  (k < length tr ∧ tr !! k = Some (Called i f a r)) ∨
  (k = length (tr ++ pre) ∧ ev = Called i f a r).
Proof.
  intros Hpre Hk. rewrite app_assoc in Hk.
  apply lookup_app_Some in Hk as [Hk|[Hge Hk]].
  - left. apply lookup_app_Some in Hk as [Hk|[Hge Hk]].
    + split; [by eapply lookup_lt_Some | done].
    + destruct Hpre as [-> | ->]; [done|].
      destruct (k - length tr) as [|n]; simpl in Hk; done.
  - right. destruct (k - length (tr ++ pre)) as [|n] eqn:E; simpl in Hk;
      [|done].
    injection Hk as ->. split; [lia|done].
Qed.

Lemma returned_app (a b : trace) :
  returned (a ++ b) =
  foldl (λ acc ev, match ev with
                   | Called _ _ _ (Ok result) => merge_items acc result
                   | _ => acc
                   end) (returned a) b.
Proof. unfold returned. by rewrite foldl_app. Qed.

Lemma returned_source (tr : trace) (name : string) (v : value) :
  returned tr !! name = Some v →
  ∃ j i f a r, tr !! j = Some (Called i f a (Ok r)) ∧ r !! name = Some v.
Proof.
  induction tr as [|ev tr IH] using rev_ind.
  - unfold returned. simpl. by rewrite lookup_empty.
  - rewrite returned_app. simpl.
    assert (returned tr !! name = Some v →
            ∃ j i f a r, (tr ++ [ev]) !! j = Some (Called i f a (Ok r)) ∧
              r !! name = Some v) as Hold.
    { intros H. destruct (IH H) as (j & i & f & a & r & Hj & Hr).
      exists j, i, f, a, r. split; [by apply lookup_app_l_Some | done]. }
    destruct ev as [|i f a [r| |]]; [done| |done..].
    unfold merge_items. intros Hv.
    apply lookup_union_Some_raw in Hv as [Hv|[_ Hv]]; [|by apply Hold].
    exists (length tr), i, f, a, r. split; [|done].
    by rewrite lookup_app_r, Nat.sub_diag by lia.
Qed.

(** In every run of the scheduler over contracts whose function names are
    distinct, whether the run returns, raises or is cut short, no function
    is called twice and only functions of the contracts are called; when
    the run returns, every function of the contracts has been called. *)
Theorem no_function_called_twice (fuel : nat) (defs : module)
    (R P : list string) (d : dict contract) (known : features)
    (o : outcome sched) (tr : trace) :
  NoDup (keys d) →
  schedule fuel defs R P d known [] = (o, tr) →
  NoDup (called tr) ∧
  (∀ f, f ∈ called tr → f ∈ keys d) ∧
  (∀ st, o = Ok st → called tr ≡ₚ keys d).
Proof.
  intros Hnd Hrun.
  destruct (schedule_inv defs d known
              (λ st tr, called tr ++ funcnames st ≡ₚ keys d)
              (λ tr, ∃ rest, called tr ++ rest ≡ₚ keys d)) with
    (fuel := fuel) (R := R) (P := P) (o := o) (tr := tr) as [[rest Hrest] Hok].
  - intros st t H. by exists (funcnames st).
  - done.
  - intros i f st t o' t' HI Hf Hv.
    destruct (visit_cases defs d known i f st t)
      as [[_ E]|[(c & st' & _ & _ & E & _ & Hfs & _)|[(c & _ & _ & _ & E)|
          (c & pre & o1 & o2 & _ & _ & Hpre & _ & E & Ho)]]];
      rewrite E in Hv; injection Hv as <- <-.
    + split; [by exists (funcnames st) | done].
    + split; [by exists (funcnames st)|]. intros ? [= <-]. by rewrite Hfs.
    + split; [by exists (funcnames st) | done].
    + rewrite (called_pre_call _ _ _ _ _ _ _ Hpre).
      assert (called t ++ [f] ++ remove_first f (funcnames st) ≡ₚ keys d)
        as Hperm.
      { rewrite <- HI. apply Permutation_app_head.
        symmetry. by apply remove_first_perm. }
      split.
      * exists (remove_first f (funcnames st)). by rewrite <- app_assoc.
      * intros st' ->. destruct o1 as [res| |]; [|done..].
        destruct Ho as (st'' & [= <-] & _ & -> & _). by rewrite <- app_assoc.
  - done.
  - exact Hrun.
  - assert (NoDup (called tr ++ rest)) as Hnd' by by rewrite Hrest.
    apply NoDup_app in Hnd' as (Hnd' & _ & _).
    split_and!; [done| |].
    + intros f Hf. rewrite <- Hrest. apply elem_of_app. by left.
    + intros st ->. destruct (Hok st eq_refl) as [HI Hnil].
      by rewrite Hnil, app_nil_r in HI.
Qed.

Lemma returned_pre_call (tr pre : trace) (kw : features) (i : nat) (f : string)
    (a res : features) :
  pre = [] ∨ pre = [Body [] kw] →
  returned (tr ++ pre ++ [Called i f a (Ok res)]) =
  merge_items (returned tr) res.
Proof. intros [-> | ->]; by rewrite !returned_app. Qed.

(** When a run returns, the extracted features are exactly what the logged
    calls returned, a later call winning over an earlier one on a shared
    name: every feature of the result was returned by some call, and a
    feature that was only known beforehand is not copied into the
    result. *)
Theorem result_is_what_calls_returned (fuel : nat) (defs : module)
    (R P : list string) (d : dict contract) (known : features)
    (st : sched) (tr : trace) :
  schedule fuel defs R P d known [] = (Ok st, tr) →
  all_extracted_features st = returned tr ∧
  ∀ name v, all_extracted_features st !! name = Some v →
    ∃ j i f a r, tr !! j = Some (Called i f a (Ok r)) ∧ r !! name = Some v.
Proof.
  intros Hrun.
  destruct (schedule_inv defs d known
              (λ st tr, all_extracted_features st = returned tr)
              (λ _, True)) with
    (fuel := fuel) (R := R) (P := P) (o := Ok st) (tr := tr) as [_ Hok].
  - done.
  - done.
  - intros i f s t o' t' HI Hf Hv. split; [done|]. intros st' ->.
    destruct (visit_cases defs d known i f s t)
      as [[_ E]|[(c & st'' & _ & _ & E & _ & _ & Hext)|[(c & _ & _ & _ & E)|
          (c & pre & o1 & o2 & _ & _ & Hpre & _ & E & Ho)]]];
      rewrite E in Hv; try discriminate Hv.
    + injection Hv as <- <-. by rewrite Hext.
    + injection Hv as -> <-. destruct o1 as [res| |]; [|done..].
      destruct Ho as (st'' & [= <-] & _ & _ & ->).
      by rewrite (returned_pre_call _ _ _ _ _ _ _ Hpre), HI.
  - done.
  - exact Hrun.
  - destruct (Hok st eq_refl) as [HI _]. split; [done|].
    intros name v Hv. rewrite HI in Hv. by apply returned_source.
Qed.

Lemma provided_so_far_app R d known copy tr tr' :
  provided_so_far R d known copy tr → provided_so_far R d known copy (tr ++ tr').
Proof.
  intros H x HR Hk Hx.
  destruct (H x HR Hk Hx) as (j & i & g & a & r & c & Hj & Hc & Hp).
  exists j, i, g, a, r, c. split_and!; [|done..]. by apply lookup_app_l_Some.
Qed.

Lemma deps_before_call R d known copy tr pre kw i f c a o :
  deps_before R d known tr → provided_so_far R d known copy tr →
  dict_get f d = Some c → intersects copy (requires c) = false →
  pre = [] ∨ pre = [Body [] kw] →
  deps_before R d known (tr ++ pre ++ [Called i f a o]).
Proof.
  intros Hdeps Hprov Hc Hi Hpre k i0 f0 a0 r0 c0 req Hk Hc0 Hreq HR Hkn.
  apply (lookup_pre_call _ _ _ _ _ _ _ _ _ Hpre) in Hk
    as [[Hlt Hk]|[-> [= -> -> -> ->]]].
  - destruct (Hdeps k i0 f0 a0 r0 c0 req Hk Hc0 Hreq HR Hkn)
      as (j & i' & g & a' & r' & c' & Hj & Hev & Hg & Hp).
    exists j, i', g, a', r', c'. split_and!; [done| |done..].
    by apply lookup_app_l_Some.
  - rewrite Hc in Hc0. injection Hc0 as <-.
    destruct (Hprov req HR Hkn) as (j & i' & g & a' & r' & c' & Hev & Hg & Hp).
    { intros Hin. by apply (proj1 (intersects_false _ _) Hi req Hin). }
    exists j, i', g, a', r', c'. split_and!; [|by apply lookup_app_l_Some|done..].
    apply lookup_lt_Some in Hev. rewrite length_app. lia.
Qed.

(** In every run, a function is called only after, for each name it
    requires that is not known beforehand, some function that declares to
    provide that name has been called and has returned. *)
Theorem providers_are_called_first (fuel : nat) (defs : module)
    (R P : list string) (d : dict contract) (known : features)
    (o : outcome sched) (tr : trace) :
  collects_requires R d →
  schedule fuel defs R P d known [] = (o, tr) →
  ∀ k i f a r c req,
    tr !! k = Some (Called i f a r) → dict_get f d = Some c →
    req ∈ requires c → known !! req = None →
    ∃ j i' g a' r' c', j < k ∧ tr !! j = Some (Called i' g a' (Ok r')) ∧
      dict_get g d = Some c' ∧ req ∈ provides c'.
Proof.
  intros Hreq Hrun.
  destruct (schedule_inv defs d known
              (λ st tr, provided_so_far R d known (all_required_params_copy st) tr
                        ∧ deps_before R d known tr)
              (deps_before R d known)) with
    (fuel := fuel) (R := R) (P := P) (o := o) (tr := tr) as [Hlog _].
  - by intros st t [_ H].
  - done.
  - intros i f st t o' t' [Hprov Hdeps] Hf Hv.
    destruct (visit_cases defs d known i f st t)
      as [[_ E]|[(c & st' & _ & _ & E & Hcopy & _ & _)|[(c & _ & _ & _ & E)|
          (c & pre & o1 & o2 & Hc & Hi & Hpre & _ & E & Ho)]]];
      rewrite E in Hv; injection Hv as <- <-.
    + done.
    + split; [done|]. intros ? [= <-]. by rewrite Hcopy.
    + done.
    + pose proof (deps_before_call R d known _ t pre _ i f c
                    (gather known (all_extracted_features st) (requires c)) o1
                    Hdeps Hprov Hc Hi Hpre) as Hdeps'.
      split; [done|]. intros st' ->. destruct o1 as [res| |]; [|done..].
      destruct Ho as (st'' & [= <-] & -> & _ & _). split; [|done].
      intros x HR Hkn Hx.
      destruct (decide (x ∈ all_required_params_copy st)) as [Hin|Hout].
      * assert (x ∈ provides c) as Hp.
        { destruct (decide (x ∈ provides c)) as [|Hn]; [done|].
          exfalso. apply Hx. by apply list_elem_of_filter. }
        eexists (length (t ++ pre)), i, f, _, res, c. split_and!; [|done..].
        rewrite app_assoc. by rewrite lookup_app_r, Nat.sub_diag by lia.
      * by apply (provided_so_far_app _ _ _ _ _ _ Hprov).
  - split.
    + intros x HR Hkn Hx. exfalso. apply Hx. apply list_elem_of_filter.
      split; [|done]. rewrite Hkn. by intros [? ?].
    + by intros k i f a r c req Hk.
  - exact Hrun.
  - intros k i f a r c req Hk Hc Hin Hkn.
    apply (Hlog k i f a r c req Hk Hc Hin); [|done]. by apply (Hreq f c).
Qed.

(** When the functions of the module are decorated with at least the
    names the contracts say they provide, the result of a run that returns
    holds a value for every name some function of the contracts
    provides. *)
Theorem declared_features_are_in_result (fuel : nat) (defs : module)
    (R P : list string) (d : dict contract) (known : features)
    (st : sched) (tr : trace) :
  (∀ f c self, dict_get f d = Some c → defs !! f = Some self →
     ∀ p, p ∈ provides c → p ∈ dec_provides self) →
  schedule fuel defs R P d known [] = (Ok st, tr) →
  ∀ f c p, dict_get f d = Some c → p ∈ provides c →
    is_Some (all_extracted_features st !! p).
Proof.
  intros Hdec Hrun.
  destruct (schedule_inv defs d known
              (λ st tr, called tr ++ funcnames st ≡ₚ keys d ∧
                 ∀ f c p, f ∈ called tr → dict_get f d = Some c →
                   p ∈ provides c → is_Some (all_extracted_features st !! p))
              (λ _, True)) with
    (fuel := fuel) (R := R) (P := P) (o := Ok st) (tr := tr) as [_ Hok].
  - done.
  - done.
  - intros i f s t o' t' [Hperm HI] Hf Hv. split; [done|]. intros st' ->.
    destruct (visit_cases defs d known i f s t)
      as [[_ E]|[(c & st'' & _ & _ & E & _ & Hfs & Hext)|[(c & _ & _ & _ & E)|
          (c & pre & o1 & o2 & Hc & _ & Hpre & (self & Hself & Ho1) & E & Ho)]]];
      rewrite E in Hv; try discriminate Hv.
    + injection Hv as <- <-. by rewrite Hfs, Hext.
    + injection Hv as -> <-. destruct o1 as [res| |]; [|done..].
      destruct Ho as (st'' & [= <-] & _ & -> & ->).
      rewrite (called_pre_call _ _ _ _ _ _ _ Hpre). split.
      * rewrite <- Hperm, <- app_assoc. apply Permutation_app_head.
        symmetry. by apply remove_first_perm.
      * intros g c' p Hg Hc' Hp. unfold merge_items.
        apply elem_of_app in Hg as [Hg|Hg%list_elem_of_singleton].
        -- destruct (HI g c' p Hg Hc' Hp) as [v Hv].
           destruct (res !! p) as [w|] eqn:Hres.
           ++ exists w. by apply lookup_union_Some_l.
           ++ exists v. by rewrite lookup_union_r.
        -- subst g. rewrite Hc in Hc'. injection Hc' as <-.
           destruct (wrapped_f_ok_provides self [] _ t res (eq_sym Ho1) p)
             as [w Hw]; [by eapply Hdec|].
           exists w. by apply lookup_union_Some_l.
  - split; [done|]. by intros f c p Hf%elem_of_nil.
  - exact Hrun.
  - intros f c p Hc Hp. destruct (Hok st eq_refl) as [[Hperm HI] Hnil].
    apply (HI f c p); [|done..].
    rewrite Hnil, app_nil_r in Hperm. rewrite Hperm. by eapply dict_get_keys.
Qed.

Lemma intersects_true (xs ys : list string) (x : string) :
  x ∈ xs → x ∈ ys → intersects xs ys = true.
Proof.
  intros Hx Hy. destruct (intersects xs ys) eqn:E; [done|].
  by destruct (proj1 (intersects_false xs ys) E x Hx).
Qed.

(** When a required name is neither known for the first instance nor
    among the provided names, [call_custom_functions] raises its error for
    such a name with the log as it was: no function has been called, for
    that instance or for any later one. *)
Theorem missing_provider_is_reported_before_any_call (fuel : nat)
    (defs : module) (known : features) (rest : list features)
    (R P : list string) (d : dict contract) (tr : trace) (x : string) :
  x ∈ R → known !! x = None → x ∉ P →
  ∃ y, y ∈ R ∧ known !! y = None ∧ (y ∉ P) ∧
    call_custom_functions fuel defs (known :: rest) R P d tr
    = (Raise (NotAllRequiredProvided y), tr).
Proof.
  intros HR Hk HP.
  destruct (schedule_unsatisfiable fuel defs R P d known tr x HR Hk HP)
    as (y & Hy1 & Hy2 & Hy3 & Hrun).
  exists y. split_and!; [done..|]. simpl. unfold bind. by rewrite Hrun.
Qed.

(** When every required name is known or provided, so that the check
    before the rounds passes, but each function of the contracts requires
    some name that is still to be extracted, no function is ever eligible:
    whatever the number of rounds allowed, the loop is still going, and
    nothing has been called or raised. *)
Theorem no_eligible_function_loops_forever (fuel : nat) (defs : module)
    (R P : list string) (d : dict contract) (known : features) (tr : trace) :
  d ≠ [] →
  (∀ x, x ∈ R → known !! x = None → x ∈ P) →
  (∀ f c, dict_get f d = Some c →
     ∃ x, x ∈ requires c ∧ x ∈ R ∧ known !! x = None) →
  schedule fuel defs R P d known tr = (OutOfFuel, tr).
Proof.
  intros Hne HP Hblocked. unfold schedule, bind.
  rewrite check_provided_ok.
  2:{ intros x Hx. apply list_elem_of_filter in Hx as [Hx1 Hx2].
      apply HP; [done|]. by apply eq_None_not_Some. }
  apply while_funcnames_stuck.
  - intros f Hf. destruct (keys_dict_get f d Hf) as [c Hc].
    exists c. split; [done|].
    destruct (Hblocked f c Hc) as (x & Hx & HR & Hk).
    apply (intersects_true _ _ x); [|done].
    apply list_elem_of_filter. split; [|done]. rewrite Hk. by intros [? ?].
  - unfold keys. by destruct d.
Qed.

(* ===================================================================== *)
(** ** The scheduler: one instance after the other *)
(* ===================================================================== *)

Lemma appends_ret {A} (a : A) : appends (ret a).
Proof. intros tr. unfold ret. simpl. by rewrite app_nil_r. Qed.

Lemma appends_raise {A} (e : exn) : appends (@raise trace A e).
Proof. intros tr. unfold raise. simpl. by rewrite app_nil_r. Qed.

Lemma appends_diverge {A} : appends (@diverge trace A).
Proof. intros tr. unfold diverge. simpl. by rewrite app_nil_r. Qed.

Lemma appends_bind {A B} (c : M trace A) (k : A → M trace B) :
  appends c → (∀ a, appends (k a)) → appends (bind c k).
Proof.
  intros Hc Hk tr. unfold bind. rewrite (Hc tr).
  destruct (c []) as [[a| |] t1]; simpl; [|done..].
  rewrite (Hk a (tr ++ t1)), (Hk a t1). simpl. by rewrite app_assoc.
Qed.

Lemma appends_wrapped_f (self : decorated) (args : list value)
    (kwargs : features) : appends (wrapped_f self args kwargs).
Proof.
  intros tr. rewrite !wrapped_f_cases.
  destruct (List.find _ (dec_requires self)); [by rewrite app_nil_r|].
  destruct (dec_f self args kwargs) as [r| |]; [|done..].
  by destruct (List.find _ (dec_provides self)).
Qed.

Lemma appends_invoke (defs : module) (i : nat) (f : string) (args : features) :
  appends (invoke defs i f args).
Proof.
  intros tr. unfold invoke. destruct (defs !! f) as [self|].
  - rewrite (appends_wrapped_f self [] args tr).
    destruct (wrapped_f self [] args []) as [o t1]. simpl.
    by rewrite app_assoc.
  - apply appends_raise.
Qed.

Lemma appends_visit defs d known i f st : appends (visit defs d known i f st).
Proof.
  unfold visit. destruct (dict_get f d) as [c|]; [|apply appends_raise].
  destruct (intersects _ _); [apply appends_ret|].
  apply appends_bind; [apply appends_invoke|]. intros a. apply appends_ret.
Qed.

Lemma appends_for_funcnames defs d known i n : ∀ idx st,
  appends (for_funcnames n defs d known i idx st).
Proof.
  induction n as [|n IH]; intros idx st; simpl.
  - destruct (funcnames st !! idx); [apply appends_diverge|apply appends_ret].
  - destruct (funcnames st !! idx); [|apply appends_ret].
    apply appends_bind; [apply appends_visit|]. intros st'. apply IH.
Qed.

Lemma appends_while_funcnames defs d known fuel : ∀ i st,
  appends (while_funcnames fuel defs d known i st).
Proof.
  induction fuel as [|fuel IH]; intros i st; simpl.
  - destruct (funcnames st); [apply appends_ret|apply appends_diverge].
  - destruct (funcnames st); [apply appends_ret|].
    apply appends_bind; [apply appends_for_funcnames|]. intros st'. apply IH.
Qed.

Lemma appends_check_provided copy P : appends (check_provided copy P).
Proof.
  unfold check_provided. induction copy as [|x copy IH]; simpl.
  - apply appends_ret.
  - apply appends_bind; [|by intros _].
    destruct (bool_decide _); [apply appends_ret|apply appends_raise].
Qed.

Lemma appends_schedule fuel defs R P d known :
  appends (schedule fuel defs R P d known).
Proof.
  unfold schedule. apply appends_bind; [apply appends_check_provided|].
  intros _. apply appends_while_funcnames.
Qed.

(** The instances of a batch are processed independently: when the batch
    returns, it returns one result per instance, in order, and each is the
    result of the scheduler run on that instance alone from an empty
    log. *)
Theorem instances_are_processed_independently (fuel : nat) (defs : module)
    (ks : list features) (R P : list string) (d : dict contract)
    (tr tr' : trace) (results : list features) :
  call_custom_functions fuel defs ks R P d tr = (Ok results, tr') →
  Forall2 (λ known result,
             ∃ st t, schedule fuel defs R P d known [] = (Ok st, t) ∧
               result = all_extracted_features st) ks results.
Proof.
  revert tr tr' results. induction ks as [|known ks IH];
    intros tr tr' results; simpl.
  - intros [= <- _]. constructor.
  - unfold bind at 1. rewrite (appends_schedule fuel defs R P d known tr).
    destruct (schedule fuel defs R P d known []) as [[st| |] t] eqn:Hs;
      simpl; [|done..].
    unfold bind.
    destruct (call_custom_functions fuel defs ks R P d (tr ++ t))
      as [[rs| |] t1] eqn:Hrest; [|done..].
    intros [= <- _]. constructor; [by exists st, t|]. by eapply IH.
Qed.

(* ===================================================================== *)
(** ** The contract parser: what it gives *)
(* ===================================================================== *)

Lemma keys_dict_set {V} (k : string) (v : V) (d : dict V) :
  NoDup (keys d) → NoDup (keys (dict_set k v d)) ∧
  ∀ f, f ∈ keys (dict_set k v d) ↔ f = k ∨ f ∈ keys d.
Proof.
  induction d as [|[k' v'] d IH]; simpl.
  - intros _. split; [apply NoDup_singleton|].
    intros f. rewrite list_elem_of_singleton, elem_of_nil. tauto.
  - intros [Hk' Hnd]%NoDup_cons. destruct (IH Hnd) as [IH1 IH2].
    destruct (decide (k = k')) as [->|Hne]; simpl.
    + split; [by apply NoDup_cons|]. intros f. rewrite elem_of_cons. tauto.
    + split.
      * apply NoDup_cons. split; [|done]. rewrite IH2. intros [?|?]; congruence.
      * intros f. rewrite !elem_of_cons, IH2. tauto.
Qed.

Lemma dict_get_set {V} (f k : string) (v : V) (d : dict V) :
  dict_get f (dict_set k v d) = if decide (f = k) then Some v else dict_get f d.
Proof.
  induction d as [|[k' v'] d IH]; simpl.
  - by destruct (decide (f = k)).
  - destruct (decide (k = k')) as [->|Hne]; simpl.
    + by destruct (decide (f = k')).
    + rewrite IH. destruct (decide (f = k')) as [->|]; [|done].
      by destruct (decide (k' = k)) as [->|].
Qed.

Lemma elem_of_set_union_list (xs ys : list string) (x : string) :
  x ∈ set_union_list xs ys ↔ x ∈ xs ∨ x ∈ ys.
Proof.
  unfold set_union_list.
  by rewrite elem_of_remove_dups, elem_of_app, elem_of_remove_dups.
Qed.

Lemma parse_step_well_formed (py : pylib) (line next : string)
    (acc sc : script_contracts) :
  well_formed acc → parse_step py line next acc = Ok sc → well_formed sc.
Proof.
  intros (Hnd & Hreq & Hprov & HR & HP). unfold parse_step.
  destruct (annotated line next); [|by intros [= <-]].
  destruct (named (parse_myFeature py (strip line))) as [rp| |]; [|done..].
  simpl. destruct (py_eval py rp.1) as [reqs| |]; [|done..].
  simpl. destruct (py_eval py rp.2) as [provs| |]; [|done..].
  simpl. destruct (named (parse_def py (strip next))) as [fn| |]; [|done..].
  simpl. intros [= <-]. unfold well_formed. simpl.
  split_and!.
  - by apply keys_dict_set.
  - intros f c r Hc Hr. rewrite dict_get_set in Hc.
    apply elem_of_set_union_list.
    destruct (decide (f = fn.1)); [injection Hc as <-; by right|].
    left. by apply (Hreq f c).
  - intros f c r Hc Hr. rewrite dict_get_set in Hc.
    apply elem_of_set_union_list.
    destruct (decide (f = fn.1)); [injection Hc as <-; by right|].
    left. by apply (Hprov f c).
  - apply NoDup_remove_dups.
  - apply NoDup_remove_dups.
Qed.

Lemma parse_lines_well_formed (py : pylib) (all_lines : list string) :
  ∀ acc sc, well_formed acc → parse_lines py all_lines acc = Ok sc →
    well_formed sc.
Proof.
  induction all_lines as [|line rest IH]; intros acc sc Hwf; simpl.
  - by intros [= <-].
  - destruct rest as [|next rest]; [by intros [= <-]|].
    destruct (parse_step py line next acc) as [acc'| |] eqn:Hstep; [|done..].
    simpl. apply IH. by eapply parse_step_well_formed.
Qed.

Lemma parse_well_formed (py : pylib) (script : list string)
    (sc : script_contracts) :
  parse_for_req_prov_params py script = Ok sc → well_formed sc.
Proof.
  apply parse_lines_well_formed. unfold well_formed. simpl.
  split_and!; try apply NoDup_nil_2; by intros ? ? ? ?.
Qed.

(** Whatever the script, what the parser returns is well formed: no
    function name is recorded twice, every name a recorded function
    requires is in the list of required names and every name it provides
    in the list of provided names, and neither list repeats a name. *)
Theorem parsed_contracts_are_well_formed (py : pylib) (script : list string)
    (sc : script_contracts) :
  parse_for_req_prov_params py script = Ok sc →
  NoDup (keys (fnames_req_prov_dict sc)) ∧
  (∀ f c, dict_get f (fnames_req_prov_dict sc) = Some c →
     (∀ r, r ∈ requires c → r ∈ all_required_params sc) ∧
     (∀ p, p ∈ provides c → p ∈ all_provided_params sc)) ∧
  NoDup (all_required_params sc) ∧ NoDup (all_provided_params sc).
Proof.
  intros (Hnd & Hreq & Hprov & HR & HP)%parse_well_formed.
  split_and!; [done| |done..].
  intros f c Hc. split; [intros r; by apply (Hreq f c) |
                         intros p; by apply (Hprov f c)].
Qed.

Lemma parse_lines_no_marker (py : pylib) (all_lines : list string)
    (acc : script_contracts) :
  (∀ l, l ∈ all_lines → contains "@myFeature" l = false) →
  parse_lines py all_lines acc = Ok acc.
Proof.
  induction all_lines as [|line rest IH]; intros H; simpl; [done|].
  destruct rest as [|next rest]; [done|].
  unfold parse_step, annotated.
  rewrite (H line) by apply list_elem_of_here. simpl.
  apply IH. intros l Hl. apply H. by apply list_elem_of_further.
Qed.

(** On a script in which no line holds the marker of an annotation, the
    batching entry point calls nothing and returns one empty dictionary
    per instance, whatever the module holds and whatever the number of
    rounds allowed. *)
Theorem script_without_annotations_extracts_nothing (fuel : nat) (py : pylib)
    (defs : module) (script : list string) (ks : list features) (tr : trace) :
  (∀ l, l ∈ script → contains "@myFeature" l = false) →
  execute_functions_in_order fuel py defs script (DictList ks) tr
  = (Ok (replicate (length ks) ∅), tr).
Proof.
  intros H. unfold execute_functions_in_order, bind, lift.
  unfold parse_for_req_prov_params. rewrite parse_lines_no_marker by done.
  simpl. induction ks as [|known ks IH]; simpl; [done|].
  unfold bind at 1. unfold schedule. simpl. unfold bind at 1. simpl.
  destruct fuel; simpl; unfold bind; by rewrite IH.
Qed.

(** The parser and the scheduler together: for a script that parses, whose
    functions honour the parsed contracts, with every required name known
    or provided by some function and no cycle among them, the batching
    entry point returns one result, having called every function of the
    script exactly once. *)
Theorem entry_point_runs_parsed_script (fuel : nat) (py : pylib)
    (defs : module) (script : list string) (known : features)
    (sc : script_contracts) :
  parse_for_req_prov_params py script = Ok sc →
  honours_contracts defs (fnames_req_prov_dict sc) →
  obtainable (all_required_params sc) (fnames_req_prov_dict sc) known →
  acyclic (fnames_req_prov_dict sc) known →
  length (fnames_req_prov_dict sc) ≤ fuel →
  ∃ result tr,
    execute_functions_in_order fuel py defs script (OneDict known) []
    = (Ok [result], tr) ∧
    called tr ≡ₚ keys (fnames_req_prov_dict sc) ∧ NoDup (called tr).
Proof.
  intros Hparse Hdefs Hobt Hacyc Hfuel.
  destruct (parse_well_formed py script sc Hparse) as (Hnd & Hreq & _).
  destruct (schedule_live defs (all_required_params sc)
              (fnames_req_prov_dict sc) known Hdefs Hreq Hobt Hacyc fuel
              (all_required_params sc)) as (st & tr & Hrun & _ & Hperm);
    [done..|].
  exists (all_extracted_features st), tr.
  unfold execute_functions_in_order, bind, lift. rewrite Hparse. simpl.
  unfold bind. rewrite Hrun. split_and!; [done..|]. by rewrite Hperm.
Qed.


Lemma no_function_called_twice_witness :
  NoDup (called three_run.2) ∧
  (∀ f, f ∈ called three_run.2 → f ∈ keys three_contracts) ∧
  (∀ st, three_run.1 = Ok st → called three_run.2 ≡ₚ keys three_contracts).
Proof.
  apply (no_function_called_twice 5 three_defs ["m"; "x"] ["x"; "z"; "y"]
           three_contracts known_m three_run.1 three_run.2).
  - apply (bool_decide_unpack _). vm_compute. exact I.
  - apply surjective_pairing.
Defined.

Lemma result_is_what_calls_returned_witness :
  all_extracted_features three_final = returned three_run.2 ∧
  ∀ name v, all_extracted_features three_final !! name = Some v →
    ∃ j i f a r, three_run.2 !! j = Some (Called i f a (Ok r)) ∧
      r !! name = Some v.
Proof.
  apply (result_is_what_calls_returned 5 three_defs ["m"; "x"] ["x"; "z"; "y"]
           three_contracts known_m three_final three_run.2).
  vm_compute. reflexivity.
Defined.

Lemma providers_are_called_first_witness :
  ∃ j i' g a' r' c', j < 3 ∧
    three_run.2 !! j = Some (Called i' g a' (Ok r')) ∧
    dict_get g three_contracts = Some c' ∧ "x" ∈ provides c'.
Proof.
  apply (providers_are_called_first 5 three_defs ["m"; "x"] ["x"; "z"; "y"]
           three_contracts known_m three_run.1 three_run.2) with
    (i := 0) (f := "f2") (a := {["x" := VNum 1]}) (r := Ok {["y" := VNum 3]})
    (c := Contract ["x"] ["y"]).
  - intros f c r H Hr. unfold three_contracts in H. dict_cases H;
      simpl in Hr; elem_cases Hr;
      apply (bool_decide_unpack _); vm_compute; exact I.
  - apply surjective_pairing.
  - vm_compute. reflexivity.
  - reflexivity.
  - apply list_elem_of_here.
  - vm_compute. reflexivity.
Defined.

Lemma declared_features_are_in_result_witness :
  is_Some (all_extracted_features three_final !! "y").
Proof.
  apply (declared_features_are_in_result 5 three_defs ["m"; "x"]
           ["x"; "z"; "y"] three_contracts known_m three_final three_run.2)
    with (f := "f2") (c := Contract ["x"] ["y"]).
  - intros f c self Hc Hself p Hp.
    destruct (three_contracts_honoured f c Hc) as (self' & Hself' & _ & E & _).
    rewrite Hself in Hself'. injection Hself' as <-. by rewrite E.
  - vm_compute. reflexivity.
  - reflexivity.
  - apply list_elem_of_here.
Defined.

Lemma missing_provider_is_reported_before_any_call_witness :
  ∃ y, y ∈ ["m"; "x"] ∧ known_m !! y = None ∧ (y ∉ ["z"; "y"]) ∧
    call_custom_functions 5 unsat_defs [known_m; known_m'] ["m"; "x"]
      ["z"; "y"] unsat_contracts []
    = (Raise (NotAllRequiredProvided y), []).
Proof.
  apply (missing_provider_is_reported_before_any_call 5 unsat_defs known_m
           [known_m'] ["m"; "x"] ["z"; "y"] unsat_contracts [] "x").
  - apply (bool_decide_unpack _). vm_compute. exact I.
  - vm_compute. reflexivity.
  - apply (bool_decide_unpack _). vm_compute. exact I.
Defined.

Lemma no_eligible_function_loops_forever_witness :
  schedule 100 cycle_defs ["b"; "a"] ["a"; "b"] cycle_contracts ∅ []
  = (OutOfFuel, []).
Proof.
  apply (no_eligible_function_loops_forever 100 cycle_defs ["b"; "a"]
           ["a"; "b"] cycle_contracts ∅ []).
  - discriminate.
  - intros x Hx _. elem_cases Hx;
      apply (bool_decide_unpack _); vm_compute; exact I.
  - intros f c H. unfold cycle_contracts in H. dict_cases H.
    + exists "b". split_and!; [apply list_elem_of_here| |reflexivity].
      apply (bool_decide_unpack _). vm_compute. exact I.
    + exists "a". split_and!; [apply list_elem_of_here| |reflexivity].
      apply (bool_decide_unpack _). vm_compute. exact I.
Defined.

Lemma instances_are_processed_independently_witness :
  Forall2 (λ known result,
             ∃ st t, schedule 5 three_defs ["m"; "x"] ["x"; "z"; "y"]
                       three_contracts known [] = (Ok st, t) ∧
               result = all_extracted_features st)
    [known_m; known_m'] two_instances_results.
Proof.
  apply (instances_are_processed_independently 5 three_defs
           [known_m; known_m'] ["m"; "x"] ["x"; "z"; "y"] three_contracts
           [] two_instances_run.2 two_instances_results).
  vm_compute. reflexivity.
Defined.

Lemma parsed_contracts_are_well_formed_witness :
  NoDup (keys three_contracts) ∧
  (∀ f c, dict_get f three_contracts = Some c →
     (∀ r, r ∈ requires c → r ∈ ["m"; "x"]) ∧
     (∀ p, p ∈ provides c → p ∈ ["x"; "z"; "y"])) ∧
  NoDup ["m"; "x"] ∧ NoDup ["x"; "z"; "y"].
Proof.
  apply (parsed_contracts_are_well_formed ref_pylib three_script
           (ScriptContracts three_contracts ["m"; "x"] ["x"; "z"; "y"])).
  vm_compute. reflexivity.
Defined.

Lemma script_without_annotations_extracts_nothing_witness :
  execute_functions_in_order 0 ref_pylib three_defs plain_script
    (DictList [known_m; known_m']) []
  = (Ok [∅; ∅], []).
Proof.
  apply (script_without_annotations_extracts_nothing 0 ref_pylib three_defs
           plain_script [known_m; known_m'] []).
  intros l Hl. unfold plain_script in Hl. elem_cases Hl; vm_compute; reflexivity.
Defined.

Lemma entry_point_runs_parsed_script_witness :
  ∃ result tr,
    execute_functions_in_order 3 ref_pylib three_defs three_script
      (OneDict known_m) [] = (Ok [result], tr) ∧
    called tr ≡ₚ ["f1"; "g"; "f2"] ∧ NoDup (called tr).
Proof.
  apply (entry_point_runs_parsed_script 3 ref_pylib three_defs three_script
           known_m (ScriptContracts three_contracts ["m"; "x"] ["x"; "z"; "y"])).
  - vm_compute. reflexivity.
  - apply three_contracts_honoured.
  - intros x Hx Hk. simpl in Hx. elem_cases Hx.
    + vm_compute in Hk. discriminate Hk.
    + exists "f1", (Contract ["m"] ["x"]). split; [reflexivity|].
      apply list_elem_of_here.
  - exists three_rank. intros f c g c' x Hf Hg Hr Hk Hp. simpl in Hf, Hg.
    unfold three_contracts in Hf. dict_cases Hf; simpl in Hr; elem_cases Hr;
      try (vm_compute in Hk; discriminate Hk).
    unfold three_contracts in Hg. dict_cases Hg; simpl in Hp; elem_cases Hp.
    vm_compute. lia.
  - simpl. lia.
Defined.

(* ===================================================================== *)
(** ** The front end: what it does to the instances *)
(* ===================================================================== *)

Lemma add_tsdata_at_present (bi : builtins)
    (paths : option (list (option string))) (datas : option (list value))
    (i : nat) (k : features) :
  in_dict "t" k = true → in_dict "m" k = true →
  add_tsdata_at bi paths datas i k = Ok k.
Proof. intros Ht Hm. unfold add_tsdata_at. by rewrite Ht, Hm. Qed.

Lemma add_tsdata_from_present (bi : builtins)
    (paths : option (list (option string))) (datas : option (list value))
    (ks : list features) :
  (∀ k, k ∈ ks → in_dict "t" k = true ∧ in_dict "m" k = true) →
  ∀ i, add_tsdata_from bi paths datas i ks = Ok ks.
Proof.
  induction ks as [|k ks IH]; intros H i; simpl; [done|].
  destruct (H k) as [Ht Hm]; [apply list_elem_of_here|].
  rewrite add_tsdata_at_present by done. simpl.
  rewrite IH; [done|]. intros k' Hk'. apply H. by apply list_elem_of_further.
Qed.

(** Instances that already hold the time and the measurements come back
    as they were, whatever is given as paths and as data: nothing is read
    or parsed for them, and no error is raised even when neither source
    is given. *)
Theorem instances_with_t_and_m_are_untouched (bi : builtins)
    (ks : list features) (paths : option (list (option string)))
    (datas : option (list value)) :
  (∀ k, k ∈ ks → in_dict "t" k = true ∧ in_dict "m" k = true) →
  add_tsdata_to_feats_known_dict bi ks paths datas = Ok ks.
Proof.
  intros H. unfold add_tsdata_to_feats_known_dict.
  destruct paths, datas; by apply add_tsdata_from_present.
Qed.

Lemma instances_with_t_and_m_are_untouched_witness :
  add_tsdata_to_feats_known_dict sample_builtins [with_t_m; with_t_m]
    None None = Ok [with_t_m; with_t_m].
Proof.
  apply (instances_with_t_and_m_are_untouched sample_builtins
           [with_t_m; with_t_m] None None).
  intros k Hk. elem_cases Hk; split; vm_compute; reflexivity.
Defined.

Lemma map_outcome_length {A B} (f : A → outcome B) (l : list A) (r : list B) :
  map_outcome f l = Ok r → length r = length l.
Proof.
  revert r. induction l as [|x l IH]; intros r; simpl; [by intros [= <-]|].
  destruct (f x) as [y| |]; [|done..]. simpl.
  destruct (map_outcome f l) as [ys| |]; [|done..]. simpl.
  intros [= <-]. simpl. by rewrite (IH ys).
Qed.

Lemma float_column_length (bi : builtins) (k : nat) (tme : list value)
    (v : value) :
  float_column bi k tme = Ok v → ∃ col, v = VList col ∧ length col = length tme.
Proof.
  unfold float_column.
  destruct (map_outcome _ tme) as [col| |] eqn:E; [|done..]. simpl.
  intros [= <-]. exists col. split; [done|]. by eapply map_outcome_length.
Qed.

Lemma add_tsdata_at_populated (bi : builtins)
    (paths : option (list (option string))) (datas : option (list value))
    (i : nat) (k k' : features) :
  add_tsdata_at bi paths datas i k = Ok k' → populated k k'.
Proof.
  unfold add_tsdata_at.
  destruct (negb (in_dict "t" k) || negb (in_dict "m" k));
    [|intros [= <-]; by left].
  destruct (subscript paths i) as [path| |]; [|done..]. simpl.
  destruct (match path with
            | Some _ => Ok false
            | None => outcome_bind (subscript datas i) (λ x, Ok (is_None x))
            end) as [[]| |]; [done| |done..]. simpl.
  destruct (match path with
            | Some p => parse_tsdata_from_file bi p
            | None => outcome_bind (subscript datas i) (parse_tsdata_to_lists bi)
            end) as [tme| |]; [|done..]. simpl.
  destruct (Nat.ltb 0 (length tme)); [|intros [= <-]; by left].
  destruct (all_len 3 tme) as [[]| |]; [| |done..]; simpl.
  - destruct (float_column bi 0 tme) as [T| |] eqn:HT; [|done..]. simpl.
    destruct (float_column bi 1 tme) as [M| |] eqn:HM; [|done..]. simpl.
    destruct (float_column bi 2 tme) as [E| |] eqn:HE; [|done..]. simpl.
    intros [= <-]. right.
    apply float_column_length in HT as (cT & -> & HlT).
    apply float_column_length in HM as (cM & -> & HlM).
    apply float_column_length in HE as (cE & -> & HlE).
    exists cT, cM. split_and!.
    + by rewrite lookup_insert_ne, lookup_insert_ne, lookup_insert_eq.
    + by rewrite lookup_insert_ne, lookup_insert_eq.
    + congruence.
    + right. exists cE. rewrite lookup_insert_eq. split; [done|congruence].
    + intros name H1 H2 H3. by rewrite !lookup_insert_ne.
  - destruct (all_len 2 tme) as [[]| |]; [| |done..]; simpl; [|done].
    destruct (float_column bi 0 tme) as [T| |] eqn:HT; [|done..]. simpl.
    destruct (float_column bi 1 tme) as [M| |] eqn:HM; [|done..]. simpl.
    intros [= <-]. right.
    apply float_column_length in HT as (cT & -> & HlT).
    apply float_column_length in HM as (cM & -> & HlM).
    exists cT, cM. split_and!.
    + by rewrite lookup_insert_ne, lookup_insert_eq.
    + by rewrite lookup_insert_eq.
    + congruence.
    + left. by rewrite !lookup_insert_ne.
    + intros name H1 H2 H3. by rewrite !lookup_insert_ne.
Qed.

Lemma add_tsdata_from_populated (bi : builtins)
    (paths : option (list (option string))) (datas : option (list value))
    (ks : list features) :
  ∀ i ks', add_tsdata_from bi paths datas i ks = Ok ks' →
    Forall2 populated ks ks'.
Proof.
  induction ks as [|k ks IH]; intros i ks'; simpl.
  - intros [= <-]. constructor.
  - destruct (add_tsdata_at bi paths datas i k) as [k'| |] eqn:Hk; [|done..].
    simpl.
    destruct (add_tsdata_from bi paths datas (S i) ks) as [r| |] eqn:Hr;
      [|done..].
    simpl. intros [= <-]. constructor.
    + by eapply add_tsdata_at_populated.
    + by eapply IH.
Qed.

(** When the front end returns, it returns one instance per instance
    given, in order, and each is either as it was or holds the time and
    the measurements, and the errors if it set them, as lists of one and
    the same length, every other feature being as it was. *)
Theorem populated_columns_are_aligned (bi : builtins) (ks ks' : list features)
    (paths : option (list (option string))) (datas : option (list value)) :
  add_tsdata_to_feats_known_dict bi ks paths datas = Ok ks' →
  Forall2 populated ks ks'.
Proof.
  unfold add_tsdata_to_feats_known_dict.
  destruct paths, datas; apply add_tsdata_from_populated.
Qed.

Lemma populated_columns_are_aligned_witness :
  Forall2 populated [bare]
    [<["m" := VList [VNum 10; VNum 11]]>
       (<["t" := VList [VNum 1; VNum 2]]> bare)].
Proof.
  apply (populated_columns_are_aligned sample_builtins [bare] _ None
           (Some [two_epochs])).
  vm_compute. reflexivity.
Defined.

Lemma add_tsdata_at_path (bi : builtins) (paths : list (option string))
    (d1 d2 : option (list value)) (i : nat) (p : string) (k : features) :
  paths !! i = Some (Some p) →
  add_tsdata_at bi (Some paths) d1 i k = add_tsdata_at bi (Some paths) d2 i k.
Proof.
  intros Hp. unfold add_tsdata_at.
  destruct (negb (in_dict "t" k) || negb (in_dict "m" k)); [|done].
  simpl. by rewrite Hp.
Qed.

Lemma add_tsdata_from_path (bi : builtins) (paths : list (option string))
    (d1 d2 : option (list value)) (ks : list features) :
  ∀ i, (∀ j, j < length ks → ∃ p, paths !! (i + j) = Some (Some p)) →
    add_tsdata_from bi (Some paths) d1 i ks
    = add_tsdata_from bi (Some paths) d2 i ks.
Proof.
  induction ks as [|k ks IH]; intros i H; simpl; [done|].
  destruct (H 0) as [p Hp]; [simpl; lia|]. rewrite Nat.add_0_r in Hp.
  rewrite (add_tsdata_at_path bi paths d1 d2 i p k Hp).
  destruct (add_tsdata_at bi (Some paths) d2 i k); [|done..]. simpl.
  rewrite IH; [done|]. intros j Hj.
  destruct (H (S j)) as [q Hq]; [simpl; lia|].
  exists q. by rewrite <- Hq, Nat.add_succ_r.
Qed.

(** When every instance has a path to a data file, the list of raw data
    is never read: the front end gives the same with any such list, and
    with none. *)
Theorem file_path_takes_precedence (bi : builtins) (ks : list features)
    (paths : list (option string)) (d1 d2 : option (list value)) :
  (∀ j, j < length ks → ∃ p, paths !! j = Some (Some p)) →
  add_tsdata_to_feats_known_dict bi ks (Some paths) d1
  = add_tsdata_to_feats_known_dict bi ks (Some paths) d2.
Proof.
  intros H.
  assert (∀ d d', add_tsdata_from bi (Some paths) d 0 ks
                  = add_tsdata_from bi (Some paths) d' 0 ks) as Heq.
  { intros d d'. by apply add_tsdata_from_path. }
  unfold add_tsdata_to_feats_known_dict. destruct d1, d2; apply Heq.
Qed.

Lemma file_path_takes_precedence_witness :
  add_tsdata_to_feats_known_dict sample_builtins [bare] (Some [Some "ts.dat"])
    (Some [two_epochs])
  = add_tsdata_to_feats_known_dict sample_builtins [bare]
      (Some [Some "ts.dat"]) None.
Proof.
  apply (file_path_takes_precedence sample_builtins [bare] [Some "ts.dat"]).
  intros j Hj. simpl in Hj. assert (j = 0) as -> by lia. by exists "ts.dat".
Defined.

(* ===================================================================== *)
(** ** The Docker orchestration: results and leftovers *)
(* ===================================================================== *)

Lemma launch_and_retrieve_ok (env : environment) (dir : string)
    (s s' : host * frame) :
  launch_and_retrieve env dir s = (Ok tt, s') →
  new_client env = None ∧ (∃ id, create_container env = inr id) ∧
  start env = None ∧ wait env = None ∧ logs_stdout env = None ∧
  logs_stderr env = None ∧ docker_copy env = None ∧
  ∃ r, load_results env = inr r.
Proof.
  unfold launch_and_retrieve, bind, step, answer, modify, raise, ret, on_host.
  destruct (new_client env); [done|].
  destruct (create_container env) as [e|id]; [done|].
  destruct (start env); [done|]. destruct (wait env); [done|].
  destruct (logs_stdout env); [done|]. destruct (logs_stderr env); [done|].
  destruct (docker_copy env); [done|].
  destruct (load_results env) as [e|r]; [done|].
  intros _. split_and!; eauto.
Qed.

Lemma extract_feats_ok (env : environment) (name dir : string) (h h' : host)
    (r : list features) :
  extract_feats_in_docker_container env name dir h = (Ok r, h') →
  import_docker env = None ∧ remove_container env = None ∧
  load_results env = inr r ∧
  ∃ s', launch_and_retrieve env dir (h, Frame false None None) = (Ok tt, s').
Proof.
  intros Hx.
  destruct (import_docker env) as [e|] eqn:Himp.
  { unfold extract_feats_in_docker_container, bind, step in Hx.
    by rewrite Himp in Hx. }
  destruct (launch_and_retrieve_frame env dir h)
    as (o & h1 & fr & Hl & _ & Hres).
  rewrite (extract_feats_after_launch env name dir h _ h1 fr Himp Hl) in Hx.
  assert (∃ r', results_list_of_dict fr = Some r ∧ remove_container env = None
                ∧ o ≠ OutOfFuel ∧ r' = r) as (_ & Hfr & Hrc & Ho & _).
  { destruct o; [| |done]; destruct (client fr); try done;
      destruct (cont_id fr); try done;
      destruct (remove_container env); try done;
      destruct (results_list_of_dict fr); try done;
      injection Hx as -> _; by exists r. }
  destruct o as [[]|e|]; [| |done].
  - destruct Hres as (r' & Hr' & Hload). rewrite Hfr in Hr'.
    injection Hr' as <-. split_and!; [done..|]. by exists (h1, fr).
  - by rewrite Hfr in Hres.
Qed.

Lemma remove_tmp_files_returns (env : environment) (cf : cfg) (dir : string)
    (h : host) : (remove_tmp_files env cf dir h).1 = Ok tt.
Proof.
  unfold remove_tmp_files, for_each, bind, modify, ret.
  destruct (rmtree_removes env);
    by destruct (os_remove_removes env _), (os_remove_removes env _),
         (os_remove_removes env _).
Qed.

(** [docker_extract_features] returns a result only when every step went
    well: the working directory was made and filled, the Docker module and
    client, the container, its start, wait and logs, the copy of the
    results and the removal of the container raised nothing; and what it
    returns is what was loaded from the results file. *)
Theorem result_only_after_complete_run (bi : builtins) (env : environment)
    (cf : cfg) (script_fpath : string) (known : known_arg)
    (ts_datafile_paths : option (list (option string)))
    (ts_data_list : option (list value)) (h h' : host) (r : list features) :
  docker_extract_features bi env cf script_fpath known ts_datafile_paths
    ts_data_list h = (Ok r, h') →
  load_results env = inr r ∧
  makedirs env = None ∧ dump_features env = None ∧
  import_docker env = None ∧ new_client env = None ∧
  (∃ id, create_container env = inr id) ∧
  start env = None ∧ wait env = None ∧ logs_stdout env = None ∧
  logs_stderr env = None ∧ docker_copy env = None ∧
  remove_container env = None.
Proof.
  unfold docker_extract_features, bind at 1, lift.
  destruct known as [k|l|]; [| |done].
  all: unfold bind at 1;
    destruct (add_tsdata_to_feats_known_dict _ _ _ _) as [ks| |]; [|done..];
    unfold bind at 1, make_tmp_dir, bind, get, step, modify, raise, ret;
    (destruct (bool_decide _); [done|]);
    (destruct (makedirs env) eqn:Hmk; [done|]);
    unfold copy_data_to_tmp_dir, bind, get, step, modify, raise, ret;
    (destruct (bool_decide _); [|done]);
    (destruct (dump_features env) eqn:Hdump; [done|]);
    unfold try_finally;
    match goal with
    | |- context [extract_feats_in_docker_container ?e ?n ?dir ?h0] =>
        destruct (extract_feats_in_docker_container e n dir h0)
          as [o1 h1] eqn:Hx;
        pose proof (remove_tmp_files_returns env cf dir h1) as Hfin;
        destruct (remove_tmp_files env cf dir h1) as [[[]| |] h2];
        try discriminate Hfin
    end;
    intros [= -> _];
    apply extract_feats_ok in Hx as (Himp & Hrc & Hload & s' & Hl);
    apply launch_and_retrieve_ok in Hl
      as (H1 & H2 & H3 & H4 & H5 & H6 & H7 & _);
    by split_and!.
Qed.

Lemma result_only_after_complete_run_witness :
  load_results good_env = inr [{["avg_m" := VNum 9]}] ∧
  makedirs good_env = None ∧ dump_features good_env = None ∧
  import_docker good_env = None ∧ new_client good_env = None ∧
  (∃ id, create_container good_env = inr id) ∧
  start good_env = None ∧ wait good_env = None ∧ logs_stdout good_env = None ∧
  logs_stderr good_env = None ∧ docker_copy good_env = None ∧
  remove_container good_env = None.
Proof.
  apply (result_only_after_complete_run sample_builtins good_env sample_cfg
           "/home/user/feats.py" (DictList [known_t_m]) None None sample_host
           (docker_extract_features sample_builtins good_env sample_cfg
              "/home/user/feats.py" (DictList [known_t_m]) None None
              sample_host).2).
  vm_compute. reflexivity.
Defined.



(** The working directory is made and filled before the [try] statement
    is entered: when the script cannot be copied, or the features cannot
    be written, the call raises and the working directory stays on the
    host; no container was made. *)
Theorem staging_failure_leaves_working_directory (bi : builtins)
    (env : environment) (cf : cfg) (script_fpath : string)
    (ks0 ks : list features)
    (ts_datafile_paths : option (list (option string)))
    (ts_data_list : option (list value)) (h : host) :
  add_tsdata_to_feats_known_dict bi ks0 ts_datafile_paths ts_data_list = Ok ks →
  tmp_dir_of env cf ∉ paths h →
  makedirs env = None →
  ((script_fpath ∉ paths h) ∧ script_fpath ≠ tmp_dir_of env cf ∧
   (script_fpath ∉ dirs_above (tmp_dir_of env cf))) ∨
  is_Some (dump_features env) →
  ∃ e h', docker_extract_features bi env cf script_fpath (DictList ks0)
            ts_datafile_paths ts_data_list h = (Raise e, h') ∧
    tmp_dir_of env cf ∈ paths h' ∧ containers h' = containers h.
Proof.
  intros Hadd Hfresh Hmk Hfail.
  unfold docker_extract_features, bind at 1, lift. unfold bind at 1.
  rewrite Hadd.
  unfold bind at 1, make_tmp_dir, bind, get, step, modify, raise, ret.
  fold (tmp_dir_of env cf).
  rewrite bool_decide_eq_false_2 by done. rewrite Hmk.
  unfold copy_data_to_tmp_dir, bind, get, step, modify, raise, ret.
  destruct (bool_decide (script_fpath ∈ paths (make_dirs (tmp_dir_of env cf) h)))
    eqn:Hs.
  - destruct Hfail as [(Hn & Hne & Habove)|[e He]].
    + apply bool_decide_eq_true in Hs. simpl in Hs.
      apply elem_of_union in Hs as [Hs%elem_of_singleton|Hs]; [done|].
      apply elem_of_union in Hs as [Hs%elem_of_list_to_set|Hs]; done.
    + rewrite He. eexists e, _. split; [reflexivity|]. simpl.
      split; [|done]. rewrite !elem_of_union, !elem_of_singleton. tauto.
  - eexists _, _. split; [reflexivity|]. simpl. split; [|done].
    rewrite !elem_of_union, !elem_of_singleton. tauto.
Qed.

Lemma staging_failure_leaves_working_directory_witness :
  ∃ e h', docker_extract_features sample_builtins dump_fails_env sample_cfg
            "/home/user/feats.py" (DictList [known_t_m]) None None sample_host
          = (Raise e, h') ∧
    tmp_dir_of dump_fails_env sample_cfg ∈ paths h' ∧
    containers h' = containers sample_host.
Proof.
  apply (staging_failure_leaves_working_directory sample_builtins
           dump_fails_env sample_cfg "/home/user/feats.py" [known_t_m]
           [known_t_m] None None sample_host).
  - reflexivity.
  - apply (bool_decide_unpack _). vm_compute. exact I.
  - reflexivity.
  - right. by eexists.
Defined.

Lemma launch_failure_is_replaced_witness :
  ∃ e' h',
    extract_feats_in_docker_container start_fails_env "0a1b2c3d-4"
      (tmp_dir_of start_fails_env sample_cfg) sample_host = (Raise e', h') ∧
    (e' = UnboundLocalError "client" ∨ e' = UnboundLocalError "cont_id" ∨
     e' = UnboundLocalError "results_list_of_dict" ∨
     remove_container start_fails_env = Some e').
Proof.
  apply (launch_failure_is_replaced start_fails_env "0a1b2c3d-4"
           (tmp_dir_of start_fails_env sample_cfg) sample_host
           (DockerError "APIError")
           (launch_and_retrieve start_fails_env
              (tmp_dir_of start_fails_env sample_cfg)
              (sample_host, Frame false None None)).2).
  - reflexivity.
  - vm_compute. reflexivity.
Defined.

(* ===================================================================== *)
(** ** The callers' entry point *)
(* ===================================================================== *)

(** Called without a path and without data on features that already hold
    the time and the measurements, which the third alternative of the
    first statement lets through, [generate_custom_features] raises
    [UnboundLocalError]: the local [e] is read although no assignment to
    it ran.  Nothing has been run. *)
Theorem prebuilt_features_raise_unbound_error (fuel : nat) (py : pylib)
    (defs : module) (script : list string) (bi : builtins) (env : environment)
    (cf : cfg) (dt : docker_tools) (custom_script_path : string)
    (path_to_csv : option string) (known : features) (ts_data : value)
    (s : trace * host) :
  path_given path_to_csv = false → truthy ts_data = false →
  in_dict "t" known = true → in_dict "m" known = true →
  generate_custom_features fuel py defs script bi env cf dt custom_script_path
    path_to_csv known ts_data s
  = (Raise (UnboundLocalError "e"), s).
Proof.
  intros Hp Hd Ht Hm.
  unfold generate_custom_features, bind, lift, prepare_features.
  unfold bind_locals. rewrite Hp, Hd, Ht, Hm. simpl.
  unfold set_if_absent. rewrite Ht. simpl. by rewrite Hm.
Qed.

Lemma prebuilt_features_raise_unbound_error_witness :
  generate_custom_features 5 ref_pylib three_defs three_script sample_builtins
    good_env sample_cfg in_docker "/home/user/feats.py" None known_t_m VNone
    ([], sample_host)
  = (Raise (UnboundLocalError "e"), ([], sample_host)).
Proof.
  apply (prebuilt_features_raise_unbound_error 5 ref_pylib three_defs
           three_script sample_builtins good_env sample_cfg in_docker
           "/home/user/feats.py" None known_t_m VNone ([], sample_host));
    vm_compute; reflexivity.
Defined.

Lemma locals_of_ts_data_errors (ts_data : value) (t m e : option value) :
  locals_of_ts_data ts_data = Ok (t, m, e) →
  is_Some e → outcome_bind (first_item ts_data) py_len = Ok 3.
Proof.
  unfold locals_of_ts_data.
  destruct (outcome_bind (first_item ts_data) py_len) as [n| |]; [|done..].
  simpl. destruct (Nat.eqb n 3) eqn:H3.
  { apply Nat.eqb_eq in H3 as ->. done. }
  simpl. destruct (Nat.eqb n 2).
  - destruct (zip_star (py_items ts_data)) as [tm| |]; [|done..]. simpl.
    unfold unpack_two. destruct tm as [|a [|b [|c tm]]]; try done.
    simpl. intros [= <- <- <-]. by intros [? ?].
  - intros [= <- <- <-]. by intros [? ?].
Qed.

Lemma prepare_features_source (bi : builtins) (path_to_csv : option string)
    (known : features) (ts_data : value) (prepared : features) :
  prepare_features bi path_to_csv known ts_data = Ok prepared →
  path_given path_to_csv = true ∨
  (truthy ts_data = true ∧ outcome_bind (first_item ts_data) py_len = Ok 3).
Proof.
  unfold prepare_features.
  destruct (bind_locals bi path_to_csv known ts_data) as [[[t m] e]| |] eqn:Hl;
    [|done..].
  simpl.
  destruct (set_if_absent "t" t known) as [k1| |]; [|done..]. simpl.
  destruct (set_if_absent "m" m k1) as [k2| |]; [|done..]. simpl.
  unfold set_errors. destruct e as [ev|]; [|done]. intros _.
  revert Hl. unfold bind_locals.
  destruct (path_given path_to_csv); [by left|].
  destruct (truthy ts_data).
  - intros Hl. right. split; [done|].
    by apply (locals_of_ts_data_errors ts_data t m (Some ev) Hl).
  - by destruct (negb (in_dict "t" known) || negb (in_dict "m" known)).
Qed.

(** [generate_custom_features] returns only when a path to a data file was
    given, or data whose first row has three entries: with two-column
    data, or with features prepared beforehand and no source, it never
    returns a result. *)
Theorem success_needs_path_or_three_columns (fuel : nat) (py : pylib)
    (defs : module) (script : list string) (bi : builtins) (env : environment)
    (cf : cfg) (dt : docker_tools) (custom_script_path : string)
    (path_to_csv : option string) (known : features) (ts_data : value)
    (s s' : trace * host) (result : list features) :
  generate_custom_features fuel py defs script bi env cf dt custom_script_path
    path_to_csv known ts_data s = (Ok result, s') →
  path_given path_to_csv = true ∨
  (truthy ts_data = true ∧ outcome_bind (first_item ts_data) py_len = Ok 3).
Proof.
  unfold generate_custom_features, bind, lift.
  destruct (prepare_features bi path_to_csv known ts_data) as [prepared| |]
    eqn:Hp; [|done..].
  intros _. by eapply prepare_features_source.
Qed.

Lemma set_if_absent_extends (name : string) (local : option value)
    (known prepared : features) :
  set_if_absent name local known = Ok prepared →
  known ⊆ prepared ∧ is_Some (prepared !! name) ∧
  ∀ x, is_Some (prepared !! x) → is_Some (known !! x) ∨ x = name.
Proof.
  unfold set_if_absent, in_dict.
  destruct (bool_decide (is_Some (known !! name))) eqn:Hin; simpl.
  - intros [= <-]. apply bool_decide_eq_true in Hin. split_and!; eauto.
  - apply bool_decide_eq_false in Hin.
    destruct local as [v|]; [|done]. simpl. intros [= <-]. split_and!.
    + apply insert_subseteq. by apply eq_None_not_Some.
    + rewrite lookup_insert_eq. by eexists.
    + intros x Hx. destruct (decide (x = name)) as [->|Hne]; [by right|].
      left. by rewrite lookup_insert_ne in Hx.
Qed.

Lemma set_errors_extends (m e : option value) (known prepared : features) :
  set_errors m e known = Ok prepared →
  known ⊆ prepared ∧
  ∀ x, is_Some (prepared !! x) → is_Some (known !! x) ∨ x = "e".
Proof.
  unfold set_errors. destruct e as [ev|]; [|done]. simpl.
  destruct (truthy ev); [|intros [= <-]; eauto].
  destruct (py_len ev) as [le| |]; [|done..]. simpl.
  destruct m as [mv|]; [|done]. simpl.
  destruct (py_len mv) as [lm| |]; [|done..]. simpl.
  destruct (Nat.eqb le lm); simpl; [|intros [= <-]; eauto].
  unfold in_dict.
  destruct (bool_decide (is_Some (known !! "e"))) eqn:Hin; simpl;
    [intros [= <-]; eauto|].
  apply bool_decide_eq_false in Hin. intros [= <-]. split.
  - apply insert_subseteq. by apply eq_None_not_Some.
  - intros x Hx. destruct (decide (x = "e")) as [->|Hne]; [by right|].
    left. by rewrite lookup_insert_ne in Hx.
Qed.

(** The statements before the features are generated never overwrite a
    feature the caller gave: what they hand on holds every given feature
    with its value, holds the time and the measurements, and holds no name
    beyond the given ones and [t], [m] and [e]. *)
Theorem prepared_features_extend_known (bi : builtins)
    (path_to_csv : option string) (known : features) (ts_data : value)
    (prepared : features) :
  prepare_features bi path_to_csv known ts_data = Ok prepared →
  (∀ name v, known !! name = Some v → prepared !! name = Some v) ∧
  is_Some (prepared !! "t") ∧ is_Some (prepared !! "m") ∧
  ∀ name, is_Some (prepared !! name) →
    is_Some (known !! name) ∨ name = "t" ∨ name = "m" ∨ name = "e".
Proof.
  unfold prepare_features.
  destruct (bind_locals bi path_to_csv known ts_data) as [[[t m] e]| |];
    [|done..].
  simpl.
  destruct (set_if_absent "t" t known) as [k1| |] eqn:H1; [|done..]. simpl.
  destruct (set_if_absent "m" m k1) as [k2| |] eqn:H2; [|done..]. simpl.
  intros H3.
  apply set_if_absent_extends in H1 as (S1 & [vt Ht] & D1).
  apply set_if_absent_extends in H2 as (S2 & [vm Hm] & D2).
  apply set_errors_extends in H3 as (S3 & D3).
  split_and!.
  - intros name v Hv.
    eapply lookup_weaken; [|exact S3].
    eapply lookup_weaken; [|exact S2].
    by eapply lookup_weaken.
  - exists vt. eapply lookup_weaken; [|exact S3]. by eapply lookup_weaken.
  - exists vm. by eapply lookup_weaken.
  - intros name Hn. destruct (D3 name Hn) as [Hn2| ->]; [|eauto].
    destruct (D2 name Hn2) as [Hn1| ->]; [|eauto].
    destruct (D1 name Hn1) as [Hn0| ->]; eauto.
Qed.

(** Outside Docker and with the Docker images at hand, the functions of
    the script are never called in this process: the log of calls is as
    it was.  Inside Docker, or without the images, nothing is done to the
    host: no directory and no container is made. *)
Theorem user_functions_run_where_they_should (fuel : nat) (py : pylib)
    (defs : module) (script : list string) (bi : builtins) (env : environment)
    (cf : cfg) (dt : docker_tools) (custom_script_path : string)
    (path_to_csv : option string) (known : features) (ts_data : value)
    (tr tr' : trace) (h h' : host) (o : outcome (list features)) :
  generate_custom_features fuel py defs script bi env cf dt custom_script_path
    path_to_csv known ts_data (tr, h) = (o, (tr', h')) →
  (is_running_in_docker dt = false → docker_images_available dt = true →
   tr' = tr) ∧
  (is_running_in_docker dt = true ∨ docker_images_available dt = false →
   h' = h).
Proof.
  unfold generate_custom_features, bind, lift.
  destruct (prepare_features bi path_to_csv known ts_data) as [prepared| |];
    [|intros [= _ <- <-]; by split..].
  destruct (is_running_in_docker dt), (docker_images_available dt);
    unfold with_log, with_host; simpl.
  all: try (destruct (execute_functions_in_order _ _ _ _ _ tr) as [o1 t1];
            intros [= _ <- <-]; split; [done|]; by intros _).
  destruct (docker_extract_features _ _ _ _ _ _ _ h) as [o1 h1].
  intros [= _ <- <-]. split; [done|]. by intros [?|?].
Qed.

Lemma success_needs_path_or_three_columns_witness :
  path_given (Some "ts.csv") = true ∨
  (truthy VNone = true ∧ outcome_bind (first_item VNone) py_len = Ok 3).
Proof.
  apply (success_needs_path_or_three_columns 5 ref_pylib three_defs
           three_script csv_builtins good_env sample_cfg in_docker
           "/home/user/feats.py" (Some "ts.csv") bare VNone ([], sample_host)
           csv_run.2 csv_result).
  vm_compute. reflexivity.
Defined.

Lemma prepared_features_extend_known_witness :
  (∀ name v, bare !! name = Some v → csv_prepared !! name = Some v) ∧
  is_Some (csv_prepared !! "t") ∧ is_Some (csv_prepared !! "m") ∧
  ∀ name, is_Some (csv_prepared !! name) →
    is_Some (bare !! name) ∨ name = "t" ∨ name = "m" ∨ name = "e".
Proof.
  apply (prepared_features_extend_known csv_builtins (Some "ts.csv") bare
           VNone csv_prepared).
  vm_compute. reflexivity.
Defined.

Lemma user_functions_run_where_they_should_witness :
  (is_running_in_docker in_docker = false →
   docker_images_available in_docker = true → csv_run.2.1 = []) ∧
  (is_running_in_docker in_docker = true ∨
   docker_images_available in_docker = false → csv_run.2.2 = sample_host).
Proof.
  apply (user_functions_run_where_they_should 5 ref_pylib three_defs
           three_script csv_builtins good_env sample_cfg in_docker
           "/home/user/feats.py" (Some "ts.csv") bare VNone [] csv_run.2.1
           sample_host csv_run.2.2 csv_run.1).
  vm_compute. reflexivity.
Defined.

(* ===================================================================== *)
(** ** The reader of data files: [parse_csv_file] *)
(* ===================================================================== *)

Lemma rows_pass_check (rows : list value) (n : nat) :
  2 ≤ n →
  (∀ row, row ∈ rows → ∃ l, row = VList l ∧ length l = n) →
  ∃ us, map_outcome (λ row,
          outcome_bind (py_len row) (λ n,
            if Nat.ltb n 2 then Raise (NameError "custom_exceptions")
            else Ok tt)) rows = Ok us.
Proof.
  intros Hn. induction rows as [|row rows IH]; intros H; simpl; [by eexists|].
  destruct (H row) as (l & -> & Hl); [apply list_elem_of_here|]. simpl.
  rewrite Hl. destruct (Nat.ltb_spec n 2) as [?|_]; [lia|]. simpl.
  destruct IH as [us ->]; [|by eexists].
  intros r Hr. apply H. by apply list_elem_of_further.
Qed.

Lemma rows_iterable (rows : list value) (n : nat) :
  (∀ row, row ∈ rows → ∃ l, row = VList l ∧ length l = n) →
  forallb is_iterable rows = true.
Proof.
  induction rows as [|row rows IH]; intros H; simpl; [done|].
  destruct (H row) as (l & -> & _); [apply list_elem_of_here|]. simpl.
  apply IH. intros r Hr. apply H. by apply list_elem_of_further.
Qed.

Lemma rows_min_len (rows : list value) (n : nat) :
  rows ≠ [] →
  (∀ row, row ∈ rows → ∃ l, row = VList l ∧ length l = n) →
  min_len rows = n.
Proof.
  destruct rows as [|row rows]; [done|]. intros _ H. unfold min_len.
  destruct (H row) as (l & -> & Hl); [apply list_elem_of_here|]. simpl.
  rewrite Hl.
  assert (∀ r, r ∈ rows → ∃ l, r = VList l ∧ length l = n) as H'.
  { intros r Hr. apply H. by apply list_elem_of_further. }
  clear H. induction rows as [|r rows IH]; simpl; [done|].
  destruct (H' r) as (l' & -> & Hl'); [apply list_elem_of_here|]. simpl.
  rewrite Hl', IH; [lia|]. intros r Hr. apply H'. by apply list_elem_of_further.
Qed.

Lemma column_lookup (rows : list value) (k j : nat) (l : list value) :
  rows !! j = Some (VList l) → k < length l →
  ((λ r, default VNone (py_items r !! k)) <$> rows) !! j = l !! k.
Proof.
  intros Hj Hk. rewrite list_lookup_fmap, Hj. simpl.
  destruct (lookup_lt_is_Some_2 l k Hk) as [x ->]. done.
Qed.

(** For a file of two rows or more whose rows all have two entries, or all
    three, so that the array read is two-dimensional and its cut gives
    the rows, [parse_csv_file] returns exactly three columns, so that the
    caller's unpacking into time, measurements and errors cannot fail: the
    first two are as long as the file has rows and hold the first and the
    second entry of each row, and the third is empty for two-entry rows
    and holds the third entries otherwise. *)
Theorem parse_csv_file_gives_three_columns (bi : builtins) (fname : string)
    (rows : list value) (n : nat) :
  loadtxt bi fname = Ok rows → 2 ≤ length rows → n = 2 ∨ n = 3 →
  (∀ row, row ∈ rows → ∃ l, row = VList l ∧ length l = n) →
  ∃ T M E, parse_csv_file bi fname = Ok [VList T; VList M; VList E] ∧
    length T = length rows ∧ length M = length rows ∧
    (n = 2 → E = []) ∧ (n = 3 → length E = length rows) ∧
    ∀ j l, rows !! j = Some (VList l) →
      T !! j = l !! 0 ∧ M !! j = l !! 1 ∧ (n = 3 → E !! j = l !! 2).
Proof.
  intros Hload Htwo Hn Hrows. unfold parse_csv_file. rewrite Hload. simpl.
  assert (rows ≠ []) as Hne by (intros ->; simpl in Htwo; lia).
  destruct (rows_pass_check rows n) as [us ->]; [lia|done|]. simpl.
  unfold zip_star. rewrite (rows_iterable rows n Hrows).
  rewrite (rows_min_len rows n Hne Hrows). simpl.
  assert (∀ j l, rows !! j = Some (VList l) → length l = n) as Hlen.
  { intros j l Hj. destruct (Hrows (VList l)) as (l' & [= <-] & Hl); [|done].
    by eapply list_elem_of_lookup_2. }
  destruct Hn as [-> | ->]; simpl.
  - eexists _, _, []. split; [reflexivity|].
    rewrite !length_fmap. split_and!; [done..|].
    intros j l Hj. pose proof (Hlen j l Hj).
    rewrite !(column_lookup rows _ j l Hj) by lia. by split_and!.
  - eexists _, _, _. split; [reflexivity|].
    rewrite !length_fmap. split_and!; [done..|].
    intros j l Hj. pose proof (Hlen j l Hj).
    rewrite !(column_lookup rows _ j l Hj) by lia. by split_and!.
Qed.

Lemma parse_csv_file_gives_three_columns_witness :
  ∃ T M E, parse_csv_file csv_builtins "ts.csv" = Ok [VList T; VList M; VList E] ∧
    length T = length three_columns ∧ length M = length three_columns ∧
    (3 = 2 → E = []) ∧ (3 = 3 → length E = length three_columns) ∧
    ∀ j l, three_columns !! j = Some (VList l) →
      T !! j = l !! 0 ∧ M !! j = l !! 1 ∧ (3 = 3 → E !! j = l !! 2).
Proof.
  apply (parse_csv_file_gives_three_columns csv_builtins "ts.csv"
           three_columns 3).
  - reflexivity.
  - simpl. lia.
  - by right.
  - intros row Hrow. unfold three_columns in Hrow.
    elem_cases Hrow; by eexists.
Defined.

(* ===================================================================== *)
(** ** The list of the features a script provides *)
(* ===================================================================== *)

(** What [list_features_provided] returns is the list of provided names
    the parser returns on the same script: it repeats no name and holds
    every name provided by a function of the parsed contracts. *)
Theorem listed_features_cover_contracts (py : pylib) (script : list string)
    (listed : list string) :
  list_features_provided py script = Ok listed →
  ∃ sc, parse_for_req_prov_params py script = Ok sc ∧
    listed = all_provided_params sc ∧ NoDup listed ∧
    ∀ f c p, dict_get f (fnames_req_prov_dict sc) = Some c →
      p ∈ provides c → p ∈ listed.
Proof.
  unfold list_features_provided.
  destruct (parse_lines py script _) as [sc| |] eqn:Hp; [|done..]. simpl.
  intros [= <-]. exists sc.
  destruct (parse_well_formed py script sc Hp) as (_ & _ & Hprov & _ & HP).
  split_and!; [done..|]. intros f c p Hc Hin. by apply (Hprov f c).
Qed.

Lemma listed_features_cover_contracts_witness :
  ∃ sc, parse_for_req_prov_params ref_pylib three_script = Ok sc ∧
    ["x"; "z"; "y"] = all_provided_params sc ∧ NoDup ["x"; "z"; "y"] ∧
    ∀ f c p, dict_get f (fnames_req_prov_dict sc) = Some c →
      p ∈ provides c → p ∈ ["x"; "z"; "y"].
Proof.
  apply (listed_features_cover_contracts ref_pylib three_script
           ["x"; "z"; "y"]).
  vm_compute. reflexivity.
Defined.

(* ===================================================================== *)
(** ** The scheduler: arguments and failures *)
(* ===================================================================== *)

(** In every run, the arguments of a call hold no name beyond those the
    contract of the called function requires: a function never sees a
    feature it did not ask for. *)
Theorem functions_get_only_what_they_require (fuel : nat) (defs : module)
    (R P : list string) (d : dict contract) (known : features)
    (o : outcome sched) (tr : trace) :
  schedule fuel defs R P d known [] = (o, tr) →
  ∀ k i f a r c name,
    tr !! k = Some (Called i f a r) → dict_get f d = Some c →
    is_Some (a !! name) → name ∈ requires c.
Proof.
  intros Hrun.
  destruct (schedule_inv defs d known
              (λ _ tr, ∀ k i f a r c name,
                 tr !! k = Some (Called i f a r) → dict_get f d = Some c →
                 is_Some (a !! name) → name ∈ requires c)
              (λ tr, ∀ k i f a r c name,
                 tr !! k = Some (Called i f a r) → dict_get f d = Some c →
                 is_Some (a !! name) → name ∈ requires c)) with
    (fuel := fuel) (R := R) (P := P) (o := o) (tr := tr) as [Hlog _].
  - done.
  - done.
  - intros i f st t o' t' HI Hf Hv.
    assert (∀ k i0 f0 a r c name,
              t' !! k = Some (Called i0 f0 a r) → dict_get f0 d = Some c →
              is_Some (a !! name) → name ∈ requires c) as Hgoal; [|by split].
    destruct (visit_cases defs d known i f st t)
      as [[_ E]|[(c & st' & _ & _ & E & _)|[(c & _ & _ & _ & E)|
          (c & pre & o1 & o2 & Hc & _ & Hpre & _ & E & _)]]];
      rewrite E in Hv; injection Hv as <- <-; [done..|].
    intros k i0 f0 a r c0 name Hk Hc0 [v Hv].
    apply (lookup_pre_call _ _ _ _ _ _ _ _ _ Hpre) in Hk
      as [[_ Hk]|[_ [= -> -> <- _]]].
    + by apply (HI k i0 f0 a r c0 name Hk Hc0); exists v.
    + rewrite Hc in Hc0. injection Hc0 as <-.
      by apply gather_source in Hv as [Hin _].
  - by intros k i f a r c name Hk.
  - exact Hrun.
  - exact Hlog.
Qed.

Lemma functions_get_only_what_they_require_witness :
  three_run.2 !! 3
    = Some (Called 0 "f2" {["x" := VNum 1]} (Ok {["y" := VNum 3]})) ∧
  "x" ∈ requires (Contract ["x"] ["y"]).
Proof.
  assert (three_run.2 !! 3
          = Some (Called 0 "f2" {["x" := VNum 1]} (Ok {["y" := VNum 3]})))
    as Hcall by (vm_compute; reflexivity).
  split; [exact Hcall|].
  apply (functions_get_only_what_they_require 5 three_defs ["m"; "x"]
           ["x"; "z"; "y"] three_contracts known_m three_run.1 three_run.2
           (surjective_pairing three_run) 3 0 "f2" {["x" := VNum 1]}
           (Ok {["y" := VNum 3]}) (Contract ["x"] ["y"]) "x" Hcall).
  - reflexivity.
  - by eexists.
Defined.

(** A batch fails as its first failing instance does: when the instances
    before it go well and the scheduler raises on it, the batch raises the
    same exception, whatever comes after, and no result is returned for
    the instances that went well. *)
Theorem batch_fails_with_first_failing_instance (fuel : nat) (defs : module)
    (before after : list features) (known : features) (R P : list string)
    (d : dict contract) (e : exn) (t : trace) :
  (∀ k, k ∈ before →
     ∃ st t', schedule fuel defs R P d k [] = (Ok st, t')) →
  schedule fuel defs R P d known [] = (Raise e, t) →
  (call_custom_functions fuel defs (before ++ known :: after) R P d []).1
  = Raise e.
Proof.
  intros Hbefore Hfail.
  assert (∀ tr, (call_custom_functions fuel defs (before ++ known :: after)
                   R P d tr).1 = Raise e) as H; [|apply H].
  induction before as [|k before IH]; intros tr; simpl.
  - unfold bind. rewrite (appends_schedule fuel defs R P d known tr), Hfail.
    done.
  - destruct (Hbefore k) as (st & t' & Hk); [apply list_elem_of_here|].
    unfold bind at 1. rewrite (appends_schedule fuel defs R P d k tr), Hk.
    simpl. unfold bind.
    specialize (IH (λ k' Hk', Hbefore k' (list_elem_of_further _ _ _ Hk'))
                  (tr ++ t')).
    destruct (call_custom_functions fuel defs (before ++ known :: after)
                R P d (tr ++ t')) as [[rs| |] t1]; simpl in *; congruence.
Qed.

Lemma batch_fails_with_first_failing_instance_witness :
  failing_batch_run.1 = Raise (NotAllRequiredProvided "x").
Proof.
  apply (batch_fails_with_first_failing_instance 5 unsat_defs [known_m_x]
           [known_m_x] known_m ["m"; "x"] ["z"; "y"] unsat_contracts
           (NotAllRequiredProvided "x") []).
  - intros k Hk. elem_cases Hk. eexists _, _. vm_compute. reflexivity.
  - vm_compute. reflexivity.
Defined.

(* ===================================================================== *)
(** ** The Docker orchestration: the files of the host *)
(* ===================================================================== *)















(* ===================================================================== *)
(** ** The scheduler: the calls of a run that returns *)
(* ===================================================================== *)

Lemma called_call_log (calls : list logged_call) :
  called (call_log calls) = call_name <$> calls.
Proof.
  induction calls as [|c calls IH]; simpl; [done|]. by rewrite IH.
Qed.

Lemma call_log_snoc (calls : list logged_call) (c : logged_call) :
  call_log (calls ++ [c]) =
  call_log calls ++ [Body [] (call_args c);
                     Called (call_round c) (call_name c) (call_args c)
                       (Ok (call_result c))].
Proof. induction calls as [|c' calls IH]; simpl; [done|]. by rewrite IH. Qed.

(** What a visit that returns did: nothing but queueing the name, or one
    run of the body of the function, logged with the call. *)
Lemma visit_ok (defs : module) (d : dict contract) (known : features)
    (i : nat) (f : string) (st st' : sched) (tr tr' : trace) :
  visit defs d known i f st tr = (Ok st', tr') →
  (tr' = tr ∧ funcnames st' = funcnames st ∧
   all_extracted_features st' = all_extracted_features st) ∨
  (∃ c, call_round c = i ∧ call_name c = f ∧ body_ran defs c ∧
     tr' = tr ++ [Body [] (call_args c);
                  Called i f (call_args c) (Ok (call_result c))] ∧
     funcnames st' = remove_first f (funcnames st) ∧
     all_extracted_features st' =
       merge_items (all_extracted_features st) (call_result c)).
Proof.
  unfold visit. destruct (dict_get f d) as [ct|]; [|done].
  destruct (intersects _ _); [intros [= <- <-]; by left|].
  unfold bind, invoke. destruct (defs !! f) as [self|] eqn:Hself; [|done].
  rewrite wrapped_f_cases.
  destruct (List.find _ (dec_requires self)) eqn:Hreq; [done|].
  destruct (dec_f self [] _) as [res| |] eqn:Hbody; [|done..].
  destruct (List.find _ (dec_provides self)) eqn:Hprov; [done|].
  intros [= <- <-]. right.
  exists (LoggedCall i f (gather known (all_extracted_features st)
                            (requires ct)) res).
  split_and!; try done.
  - exists self. simpl. split_and!; [done..| |].
    + intros r Hr.
      pose proof (proj1 (find_none_forall _ _) Hreq r Hr) as Hm.
      unfold missing in Hm. simpl in Hm.
      apply negb_false_iff in Hm. by apply bool_decide_eq_true in Hm.
    + intros p Hp.
      pose proof (proj1 (find_none_forall _ _) Hprov p Hp) as Hm.
      apply negb_false_iff in Hm. by apply bool_decide_eq_true in Hm.
  - simpl. by rewrite <- app_assoc.
Qed.

Lemma schedule_ok_calls (fuel : nat) (defs : module) (R P : list string)
    (d : dict contract) (known : features) (st : sched) (tr : trace) :
  schedule fuel defs R P d known [] = (Ok st, tr) →
  ∃ calls, tr = call_log calls ∧
    (∀ c, c ∈ calls → body_ran defs c ∧
       ∀ p, is_Some (call_result c !! p) →
         is_Some (all_extracted_features st !! p)).
Proof.
  intros Hrun.
  destruct (schedule_inv defs d known
              (λ st tr, ∃ calls, tr = call_log calls ∧
                 ∀ c, c ∈ calls → body_ran defs c ∧
                   ∀ p, is_Some (call_result c !! p) →
                     is_Some (all_extracted_features st !! p))
              (λ _, True)) with
    (fuel := fuel) (R := R) (P := P) (o := Ok st) (tr := tr) as [_ Hok].
  - done.
  - done.
  - intros i f s t o' t' (calls & -> & Hcalls) Hf Hv. split; [done|].
    intros st' ->.
    destruct (visit_ok _ _ _ _ _ _ _ _ _ Hv)
      as [(-> & _ & Hext)|(c & Hi & Hn & Hran & -> & _ & Hext)].
    + exists calls. split; [done|]. rewrite Hext. apply Hcalls.
    + exists (calls ++ [c]). split.
      { rewrite call_log_snoc. by rewrite Hi, Hn. }
      intros c' [Hc'|Hc'%list_elem_of_singleton]%elem_of_app.
      * destruct (Hcalls c' Hc') as [H1 H2]. split; [done|].
        intros p Hp. rewrite Hext. unfold merge_items.
        destruct (H2 p Hp) as [v Hv'].
        destruct (call_result c !! p) as [w|] eqn:Hres.
        -- exists w. by apply lookup_union_Some_l.
        -- exists v. by rewrite lookup_union_r.
      * subst c'. split; [done|]. intros p [w Hw]. rewrite Hext.
        exists w. by apply lookup_union_Some_l.
  - exists []. split; [done|]. by intros c Hc%elem_of_nil.
  - exact Hrun.
  - by destruct (Hok st eq_refl) as [Hinv _].
Qed.

(** C3, as amended.  For a dictionary of contracts with distinct function
    names, without a dependency cycle, in which every required name is
    known or provided by some function, and a module whose functions
    honour these contracts, the scheduler returns after at most as many
    rounds as there are functions, and the log is that of one run of the
    body of each declared function: every declared function has run
    exactly once, on arguments that hold every name it requires, and what
    its body returned is what the call returned; the result holds every
    name a declared function provides. *)
Theorem scheduler_terminates_calling_each_once (fuel : nat) (defs : module)
    (R P : list string) (d : dict contract) (known : features) :
  NoDup (keys d) →
  honours_contracts defs d →
  collects_requires R d →
  collects_provides P d →
  obtainable R d known →
  acyclic d known →
  length d ≤ fuel →
  ∃ st calls,
    schedule fuel defs R P d known [] = (Ok st, call_log calls) ∧
    funcnames st = [] ∧
    call_name <$> calls ≡ₚ keys d ∧ NoDup (call_name <$> calls) ∧
    (∀ c, c ∈ calls → ran_body defs d c) ∧
    (∀ f ct p, dict_get f d = Some ct → p ∈ provides ct →
       is_Some (all_extracted_features st !! p)).
Proof.
  intros Hnd Hdefs Hreq HP Hprov Hacyc Hfuel.
  destruct (schedule_live defs R d known Hdefs Hreq Hprov Hacyc fuel P)
    as (st & tr & Hrun & Hnil & Hperm); [|done|].
  { intros x HxR Hxk. destruct (Hprov x HxR Hxk) as (g & c & Hc & Hx).
    by apply (HP g c). }
  destruct (schedule_ok_calls _ _ _ _ _ _ _ _ Hrun) as (calls & -> & Hcalls).
  rewrite called_call_log in Hperm.
  assert (∀ c, c ∈ calls → ran_body defs d c) as Hran.
  { intros c Hc. destruct (Hcalls c Hc) as [(self & Hself & Hbody & Hr & Hp) _].
    assert (call_name c ∈ keys d) as Hk.
    { rewrite <- Hperm. by apply list_elem_of_fmap_2. }
    destruct (keys_dict_get _ _ Hk) as [ct Hct].
    destruct (Hdefs _ _ Hct) as (self' & Hself' & E1 & E2 & _).
    rewrite Hself in Hself'. injection Hself' as <-.
    exists self, ct. rewrite <- E1, <- E2. by split_and!. }
  exists st, calls. split_and!; [done..|by rewrite Hperm|done|].
  intros f ct p Hct Hp.
  assert (f ∈ call_name <$> calls) as Hf.
  { rewrite Hperm. by eapply dict_get_keys. }
  apply list_elem_of_fmap in Hf as (c & -> & Hc).
  destruct (Hran c Hc) as (self & ct' & _ & Hct' & _ & _ & Hres).
  rewrite Hct in Hct'. injection Hct' as <-.
  destruct (Hcalls c Hc) as [_ Hext]. by apply Hext, Hres.
Qed.

Lemma scheduler_terminates_calling_each_once_witness :
  ∃ st calls,
    schedule 3 three_defs ["m"; "x"] ["x"; "z"; "y"] three_contracts
      known_m [] = (Ok st, call_log calls) ∧
    funcnames st = [] ∧
    call_name <$> calls ≡ₚ ["f1"; "g"; "f2"] ∧ NoDup (call_name <$> calls) ∧
    (∀ c, c ∈ calls → ran_body three_defs three_contracts c) ∧
    (∀ f ct p, dict_get f three_contracts = Some ct → p ∈ provides ct →
       is_Some (all_extracted_features st !! p)).
Proof.
  apply (scheduler_terminates_calling_each_once 3 three_defs ["m"; "x"]
           ["x"; "z"; "y"] three_contracts known_m).
  - apply (bool_decide_unpack _). vm_compute. exact I.
  - apply three_contracts_honoured.
  - intros f c r H Hr. unfold three_contracts in H. dict_cases H;
      simpl in Hr; elem_cases Hr;
      apply (bool_decide_unpack _); vm_compute; exact I.
  - intros g c x H Hx. unfold three_contracts in H. dict_cases H;
      simpl in Hx; elem_cases Hx;
      apply (bool_decide_unpack _); vm_compute; exact I.
  - intros x Hx Hk. elem_cases Hx.
    + vm_compute in Hk. discriminate Hk.
    + exists "f1", (Contract ["m"] ["x"]). split; [reflexivity|].
      apply list_elem_of_here.
  - exists three_rank. intros f c g c' x Hf Hg Hr Hk Hp.
    unfold three_contracts in Hf. dict_cases Hf; simpl in Hr; elem_cases Hr;
      try (vm_compute in Hk; discriminate Hk).
    unfold three_contracts in Hg. dict_cases Hg; simpl in Hp; elem_cases Hp.
    vm_compute. lia.
  - simpl. lia.
Defined.

(** The property as the specification words it, without a word on what
    the functions do, fails: the three contracts are well formed, without
    a cycle, with every required name known or provided, and yet when the
    body of [f1] raises, the exception ends the run at that call, whatever
    the number of rounds allowed; [g] and [f2] are never called. *)
Lemma raising_function_stops_the_run :
  NoDup (keys three_contracts) ∧
  obtainable ["m"; "x"] three_contracts known_m ∧
  acyclic three_contracts known_m ∧
  (∀ fuel,
     schedule (S fuel) raising_defs ["m"; "x"] ["x"; "z"; "y"] three_contracts
       known_m []
     = (Raise (ValueError "bad data"),
        [Body [] known_m;
         Called 0 "f1" known_m (Raise (ValueError "bad data"))])) ∧
  (∀ fuel st tr,
     schedule fuel raising_defs ["m"; "x"] ["x"; "z"; "y"] three_contracts
       known_m [] ≠ (Ok st, tr)).
Proof.
  assert (∀ fuel,
     schedule (S fuel) raising_defs ["m"; "x"] ["x"; "z"; "y"] three_contracts
       known_m []
     = (Raise (ValueError "bad data"),
        [Body [] known_m;
         Called 0 "f1" known_m (Raise (ValueError "bad data"))])) as Hrun.
  { intros fuel. unfold schedule, bind.
    rewrite check_provided_ok.
    2:{ intros x Hx. apply list_elem_of_filter in Hx as [Hx1 Hx2].
        elem_cases Hx2; [exfalso; apply Hx1; by eexists|].
        apply list_elem_of_here. }
    replace (filter (λ x, ¬ is_Some (known_m !! x)) ["m"; "x"])
      with ["x"] by (vm_compute; reflexivity).
    change (while_funcnames (S fuel) raising_defs three_contracts known_m 0
              (initial_sched ["x"] three_contracts) [])
      with (bind (for_funcnames 3 raising_defs three_contracts known_m 0 0
                    (start_round 0 (initial_sched ["x"] three_contracts)))
                 (λ st', while_funcnames fuel raising_defs three_contracts
                           known_m 1 st') []).
    unfold bind.
    replace (for_funcnames 3 raising_defs three_contracts known_m 0 0
               (start_round 0 (initial_sched ["x"] three_contracts)) [])
      with (@Raise sched (ValueError "bad data"),
            [Body [] known_m;
             Called 0 "f1" known_m (Raise (ValueError "bad data"))])
      by (vm_compute; reflexivity).
    done. }
  split_and!.
  - apply (bool_decide_unpack _). vm_compute. exact I.
  - intros x Hx Hk. elem_cases Hx.
    + vm_compute in Hk. discriminate Hk.
    + exists "f1", (Contract ["m"] ["x"]). split; [reflexivity|].
      apply list_elem_of_here.
  - exists three_rank. intros f c g c' x Hf Hg Hr Hk Hp.
    unfold three_contracts in Hf. dict_cases Hf; simpl in Hr; elem_cases Hr;
      try (vm_compute in Hk; discriminate Hk).
    unfold three_contracts in Hg. dict_cases Hg; simpl in Hp; elem_cases Hp.
    vm_compute. lia.
  - exact Hrun.
  - intros [|fuel] st tr; [|by rewrite Hrun].
    vm_compute. discriminate.
Qed.
